(** * Owl-2820: a shallow embedding of the VM core, the field codecs, the
    assembler and the RV32I ingest layer, with the properties of the
    specification stated over it.

    Conventions of the embedding.
    - A [uint32_t] is a [Z] in [0, 2^32); every operation that can leave
      that range is followed by [u32] (reduction modulo 2^32).  An
      [int32_t] is a [Z] in [-2^31, 2^31); the conversion from unsigned
      is [i32].  Signed arithmetic is two's complement with wrap-around.
    - Reading or writing outside an array (the register file, the memory
      span, the code vector, the label vector) and shifting by a count
      outside [0, 32) have no defined result in the source; the embedding
      returns [None] there.
    - The host byte order, which the source tests with
      [std::endian::native], is the parameter [native] of the class
      [Host]. *)

From Stdlib Require Import ZArith Lia List Bool String Btauto.
From coqutil Require Import Z.bitblast Byte Word.LittleEndianList.
From stdpp Require Import base option list.

Local Open Scope Z_scope.

(** ** Fixed-width integers *)

Definition u8 (z : Z) : Z := z mod 2 ^ 8.
Definition u16 (z : Z) : Z := z mod 2 ^ 16.
Definition u32 (z : Z) : Z := z mod 2 ^ 32.

Definition i8 (z : Z) : Z := (z + 2 ^ 7) mod 2 ^ 8 - 2 ^ 7.
Definition i16 (z : Z) : Z := (z + 2 ^ 15) mod 2 ^ 16 - 2 ^ 15.
Definition i32 (z : Z) : Z := (z + 2 ^ 31) mod 2 ^ 32 - 2 ^ 31.

(** [switch v cases default]: a C++ [switch] whose arms all return. *)
Fixpoint switch {A : Type} (v : Z) (cases : list (Z * A)) (default : A) : A :=
  match cases with
  | [] => default
  | (c, a) :: rest => if v =? c then a else switch v rest default
  end.

(** ** endian.h *)

Inductive endian : Set := little | big.

Class Host := native : endian.

(** [std::rotl<T>] and [std::rotr<T>] for an unsigned type [T] of [N] bits. *)
Definition rotl (N x s : Z) : Z :=
  let r := s mod N in
  (Z.lor (Z.shiftl x r) (Z.shiftr x (N - r))) mod 2 ^ N.

Definition rotr (N x s : Z) : Z :=
  let r := s mod N in
  (Z.lor (Z.shiftr x r) (Z.shiftl x (N - r))) mod 2 ^ N.

(** [AsLE(uint16_t)].  On a big-endian host the source evaluates
    [std::rotr(halfWord & 0x00ffu, 8) | (std::rotl(halfWord, 8) & 0x00ffu)].
    The literal [0x00ffu] is an [unsigned int], so [halfWord & 0x00ffu] is
    an [unsigned int] and [std::rotr] is instantiated at 32 bits, while
    [std::rotl(halfWord, 8)] is instantiated at [uint16_t]; the result is
    converted back to [uint16_t] by the return. *)
Definition AsLE16 `{Host} (halfWord : Z) : Z :=
  match native with
  | little => halfWord
  | big => u16 (Z.lor (rotr 32 (Z.land halfWord 0x00ff) 8)
                      (Z.land (rotl 16 halfWord 8) 0x00ff))
  end.

(** [AsLE(uint32_t)]. *)
Definition AsLE32 `{Host} (word : Z) : Z :=
  match native with
  | little => word
  | big => Z.lor (rotr 32 (Z.land word 0x00ff00ff) 8)
                 (Z.land (rotl 32 word 8) 0x00ff00ff)
  end.

(** The big-endian arm of [AsLE32], named for the proofs. *)
Definition bswap32 (w : Z) : Z :=
  Z.lor (rotr 32 (Z.land w 0x00ff00ff) 8) (Z.land (rotl 32 w 8) 0x00ff00ff).

(** ** memory.h *)

Abbreviation Memory := (list byte).

(** The object representation of an [n]-byte unsigned integer on the host,
    and the value of such a representation: what the byte-wise copies
    ([std::ranges::copy_n] through a [std::byte*]) move. *)
Definition object_bytes `{Host} (n : nat) (v : Z) : list byte :=
  match native with
  | little => le_split n v
  | big => rev (le_split n v)
  end.

Definition object_value `{Host} (bs : list byte) : Z :=
  match native with
  | little => le_combine bs
  | big => le_combine (rev bs)
  end.

(** The bounds are tested on [Z], before the address is turned into a
    position of the list. *)
Definition in_bounds (memory : Memory) (addr : Z) (n : nat) : bool :=
  (0 <=? addr) && (addr + Z.of_nat n <=? Z.of_nat (length memory)).

Definition copy_from (memory : Memory) (addr : Z) (n : nat) : option (list byte) :=
  if in_bounds memory addr n
  then Some (take n (drop (Z.to_nat addr) memory))
  else None.

Definition copy_to (memory : Memory) (addr : Z) (bs : list byte) : option Memory :=
  if in_bounds memory addr (length bs)
  then Some (take (Z.to_nat addr) memory ++ bs
             ++ drop (Z.to_nat addr + length bs)%nat memory)
  else None.

Definition Read8 (memory : Memory) (addr : Z) : option byte :=
  if in_bounds memory addr 1 then memory !! Z.to_nat addr else None.

Definition Read16 `{Host} (memory : Memory) (addr : Z) : option Z :=
  bs ← copy_from memory addr 2;
  Some (AsLE16 (object_value bs)).

Definition Read32 `{Host} (memory : Memory) (addr : Z) : option Z :=
  bs ← copy_from memory addr 4;
  Some (AsLE32 (object_value bs)).

Definition Write8 (memory : Memory) (addr : Z) (b : byte) : option Memory :=
  if in_bounds memory addr 1 then Some (<[Z.to_nat addr := b]> memory) else None.

Definition Write16 `{Host} (memory : Memory) (addr : Z) (halfWord : Z) : option Memory :=
  let v := AsLE16 halfWord in
  copy_to memory addr (object_bytes 2 v).

Definition Write32 `{Host} (memory : Memory) (addr : Z) (word : Z) : option Memory :=
  let v := AsLE32 word in
  copy_to memory addr (object_bytes 4 v).

(** ** opcodes.h *)

Module Opcode.
Inductive t : Set :=
| Illegal
| Ecall | Ebreak
| Add | Sub | Sll | Slt | Sltu | Xor | Srl | Sra | Or | And
| Slli | Srli | Srai
| Beq | Bne | Blt | Bge | Bltu | Bgeu
| Addi | Slti | Sltiu | Xori | Ori | Andi
| Lb | Lbu | Lh | Lhu | Lw
| Sb | Sh | Sw
| Fence
| Jalr | Jal
| Lui | Auipc
| J | Call | Ret | Li | Mv.
End Opcode.

(** ** assembler.h, namespace [encode] *)

Module encode.
(** [uint32_t(opcode)]: the enumerators count up from [Illegal = 0]. *)
Definition opc (opcode : Opcode.t) : Z :=
  match opcode with
  | Opcode.Illegal => 0
  | Opcode.Ecall => 1 | Opcode.Ebreak => 2
  | Opcode.Add => 3 | Opcode.Sub => 4 | Opcode.Sll => 5 | Opcode.Slt => 6
  | Opcode.Sltu => 7 | Opcode.Xor => 8 | Opcode.Srl => 9 | Opcode.Sra => 10
  | Opcode.Or => 11 | Opcode.And => 12
  | Opcode.Slli => 13 | Opcode.Srli => 14 | Opcode.Srai => 15
  | Opcode.Beq => 16 | Opcode.Bne => 17 | Opcode.Blt => 18 | Opcode.Bge => 19
  | Opcode.Bltu => 20 | Opcode.Bgeu => 21
  | Opcode.Addi => 22 | Opcode.Slti => 23 | Opcode.Sltiu => 24
  | Opcode.Xori => 25 | Opcode.Ori => 26 | Opcode.Andi => 27
  | Opcode.Lb => 28 | Opcode.Lbu => 29 | Opcode.Lh => 30 | Opcode.Lhu => 31
  | Opcode.Lw => 32
  | Opcode.Sb => 33 | Opcode.Sh => 34 | Opcode.Sw => 35
  | Opcode.Fence => 36
  | Opcode.Jalr => 37 | Opcode.Jal => 38
  | Opcode.Lui => 39 | Opcode.Auipc => 40
  | Opcode.J => 41 | Opcode.Call => 42 | Opcode.Ret => 43
  | Opcode.Li => 44 | Opcode.Mv => 45
  end.

Definition r0 (r : Z) : Z := Z.shiftl (Z.land r 0x1f) 7.
Definition r1 (r : Z) : Z := Z.shiftl (Z.land r 0x1f) 12.
Definition r2 (r : Z) : Z := Z.shiftl (Z.land r 0x1f) 17.
Definition shift (uimm5 : Z) : Z := Z.shiftl (Z.land uimm5 0x1f) 17.

(** [static_cast<uint32_t>(imm12 << 20)], [imm12] an [int32_t]. *)
Definition imm12 (imm12 : Z) : Z := u32 (Z.shiftl imm12 20).

(** [static_cast<uint32_t>(offs12 << 19) & 0xfff00000]. *)
Definition offs12 (offs12 : Z) : Z := Z.land (u32 (Z.shiftl offs12 19)) 0xfff00000.

(** [static_cast<uint32_t>(offs20 << 11) & 0xfffff000]. *)
Definition offs20 (offs20 : Z) : Z := Z.land (u32 (Z.shiftl offs20 11)) 0xfffff000.

(** [(uimm20 << 12) & 0xfffff000], [uimm20] a [uint32_t]. *)
Definition uimm20 (uimm20 : Z) : Z := Z.land (u32 (Z.shiftl uimm20 12)) 0xfffff000.
End encode.

(** ** dispatch_owl.h, namespace [decode] *)

Module decode.
Definition r0 (ins : Z) : Z := Z.land (Z.shiftr ins 7) 0x1f.
Definition r1 (ins : Z) : Z := Z.land (Z.shiftr ins 12) 0x1f.
Definition r2 (ins : Z) : Z := Z.land (Z.shiftr ins 17) 0x1f.
Definition shift (ins : Z) : Z := Z.land (Z.shiftr ins 17) 0x1f.

(** [static_cast<uint32_t>(static_cast<int32_t>(ins & 0xfff00000) >> 20)]:
    the right shift of the [int32_t] is arithmetic. *)
Definition imm12 (ins : Z) : Z := u32 (Z.shiftr (i32 (Z.land ins 0xfff00000)) 20).
Definition offs12 (ins : Z) : Z := u32 (Z.shiftr (i32 (Z.land ins 0xfff00000)) 19).
Definition offs20 (ins : Z) : Z := u32 (Z.shiftr (i32 (Z.land ins 0xfffff000)) 11).
Definition uimm20 (ins : Z) : Z := Z.land ins 0xfffff000.
End decode.

(** ** cpu.h *)

(** Symbolic register names (the ones the executor itself uses). *)
Definition zero : Z := 0.
Definition ra : Z := 1.
Definition sp : Z := 2.
Definition a0 : Z := 10.
Definition a1 : Z := 11.
Definition a7 : Z := 17.

(** What the executor writes to [std::cout]. *)
Inductive Output : Set :=
| Exiting (status : Z)          (* "Exiting with status <a0>" *)
| PrintedFib (i v : Z).         (* "fib(<a0>) = <a1>" *)

Module OwlCpu.
Record t : Type := mk {
  pc : Z;                 (* The program counter. *)
  nextPc : Z;             (* The address of the next instruction. *)
  x : list Z;             (* The integer registers, [uint32_t x[32]]. *)
  done : bool;            (* Are we there yet? *)
  memory : Memory;        (* The image: [code] and [memory] view one buffer. *)
  out : list Output       (* What has been written to [std::cout]. *)
}.

Definition with_pc (cpu : t) (v : Z) : t :=
  mk v (nextPc cpu) (x cpu) (done cpu) (memory cpu) (out cpu).
Definition with_nextPc (cpu : t) (v : Z) : t :=
  mk (pc cpu) v (x cpu) (done cpu) (memory cpu) (out cpu).
Definition with_x (cpu : t) (v : list Z) : t :=
  mk (pc cpu) (nextPc cpu) v (done cpu) (memory cpu) (out cpu).
Definition with_done (cpu : t) (v : bool) : t :=
  mk (pc cpu) (nextPc cpu) (x cpu) v (memory cpu) (out cpu).
Definition with_memory (cpu : t) (v : Memory) : t :=
  mk (pc cpu) (nextPc cpu) (x cpu) (done cpu) v (out cpu).
Definition print (cpu : t) (o : Output) : t :=
  mk (pc cpu) (nextPc cpu) (x cpu) (done cpu) (memory cpu) (out cpu ++ [o]).

(** [x[i]] as an rvalue and [x[i] = v], for an index of either signedness. *)
Definition get_x (cpu : t) (i : Z) : option Z :=
  if (0 <=? i) && (i <? 32) then x cpu !! Z.to_nat i else None.

Definition set_x (cpu : t) (i v : Z) : option t :=
  if (0 <=? i) && (i <? 32) && (Z.to_nat i <? length (x cpu))%nat
  then Some (with_x cpu (<[Z.to_nat i := v]> (x cpu)))
  else None.

(** The count of a built-in shift must lie in [0, 32). *)
Definition shift_count (n : Z) : option Z :=
  if (0 <=? n) && (n <? 32) then Some n else None.

(** The constructor: all registers zero but [sp], set to the end of memory. *)
Definition init (image : Memory) : t :=
  mk 0 0 (<[Z.to_nat sp := u32 (Z.of_nat (length image))]> (replicate 32 0))
     false image [].

Definition Done (cpu : t) : bool := done cpu.

Section Methods.
Context `{Host}.

Definition Fetch (cpu : t) : option (t * Z) :=
  let wordSize := 4 in
  let cpu := with_pc cpu (nextPc cpu) in
  let cpu := with_nextPc cpu (u32 (nextPc cpu + wordSize)) in
  w ← copy_from (memory cpu) (wordSize * (pc cpu / wordSize)) 4;
  Some (cpu, AsLE32 (object_value w)).

(** System instructions. *)

(** [Syscall(x[a7])] is switched on with arms for [Exit] (0) and
    [PrintFib] (1) and no default arm. *)
Definition Ecall (cpu : t) : option t :=
  syscall ← get_x cpu a7;
  switch syscall
    [ (0, status ← get_x cpu a0;
          Some (with_done (print cpu (Exiting status)) true));
      (1, i ← get_x cpu a0;
          v ← get_x cpu a1;
          Some (print cpu (PrintedFib i v))) ]
    (Some cpu).

Definition Ebreak (cpu : t) : option t := Some (with_done cpu true).

(** Register-register instructions. *)

Definition Add (r0 r1 r2 : Z) (cpu : t) : option t :=
  a ← get_x cpu r1; b ← get_x cpu r2;
  cpu ← set_x cpu r0 (u32 (a + b));
  set_x cpu 0 0.

Definition Sub (r0 r1 r2 : Z) (cpu : t) : option t :=
  a ← get_x cpu r1; b ← get_x cpu r2;
  cpu ← set_x cpu r0 (u32 (a - b));
  set_x cpu 0 0.

Definition Sll (r0 r1 r2 : Z) (cpu : t) : option t :=
  a ← get_x cpu r1; b ← get_x cpu r2;
  cpu ← set_x cpu r0 (u32 (Z.shiftl a (b mod 32)));
  set_x cpu 0 0.

Definition Slt (r0 r1 r2 : Z) (cpu : t) : option t :=
  a ← get_x cpu r1; b ← get_x cpu r2;
  let sr1 := i32 a in
  let sr2 := i32 b in
  cpu ← set_x cpu r0 (if sr1 <? sr2 then 1 else 0);
  set_x cpu 0 0.

Definition Sltu (r0 r1 r2 : Z) (cpu : t) : option t :=
  a ← get_x cpu r1; b ← get_x cpu r2;
  cpu ← set_x cpu r0 (if a <? b then 1 else 0);
  set_x cpu 0 0.

Definition Xor (r0 r1 r2 : Z) (cpu : t) : option t :=
  a ← get_x cpu r1; b ← get_x cpu r2;
  cpu ← set_x cpu r0 (Z.lxor a b);
  set_x cpu 0 0.

Definition Srl (r0 r1 r2 : Z) (cpu : t) : option t :=
  a ← get_x cpu r1; b ← get_x cpu r2;
  cpu ← set_x cpu r0 (Z.shiftr a (b mod 32));
  set_x cpu 0 0.

(** [static_cast<int32_t>(x[r2]) % 32] truncates towards zero, so it is
    negative when bit 31 of [x[r2]] is set and its low five bits are
    not all zero. *)
Definition Sra (r0 r1 r2 : Z) (cpu : t) : option t :=
  a ← get_x cpu r1; b ← get_x cpu r2;
  let sr1 := i32 a in
  let shift := Z.rem (i32 b) 32 in
  n ← shift_count shift;
  cpu ← set_x cpu r0 (u32 (Z.shiftr sr1 n));
  set_x cpu 0 0.

Definition Or (r0 r1 r2 : Z) (cpu : t) : option t :=
  a ← get_x cpu r1; b ← get_x cpu r2;
  cpu ← set_x cpu r0 (Z.lor a b);
  set_x cpu 0 0.

Definition And (r0 r1 r2 : Z) (cpu : t) : option t :=
  a ← get_x cpu r1; b ← get_x cpu r2;
  cpu ← set_x cpu r0 (Z.land a b);
  set_x cpu 0 0.

(** Immediate shift instructions. *)

Definition Slli (r0 r1 shift : Z) (cpu : t) : option t :=
  a ← get_x cpu r1;
  n ← shift_count shift;
  cpu ← set_x cpu r0 (u32 (Z.shiftl a n));
  set_x cpu 0 0.

(** [static_cast<uint32_t>(sr1 >> numBits)] with [sr1] an [int32_t]. *)
Definition Srli (r0 r1 shift : Z) (cpu : t) : option t :=
  a ← get_x cpu r1;
  let sr1 := i32 a in
  let numBits := i32 shift in
  n ← shift_count numBits;
  cpu ← set_x cpu r0 (u32 (Z.shiftr sr1 n));
  set_x cpu 0 0.

(** [x[r1] >> shift] with [x[r1]] a [uint32_t]. *)
Definition Srai (r0 r1 shift : Z) (cpu : t) : option t :=
  a ← get_x cpu r1;
  n ← shift_count shift;
  cpu ← set_x cpu r0 (Z.shiftr a n);
  set_x cpu 0 0.

(** Branch instructions. *)

Definition Beq (r0 r1 offs12 : Z) (cpu : t) : option t :=
  a ← get_x cpu r0; b ← get_x cpu r1;
  Some (if a =? b then with_nextPc cpu (u32 (pc cpu + offs12)) else cpu).

Definition Bne (r0 r1 offs12 : Z) (cpu : t) : option t :=
  a ← get_x cpu r0; b ← get_x cpu r1;
  Some (if negb (a =? b) then with_nextPc cpu (u32 (pc cpu + offs12)) else cpu).

Definition Blt (r0 r1 offs12 : Z) (cpu : t) : option t :=
  a ← get_x cpu r0; b ← get_x cpu r1;
  let sr0 := i32 a in
  let sr1 := i32 b in
  Some (if sr0 <? sr1 then with_nextPc cpu (u32 (pc cpu + offs12)) else cpu).

Definition Bge (r0 r1 offs12 : Z) (cpu : t) : option t :=
  a ← get_x cpu r0; b ← get_x cpu r1;
  let sr0 := i32 a in
  let sr1 := i32 b in
  Some (if sr0 >=? sr1 then with_nextPc cpu (u32 (pc cpu + offs12)) else cpu).

Definition Bltu (r0 r1 offs12 : Z) (cpu : t) : option t :=
  a ← get_x cpu r0; b ← get_x cpu r1;
  Some (if a <? b then with_nextPc cpu (u32 (pc cpu + offs12)) else cpu).

Definition Bgeu (r0 r1 offs12 : Z) (cpu : t) : option t :=
  a ← get_x cpu r0; b ← get_x cpu r1;
  Some (if a >=? b then with_nextPc cpu (u32 (pc cpu + offs12)) else cpu).

(** Register-immediate instructions. *)

Definition Addi (r0 r1 imm12 : Z) (cpu : t) : option t :=
  a ← get_x cpu r1;
  cpu ← set_x cpu r0 (u32 (a + imm12));
  set_x cpu 0 0.

(** The source reads [x[imm12]]: the immediate indexes the register
    file. *)
Definition Slti (r0 r1 imm12 : Z) (cpu : t) : option t :=
  a ← get_x cpu r1;
  let sr1 := i32 a in
  b ← get_x cpu imm12;
  let simm12 := i32 b in
  cpu ← set_x cpu r0 (if sr1 <? simm12 then 1 else 0);
  set_x cpu 0 0.

Definition Sltiu (r0 r1 imm12 : Z) (cpu : t) : option t :=
  a ← get_x cpu r1;
  cpu ← set_x cpu r0 (if a <? u32 imm12 then 1 else 0);
  set_x cpu 0 0.

Definition Xori (r0 r1 imm12 : Z) (cpu : t) : option t :=
  a ← get_x cpu r1;
  cpu ← set_x cpu r0 (Z.lxor a (u32 imm12));
  set_x cpu 0 0.

Definition Ori (r0 r1 imm12 : Z) (cpu : t) : option t :=
  a ← get_x cpu r1;
  cpu ← set_x cpu r0 (Z.lor a (u32 imm12));
  set_x cpu 0 0.

Definition Andi (r0 r1 imm12 : Z) (cpu : t) : option t :=
  a ← get_x cpu r1;
  cpu ← set_x cpu r0 (Z.land a (u32 imm12));
  set_x cpu 0 0.

(** Load instructions. *)

Definition Lb (r0 imm12 r1 : Z) (cpu : t) : option t :=
  a ← get_x cpu r1;
  let addr := u32 (a + imm12) in
  b ← Read8 (memory cpu) addr;
  let signExtendedByte := i8 (byte.unsigned b) in
  cpu ← set_x cpu r0 (u32 signExtendedByte);
  set_x cpu 0 0.

Definition Lbu (r0 imm12 r1 : Z) (cpu : t) : option t :=
  a ← get_x cpu r1;
  let addr := u32 (a + imm12) in
  b ← Read8 (memory cpu) addr;
  let zeroExtendedByte := u8 (byte.unsigned b) in
  cpu ← set_x cpu r0 zeroExtendedByte;
  set_x cpu 0 0.

Definition Lh (r0 imm12 r1 : Z) (cpu : t) : option t :=
  a ← get_x cpu r1;
  let addr := u32 (a + imm12) in
  v ← Read16 (memory cpu) addr;
  let signExtendedHalfWord := i16 v in
  cpu ← set_x cpu r0 (u32 signExtendedHalfWord);
  set_x cpu 0 0.

Definition Lhu (r0 imm12 r1 : Z) (cpu : t) : option t :=
  a ← get_x cpu r1;
  let addr := u32 (a + imm12) in
  v ← Read16 (memory cpu) addr;
  let zeroExtendedHalfWord := u16 v in
  cpu ← set_x cpu r0 zeroExtendedHalfWord;
  set_x cpu 0 0.

Definition Lw (r0 imm12 r1 : Z) (cpu : t) : option t :=
  a ← get_x cpu r1;
  let addr := u32 (a + imm12) in
  v ← Read32 (memory cpu) addr;
  cpu ← set_x cpu r0 v;
  set_x cpu 0 0.

(** Store instructions. *)

Definition Sb (r0 imm12 r1 : Z) (cpu : t) : option t :=
  a ← get_x cpu r1;
  let addr := u32 (a + imm12) in
  v ← get_x cpu r0;
  m ← Write8 (memory cpu) addr (byte.of_Z v);
  Some (with_memory cpu m).

Definition Sh (r0 imm12 r1 : Z) (cpu : t) : option t :=
  a ← get_x cpu r1;
  let addr := u32 (a + imm12) in
  v ← get_x cpu r0;
  let halfWord := u16 v in
  m ← Write16 (memory cpu) addr halfWord;
  Some (with_memory cpu m).

Definition Sw (r0 imm12 r1 : Z) (cpu : t) : option t :=
  a ← get_x cpu r1;
  let addr := u32 (a + imm12) in
  word ← get_x cpu r0;
  m ← Write32 (memory cpu) addr word;
  Some (with_memory cpu m).

(** Memory ordering instructions. *)

Definition Fence (cpu : t) : option t := Some cpu.

(** Subroutine call instructions. *)

(** [const int32_t r1Before = x[r1]; x[r0] = nextPc;
     nextPc = r1Before + offs12; x[0] = 0;] *)
Definition Jalr (r0 offs12 r1 : Z) (cpu : t) : option t :=
  b ← get_x cpu r1;
  let r1Before := i32 b in
  cpu ← set_x cpu r0 (nextPc cpu);
  let cpu := with_nextPc cpu (u32 (r1Before + offs12)) in
  set_x cpu 0 0.

Definition Jal (r0 offs20 : Z) (cpu : t) : option t :=
  cpu ← set_x cpu r0 (nextPc cpu);
  let cpu := with_nextPc cpu (u32 (pc cpu + offs20)) in
  set_x cpu 0 0.

(** Miscellaneous instructions. *)

Definition Lui (r0 uimm20 : Z) (cpu : t) : option t :=
  cpu ← set_x cpu r0 uimm20;
  set_x cpu 0 0.

Definition Auipc (r0 uimm20 : Z) (cpu : t) : option t :=
  cpu ← set_x cpu r0 (u32 (pc cpu + uimm20));
  set_x cpu 0 0.

(** Owl-2820 only instructions. *)

Definition J (offs20 : Z) (cpu : t) : option t :=
  Some (with_nextPc cpu (u32 (pc cpu + offs20))).

Definition Call (offs20 : Z) (cpu : t) : option t :=
  cpu ← set_x cpu ra (nextPc cpu);
  Some (with_nextPc cpu (u32 (pc cpu + offs20))).

Definition Ret (cpu : t) : option t :=
  v ← get_x cpu ra;
  Some (with_nextPc cpu v).

Definition Li (r0 imm12 : Z) (cpu : t) : option t :=
  cpu ← set_x cpu r0 (u32 imm12);
  set_x cpu 0 0.

Definition Mv (r0 r1 : Z) (cpu : t) : option t :=
  a ← get_x cpu r1;
  cpu ← set_x cpu r0 a;
  set_x cpu 0 0.

Definition Illegal (ins : Z) (cpu : t) : option t :=
  Some (with_done cpu true).
End Methods.
End OwlCpu.

(** ** dispatch_owl.h *)

(** The operands come out of [decode] as [uint32_t]; the methods take
    [imm12], [offs12] and [offs20] as [int32_t], hence the [i32]. *)
Definition DispatchOwl `{Host} (cpu : OwlCpu.t) (ins : Z) : option OwlCpu.t :=
  let r0 := decode.r0 ins in
  let r1 := decode.r1 ins in
  let r2 := decode.r2 ins in
  let shift := decode.shift ins in
  let imm12 := i32 (decode.imm12 ins) in
  let offs12 := i32 (decode.offs12 ins) in
  let offs20 := i32 (decode.offs20 ins) in
  let uimm20 := decode.uimm20 ins in
  let opcode := Z.land ins 0x7f in
  switch opcode
    [ (encode.opc Opcode.Ecall, OwlCpu.Ecall cpu);
      (encode.opc Opcode.Ebreak, OwlCpu.Ebreak cpu);
      (encode.opc Opcode.Add, OwlCpu.Add r0 r1 r2 cpu);
      (encode.opc Opcode.Sub, OwlCpu.Sub r0 r1 r2 cpu);
      (encode.opc Opcode.Sll, OwlCpu.Sll r0 r1 r2 cpu);
      (encode.opc Opcode.Slt, OwlCpu.Slt r0 r1 r2 cpu);
      (encode.opc Opcode.Sltu, OwlCpu.Sltu r0 r1 r2 cpu);
      (encode.opc Opcode.Xor, OwlCpu.Xor r0 r1 r2 cpu);
      (encode.opc Opcode.Srl, OwlCpu.Srl r0 r1 r2 cpu);
      (encode.opc Opcode.Sra, OwlCpu.Sra r0 r1 r2 cpu);
      (encode.opc Opcode.Or, OwlCpu.Or r0 r1 r2 cpu);
      (encode.opc Opcode.And, OwlCpu.And r0 r1 r2 cpu);
      (encode.opc Opcode.Slli, OwlCpu.Slli r0 r1 shift cpu);
      (encode.opc Opcode.Srli, OwlCpu.Srli r0 r1 shift cpu);
      (encode.opc Opcode.Srai, OwlCpu.Srai r0 r1 shift cpu);
      (encode.opc Opcode.Beq, OwlCpu.Beq r0 r1 offs12 cpu);
      (encode.opc Opcode.Bne, OwlCpu.Bne r0 r1 offs12 cpu);
      (encode.opc Opcode.Blt, OwlCpu.Blt r0 r1 offs12 cpu);
      (encode.opc Opcode.Bge, OwlCpu.Bge r0 r1 offs12 cpu);
      (encode.opc Opcode.Bltu, OwlCpu.Bltu r0 r1 offs12 cpu);
      (encode.opc Opcode.Bgeu, OwlCpu.Bgeu r0 r1 offs12 cpu);
      (encode.opc Opcode.Addi, OwlCpu.Addi r0 r1 imm12 cpu);
      (encode.opc Opcode.Slti, OwlCpu.Slti r0 r1 imm12 cpu);
      (encode.opc Opcode.Sltiu, OwlCpu.Sltiu r0 r1 imm12 cpu);
      (encode.opc Opcode.Xori, OwlCpu.Xori r0 r1 imm12 cpu);
      (encode.opc Opcode.Ori, OwlCpu.Ori r0 r1 imm12 cpu);
      (encode.opc Opcode.Andi, OwlCpu.Andi r0 r1 imm12 cpu);
      (encode.opc Opcode.Lb, OwlCpu.Lb r0 imm12 r1 cpu);
      (encode.opc Opcode.Lbu, OwlCpu.Lbu r0 imm12 r1 cpu);
      (encode.opc Opcode.Lh, OwlCpu.Lh r0 imm12 r1 cpu);
      (encode.opc Opcode.Lhu, OwlCpu.Lhu r0 imm12 r1 cpu);
      (encode.opc Opcode.Lw, OwlCpu.Lw r0 imm12 r1 cpu);
      (encode.opc Opcode.Sb, OwlCpu.Sb r0 imm12 r1 cpu);
      (encode.opc Opcode.Sh, OwlCpu.Sh r0 imm12 r1 cpu);
      (encode.opc Opcode.Sw, OwlCpu.Sw r0 imm12 r1 cpu);
      (encode.opc Opcode.Fence, OwlCpu.Fence cpu);
      (encode.opc Opcode.Jalr, OwlCpu.Jalr r0 offs12 r1 cpu);
      (encode.opc Opcode.Jal, OwlCpu.Jal r0 offs20 cpu);
      (encode.opc Opcode.Lui, OwlCpu.Lui r0 uimm20 cpu);
      (encode.opc Opcode.Auipc, OwlCpu.Auipc r0 uimm20 cpu);
      (encode.opc Opcode.J, OwlCpu.J offs20 cpu);
      (encode.opc Opcode.Call, OwlCpu.Call offs20 cpu);
      (encode.opc Opcode.Ret, OwlCpu.Ret cpu);
      (encode.opc Opcode.Li, OwlCpu.Li r0 imm12 cpu);
      (encode.opc Opcode.Mv, OwlCpu.Mv r0 r1 cpu) ]
    (OwlCpu.Illegal ins cpu).

(** ** assembler.h *)

Infix ".|" := Z.lor (at level 50, left associativity).

Record Label : Set := { GetId : nat }.

Module FixupType.
Inductive t : Set := offs12 | offs20 | hi20 | lo12.
End FixupType.

(** [fixups_] is a [std::multimap]: the entries are kept in key order, and
    entries of one key in the order of their insertion. *)
Fixpoint multimap_emplace {V : Type} (k : nat) (v : V) (m : list (nat * V)) : list (nat * V) :=
  match m with
  | [] => [(k, v)]
  | (k', v') :: rest =>
      if (k' <=? k)%nat then (k', v') :: multimap_emplace k v rest else (k, v) :: m
  end.

Definition multimap_equal_range {V : Type} (k : nat) (m : list (nat * V)) : list (nat * V) :=
  filter (fun p => fst p = k) m.

Definition multimap_erase {V : Type} (k : nat) (m : list (nat * V)) : list (nat * V) :=
  filter (fun p => fst p <> k) m.

Module Assembler.
Definition badAddress : Z := u32 (-1).

Record Fixup : Set := {
  target : Z;             (* The address that contains the data to be fixed up. *)
  type : FixupType.t      (* The type of the data that needs to be fixed up. *)
}.

Record t : Type := mk {
  code_ : list Z;
  current_ : Z;
  labels_ : list Z;
  fixups_ : list (nat * Fixup)
}.

Definition empty : t := mk [] 0 [] [].

Definition Current (a : t) : Z := current_ a.

(** The outer [option] is the vector access [labels_[id]]; the inner one
    is the [std::optional] the source returns. *)
Definition AddressOf (a : t) (label : Label) : option (option Z) :=
  result ← labels_ a !! GetId label;
  Some (if negb (result =? badAddress) then Some result else None).

(** [offset] is an [int32_t]. *)
Definition ResolveFixup (type : FixupType.t) (addr offset : Z) (a : t) : option t :=
  let i := Z.to_nat (addr / 4) in
  existing ← code_ a !! i;
  let existing :=
    match type with
    | FixupType.offs12 => Z.land existing 0x000fffff .| encode.offs12 offset
    | FixupType.offs20 => Z.land existing 0x00000fff .| encode.offs20 offset
    | FixupType.hi20 => Z.land existing 0x00000fff .| u32 offset
    | FixupType.lo12 => Z.land existing 0x000fffff .| encode.imm12 offset
    end in
  Some (mk (<[i := existing]> (code_ a)) (current_ a) (labels_ a) (fixups_ a)).

Definition AddFixup (type : FixupType.t) (label : Label) (a : t) : t :=
  mk (code_ a) (current_ a) (labels_ a)
     (multimap_emplace (GetId label) {| target := Current a; type := type |} (fixups_ a)).

Definition resolve (address : Z) (a : option t) (entry : nat * Fixup) : option t :=
  a ← a;
  let fixup := snd entry in
  match type fixup with
  | FixupType.offs12 =>
      let offset := u32 (address - target fixup) in
      ResolveFixup FixupType.offs12 (target fixup) (i32 offset) a
  | FixupType.offs20 =>
      let offset := u32 (address - target fixup) in
      ResolveFixup FixupType.offs20 (target fixup) (i32 offset) a
  | FixupType.hi20 =>
      let upper20 := Z.land address 0xfffff000 in
      ResolveFixup FixupType.hi20 (target fixup) (i32 upper20) a
  | FixupType.lo12 =>
      let lower12 := Z.land address 0x00000fff in
      ResolveFixup FixupType.lo12 (target fixup) (i32 lower12) a
  end.

Definition BindLabel (label : Label) (a : t) : option t :=
  let id := GetId label in
  let address := Current a in
  if (id <? length (labels_ a))%nat then
    let a := mk (code_ a) (current_ a) (<[id := address]> (labels_ a)) (fixups_ a) in
    (* [fixups_.equal_range(id).first != fixups_.end()] *)
    if existsb (fun p => (id <=? fst p)%nat) (fixups_ a) then
      a ← fold_left (resolve address) (multimap_equal_range id (fixups_ a)) (Some a);
      Some (mk (code_ a) (current_ a) (labels_ a) (multimap_erase id (fixups_ a)))
    else Some a
  else None.

Definition MakeLabel (a : t) : Label * t :=
  let labelId := length (labels_ a) in
  ({| GetId := labelId |},
   mk (code_ a) (current_ a) (labels_ a ++ [badAddress]) (fixups_ a)).

(** [Code() const]: the buffer, or [std::runtime_error] with this text. *)
Definition Code (a : t) : string + list Z :=
  match fixups_ a with
  | [] => inr (code_ a)
  | _ :: _ => inl "There are unbound labels."%string
  end.

Section Methods.
Context `{Host}.

Definition Emit (u : Z) (a : t) : t :=
  mk (code_ a ++ [AsLE32 u]) (u32 (current_ a + 4)) (labels_ a) (fixups_ a).

Definition Ecall (a : t) : t := Emit (encode.opc Opcode.Ecall) a.
Definition Ebreak (a : t) : t := Emit (encode.opc Opcode.Ebreak) a.

Definition Add (r0 r1 r2 : Z) (a : t) : t :=
  Emit (encode.opc Opcode.Add .| encode.r0 r0 .| encode.r1 r1 .| encode.r2 r2) a.
Definition Sub (r0 r1 r2 : Z) (a : t) : t :=
  Emit (encode.opc Opcode.Sub .| encode.r0 r0 .| encode.r1 r1 .| encode.r2 r2) a.
Definition Sll (r0 r1 r2 : Z) (a : t) : t :=
  Emit (encode.opc Opcode.Sll .| encode.r0 r0 .| encode.r1 r1 .| encode.r2 r2) a.
Definition Slt (r0 r1 r2 : Z) (a : t) : t :=
  Emit (encode.opc Opcode.Slt .| encode.r0 r0 .| encode.r1 r1 .| encode.r2 r2) a.
Definition Sltu (r0 r1 r2 : Z) (a : t) : t :=
  Emit (encode.opc Opcode.Sltu .| encode.r0 r0 .| encode.r1 r1 .| encode.r2 r2) a.
Definition Xor (r0 r1 r2 : Z) (a : t) : t :=
  Emit (encode.opc Opcode.Xor .| encode.r0 r0 .| encode.r1 r1 .| encode.r2 r2) a.
Definition Srl (r0 r1 r2 : Z) (a : t) : t :=
  Emit (encode.opc Opcode.Srl .| encode.r0 r0 .| encode.r1 r1 .| encode.r2 r2) a.
Definition Sra (r0 r1 r2 : Z) (a : t) : t :=
  Emit (encode.opc Opcode.Sra .| encode.r0 r0 .| encode.r1 r1 .| encode.r2 r2) a.
Definition Or (r0 r1 r2 : Z) (a : t) : t :=
  Emit (encode.opc Opcode.Or .| encode.r0 r0 .| encode.r1 r1 .| encode.r2 r2) a.
Definition And (r0 r1 r2 : Z) (a : t) : t :=
  Emit (encode.opc Opcode.And .| encode.r0 r0 .| encode.r1 r1 .| encode.r2 r2) a.

Definition Slli (r0 r1 shift : Z) (a : t) : t :=
  Emit (encode.opc Opcode.Slli .| encode.r0 r0 .| encode.r1 r1 .| encode.shift shift) a.
Definition Srli (r0 r1 shift : Z) (a : t) : t :=
  Emit (encode.opc Opcode.Srli .| encode.r0 r0 .| encode.r1 r1 .| encode.shift shift) a.
Definition Srai (r0 r1 shift : Z) (a : t) : t :=
  Emit (encode.opc Opcode.Srai .| encode.r0 r0 .| encode.r1 r1 .| encode.shift shift) a.

(** Branch instructions: [Branch<opcode>] with a numeric offset, and its
    overload for a label.  [*addr - Current()] is a [uint32_t] that the
    numeric overload receives as an [int32_t]. *)
Definition Branch (opcode : Opcode.t) (r0 r1 offs12 : Z) (a : t) : t :=
  Emit (encode.opc opcode .| encode.r0 r0 .| encode.r1 r1 .| encode.offs12 offs12) a.

Definition Branch_label (opcode : Opcode.t) (r0 r1 : Z) (label : Label) (a : t) : option t :=
  addr ← AddressOf a label;
  match addr with
  | Some addr => Some (Branch opcode r0 r1 (i32 (u32 (addr - Current a))) a)
  | None =>
      let a := AddFixup FixupType.offs12 label a in
      Some (Branch opcode r0 r1 0 a)
  end.

Definition Beq := Branch Opcode.Beq.
Definition Beq_label := Branch_label Opcode.Beq.
Definition Bne := Branch Opcode.Bne.
Definition Bne_label := Branch_label Opcode.Bne.
Definition Blt := Branch Opcode.Blt.
Definition Blt_label := Branch_label Opcode.Blt.
Definition Bge := Branch Opcode.Bge.
Definition Bge_label := Branch_label Opcode.Bge.
Definition Bltu := Branch Opcode.Bltu.
Definition Bltu_label := Branch_label Opcode.Bltu.
Definition Bgeu := Branch Opcode.Bgeu.
Definition Bgeu_label := Branch_label Opcode.Bgeu.

(** Register-immediate instructions. *)

Definition Addi (r0 r1 imm12 : Z) (a : t) : t :=
  Emit (encode.opc Opcode.Addi .| encode.r0 r0 .| encode.r1 r1 .| encode.imm12 imm12) a.
Definition Slti (r0 r1 imm12 : Z) (a : t) : t :=
  Emit (encode.opc Opcode.Slti .| encode.r0 r0 .| encode.r1 r1 .| encode.imm12 imm12) a.
Definition Sltiu (r0 r1 imm12 : Z) (a : t) : t :=
  Emit (encode.opc Opcode.Sltiu .| encode.r0 r0 .| encode.r1 r1 .| encode.imm12 imm12) a.
Definition Xori (r0 r1 imm12 : Z) (a : t) : t :=
  Emit (encode.opc Opcode.Xori .| encode.r0 r0 .| encode.r1 r1 .| encode.imm12 imm12) a.
Definition Ori (r0 r1 imm12 : Z) (a : t) : t :=
  Emit (encode.opc Opcode.Ori .| encode.r0 r0 .| encode.r1 r1 .| encode.imm12 imm12) a.
Definition Andi (r0 r1 imm12 : Z) (a : t) : t :=
  Emit (encode.opc Opcode.Andi .| encode.r0 r0 .| encode.r1 r1 .| encode.imm12 imm12) a.

(** Load instructions. *)

Definition Lb (r0 imm12 r1 : Z) (a : t) : t :=
  Emit (encode.opc Opcode.Lb .| encode.r0 r0 .| encode.imm12 imm12 .| encode.r1 r1) a.
Definition Lbu (r0 imm12 r1 : Z) (a : t) : t :=
  Emit (encode.opc Opcode.Lbu .| encode.r0 r0 .| encode.imm12 imm12 .| encode.r1 r1) a.
Definition Lh (r0 imm12 r1 : Z) (a : t) : t :=
  Emit (encode.opc Opcode.Lh .| encode.r0 r0 .| encode.imm12 imm12 .| encode.r1 r1) a.
Definition Lhu (r0 imm12 r1 : Z) (a : t) : t :=
  Emit (encode.opc Opcode.Lhu .| encode.r0 r0 .| encode.imm12 imm12 .| encode.r1 r1) a.
Definition Lw (r0 imm12 r1 : Z) (a : t) : t :=
  Emit (encode.opc Opcode.Lw .| encode.r0 r0 .| encode.imm12 imm12 .| encode.r1 r1) a.

(** Store instructions. *)

Definition Sb (r0 imm12 r1 : Z) (a : t) : t :=
  Emit (encode.opc Opcode.Sb .| encode.r0 r0 .| encode.imm12 imm12 .| encode.r1 r1) a.
Definition Sh (r0 imm12 r1 : Z) (a : t) : t :=
  Emit (encode.opc Opcode.Sh .| encode.r0 r0 .| encode.imm12 imm12 .| encode.r1 r1) a.
Definition Sw (r0 imm12 r1 : Z) (a : t) : t :=
  Emit (encode.opc Opcode.Sw .| encode.r0 r0 .| encode.imm12 imm12 .| encode.r1 r1) a.

(** Memory ordering instructions. *)

Definition Fence (a : t) : t := Emit (encode.opc Opcode.Fence) a.

(** Subroutine call instructions. *)

Definition Jalr (r0 offs12 r1 : Z) (a : t) : t :=
  Emit (encode.opc Opcode.Jalr .| encode.offs12 offs12 .| encode.r1 r1 .| encode.r0 r0) a.
Definition Jal (r0 offs20 : Z) (a : t) : t :=
  Emit (encode.opc Opcode.Jal .| encode.offs20 offs20 .| encode.r0 r0) a.

(** Miscellaneous instructions. *)

Definition Lui (r0 uimm20 : Z) (a : t) : t :=
  Emit (encode.opc Opcode.Lui .| encode.r0 r0 .| encode.uimm20 uimm20) a.
Definition Auipc (r0 uimm20 : Z) (a : t) : t :=
  Emit (encode.opc Opcode.Auipc .| encode.r0 r0 .| encode.uimm20 uimm20) a.

(** Owl-2820 only instructions: [Jump<opcode>] and its label overload. *)

Definition Jump (opcode : Opcode.t) (offs20 : Z) (a : t) : t :=
  Emit (encode.opc opcode .| encode.offs20 offs20) a.

Definition Jump_label (opcode : Opcode.t) (label : Label) (a : t) : option t :=
  addr ← AddressOf a label;
  match addr with
  | Some addr => Some (Jump opcode (i32 (u32 (addr - Current a))) a)
  | None =>
      let a := AddFixup FixupType.offs20 label a in
      Some (Jump opcode 0 a)
  end.

Definition J := Jump Opcode.J.
Definition J_label := Jump_label Opcode.J.
Definition Call := Jump Opcode.Call.
Definition Call_label := Jump_label Opcode.Call.

Definition Ret (a : t) : t := Emit (encode.opc Opcode.Ret) a.

Definition Li (r0 imm12 : Z) (a : t) : t :=
  Emit (encode.opc Opcode.Li .| encode.r0 r0 .| encode.imm12 imm12) a.
Definition Mv (r0 r1 : Z) (a : t) : t :=
  Emit (encode.opc Opcode.Mv .| encode.r0 r0 .| encode.r1 r1) a.

Definition Illegal (ins : Z) (a : t) : t := Emit (encode.opc Opcode.Illegal) a.

(** Directives. *)

Definition Hi (label : Label) (a : t) : option (Z * t) :=
  addr ← AddressOf a label;
  match addr with
  | Some addr => Some (Z.shiftr addr 12, a)
  | None => Some (0, AddFixup FixupType.hi20 label a)
  end.

Definition Lo (label : Label) (a : t) : option (Z * t) :=
  addr ← AddressOf a label;
  match addr with
  | Some addr => Some (Z.land addr 0xfff, a)
  | None => Some (0, AddFixup FixupType.lo12 label a)
  end.

Definition Word (word : Z) (a : t) : t := Emit word a.
End Methods.
End Assembler.

(** ** dispatch_rv32i.h *)

Module DecodeRv32.
Definition Rd (ins_ : Z) : Z := Z.land (Z.shiftr ins_ 7) 0x1f.
Definition Rs1 (ins_ : Z) : Z := Z.land (Z.shiftr ins_ 15) 0x1f.
Definition Rs2 (ins_ : Z) : Z := Z.land (Z.shiftr ins_ 20) 0x1f.
Definition Shamtw (ins_ : Z) : Z := Z.land (Z.shiftr ins_ 20) 0x1f.

Definition Bimmediate (ins_ : Z) : Z :=
  let imm12 := Z.shiftr (i32 (Z.land ins_ 0x80000000)) 19 in
  let imm11 := i32 (u32 (Z.shiftl (Z.land ins_ 0x00000080) 4)) in
  let imm10_5 := i32 (Z.shiftr (Z.land ins_ 0x7e000000) 20) in
  let imm4_1 := i32 (Z.shiftr (Z.land ins_ 0x00000f00) 7) in
  u32 (imm12 .| imm11 .| imm10_5 .| imm4_1).

Definition Iimmediate (ins_ : Z) : Z :=
  u32 (Z.shiftr (i32 ins_) 20).

Definition Simmediate (ins_ : Z) : Z :=
  let imm11_5 := Z.shiftr (i32 (Z.land ins_ 0xfe000000)) 20 in
  let imm4_0 := i32 (Z.shiftr (Z.land ins_ 0x00000f80) 7) in
  u32 (imm11_5 .| imm4_0).

Definition Jimmediate (ins_ : Z) : Z :=
  let imm20 := Z.shiftr (i32 (Z.land ins_ 0x80000000)) 11 in
  let imm19_12 := i32 (Z.land ins_ 0x000ff000) in
  let imm11 := i32 (Z.shiftr (Z.land ins_ 0x00100000) 9) in
  let imm10_1 := i32 (Z.shiftr (Z.land ins_ 0x7fe00000) 20) in
  u32 (imm20 .| imm19_12 .| imm11 .| imm10_1).

Definition Uimmediate (ins_ : Z) : Z := Z.land ins_ 0xfffff000.
End DecodeRv32.

(** The immediates leave [DecodeRv32] as [uint32_t] and reach the handler's
    [int32_t] parameters, hence the [i32]; [Uimmediate] stays unsigned. *)
Definition DispatchRv32i `{Host} (a : OwlCpu.t) (code : Z) : option OwlCpu.t :=
  let Rd := DecodeRv32.Rd code in
  let Rs1 := DecodeRv32.Rs1 code in
  let Rs2 := DecodeRv32.Rs2 code in
  let Shamtw := DecodeRv32.Shamtw code in
  let Bimmediate := i32 (DecodeRv32.Bimmediate code) in
  let Iimmediate := i32 (DecodeRv32.Iimmediate code) in
  let Simmediate := i32 (DecodeRv32.Simmediate code) in
  let Jimmediate := i32 (DecodeRv32.Jimmediate code) in
  let Uimmediate := DecodeRv32.Uimmediate code in
  switch code
    [ (0x00000073, OwlCpu.Ecall a);
      (0x00100073, OwlCpu.Ebreak a) ]
  (switch (Z.land code 0xfe00707f)
    [ (0x00000033, OwlCpu.Add Rd Rs1 Rs2 a);
      (0x40000033, OwlCpu.Sub Rd Rs1 Rs2 a);
      (0x00001033, OwlCpu.Sll Rd Rs1 Rs2 a);
      (0x00002033, OwlCpu.Slt Rd Rs1 Rs2 a);
      (0x00003033, OwlCpu.Sltu Rd Rs1 Rs2 a);
      (0x00004033, OwlCpu.Xor Rd Rs1 Rs2 a);
      (0x00005033, OwlCpu.Srl Rd Rs1 Rs2 a);
      (0x40005033, OwlCpu.Sra Rd Rs1 Rs2 a);
      (0x00006033, OwlCpu.Or Rd Rs1 Rs2 a);
      (0x00007033, OwlCpu.And Rd Rs1 Rs2 a);
      (0x00001013, OwlCpu.Slli Rd Rs1 Shamtw a);
      (0x00005013, OwlCpu.Srli Rd Rs1 Shamtw a);
      (0x40005013, OwlCpu.Srai Rd Rs1 Shamtw a) ]
  (switch (Z.land code 0x0000707f)
    [ (0x00000063, OwlCpu.Beq Rs1 Rs2 Bimmediate a);
      (0x00001063, OwlCpu.Bne Rs1 Rs2 Bimmediate a);
      (0x00004063, OwlCpu.Blt Rs1 Rs2 Bimmediate a);
      (0x00005063, OwlCpu.Bge Rs1 Rs2 Bimmediate a);
      (0x00006063, OwlCpu.Bltu Rs1 Rs2 Bimmediate a);
      (0x00007063, OwlCpu.Bgeu Rs1 Rs2 Bimmediate a);
      (0x00000067, OwlCpu.Jalr Rd Iimmediate Rs1 a);
      (0x00000013, OwlCpu.Addi Rd Rs1 Iimmediate a);
      (0x00002013, OwlCpu.Slti Rd Rs1 Iimmediate a);
      (0x00003013, OwlCpu.Sltiu Rd Rs1 Iimmediate a);
      (0x00004013, OwlCpu.Xori Rd Rs1 Iimmediate a);
      (0x00006013, OwlCpu.Ori Rd Rs1 Iimmediate a);
      (0x00007013, OwlCpu.Andi Rd Rs1 Iimmediate a);
      (0x00000003, OwlCpu.Lb Rd Iimmediate Rs1 a);
      (0x00001003, OwlCpu.Lh Rd Iimmediate Rs1 a);
      (0x00002003, OwlCpu.Lw Rd Iimmediate Rs1 a);
      (0x00004003, OwlCpu.Lbu Rd Iimmediate Rs1 a);
      (0x00005003, OwlCpu.Lhu Rd Iimmediate Rs1 a);
      (0x00000023, OwlCpu.Sb Rs1 Simmediate Rs2 a);
      (0x00001023, OwlCpu.Sh Rs1 Simmediate Rs2 a);
      (0x00002023, OwlCpu.Sw Rs1 Simmediate Rs2 a);
      (0x0000000f, OwlCpu.Fence a) ]
  (switch (Z.land code 0x0000007f)
    [ (0x0000006f, OwlCpu.Jal Rd Jimmediate a);
      (0x00000037, OwlCpu.Lui Rd Uimmediate a);
      (0x00000017, OwlCpu.Auipc Rd Uimmediate a) ]
  (OwlCpu.Illegal code a)))).

(** ** The transcoder (main.cpp) *)

(** Same decision list as [DispatchRv32i], over the assembler. *)
Definition Transcode `{Host} (a : Assembler.t) (code : Z) : Assembler.t :=
  let Rd := DecodeRv32.Rd code in
  let Rs1 := DecodeRv32.Rs1 code in
  let Rs2 := DecodeRv32.Rs2 code in
  let Shamtw := DecodeRv32.Shamtw code in
  let Bimmediate := i32 (DecodeRv32.Bimmediate code) in
  let Iimmediate := i32 (DecodeRv32.Iimmediate code) in
  let Simmediate := i32 (DecodeRv32.Simmediate code) in
  let Jimmediate := i32 (DecodeRv32.Jimmediate code) in
  let Uimmediate := DecodeRv32.Uimmediate code in
  switch code
    [ (0x00000073, Assembler.Ecall a);
      (0x00100073, Assembler.Ebreak a) ]
  (switch (Z.land code 0xfe00707f)
    [ (0x00000033, Assembler.Add Rd Rs1 Rs2 a);
      (0x40000033, Assembler.Sub Rd Rs1 Rs2 a);
      (0x00001033, Assembler.Sll Rd Rs1 Rs2 a);
      (0x00002033, Assembler.Slt Rd Rs1 Rs2 a);
      (0x00003033, Assembler.Sltu Rd Rs1 Rs2 a);
      (0x00004033, Assembler.Xor Rd Rs1 Rs2 a);
      (0x00005033, Assembler.Srl Rd Rs1 Rs2 a);
      (0x40005033, Assembler.Sra Rd Rs1 Rs2 a);
      (0x00006033, Assembler.Or Rd Rs1 Rs2 a);
      (0x00007033, Assembler.And Rd Rs1 Rs2 a);
      (0x00001013, Assembler.Slli Rd Rs1 Shamtw a);
      (0x00005013, Assembler.Srli Rd Rs1 Shamtw a);
      (0x40005013, Assembler.Srai Rd Rs1 Shamtw a) ]
  (switch (Z.land code 0x0000707f)
    [ (0x00000063, Assembler.Beq Rs1 Rs2 Bimmediate a);
      (0x00001063, Assembler.Bne Rs1 Rs2 Bimmediate a);
      (0x00004063, Assembler.Blt Rs1 Rs2 Bimmediate a);
      (0x00005063, Assembler.Bge Rs1 Rs2 Bimmediate a);
      (0x00006063, Assembler.Bltu Rs1 Rs2 Bimmediate a);
      (0x00007063, Assembler.Bgeu Rs1 Rs2 Bimmediate a);
      (0x00000067, Assembler.Jalr Rd Iimmediate Rs1 a);
      (0x00000013, Assembler.Addi Rd Rs1 Iimmediate a);
      (0x00002013, Assembler.Slti Rd Rs1 Iimmediate a);
      (0x00003013, Assembler.Sltiu Rd Rs1 Iimmediate a);
      (0x00004013, Assembler.Xori Rd Rs1 Iimmediate a);
      (0x00006013, Assembler.Ori Rd Rs1 Iimmediate a);
      (0x00007013, Assembler.Andi Rd Rs1 Iimmediate a);
      (0x00000003, Assembler.Lb Rd Iimmediate Rs1 a);
      (0x00001003, Assembler.Lh Rd Iimmediate Rs1 a);
      (0x00002003, Assembler.Lw Rd Iimmediate Rs1 a);
      (0x00004003, Assembler.Lbu Rd Iimmediate Rs1 a);
      (0x00005003, Assembler.Lhu Rd Iimmediate Rs1 a);
      (0x00000023, Assembler.Sb Rs1 Simmediate Rs2 a);
      (0x00001023, Assembler.Sh Rs1 Simmediate Rs2 a);
      (0x00002023, Assembler.Sw Rs1 Simmediate Rs2 a);
      (0x0000000f, Assembler.Fence a) ]
  (switch (Z.land code 0x0000007f)
    [ (0x0000006f, Assembler.Jal Rd Jimmediate a);
      (0x00000037, Assembler.Lui Rd Uimmediate a);
      (0x00000017, Assembler.Auipc Rd Uimmediate a) ]
  (Assembler.Illegal code a)))).

Definition Rv32iToOwl `{Host} (image : list Z) : string + list Z :=
  let a := fold_left (fun a code => Transcode a code) image Assembler.empty in
  Assembler.Code a.

(** ** instruction_handler.h *)

(** The calls a dispatcher can make on an [InstructionHandler]: one
    constructor per method of the concept, with the method's operands. *)
Module Instruction.
Inductive t : Set :=
| Ecall | Ebreak
| Add (r0 r1 r2 : Z) | Sub (r0 r1 r2 : Z) | Sll (r0 r1 r2 : Z) | Slt (r0 r1 r2 : Z)
| Sltu (r0 r1 r2 : Z) | Xor (r0 r1 r2 : Z) | Srl (r0 r1 r2 : Z) | Sra (r0 r1 r2 : Z)
| Or (r0 r1 r2 : Z) | And (r0 r1 r2 : Z)
| Slli (r0 r1 shift : Z) | Srli (r0 r1 shift : Z) | Srai (r0 r1 shift : Z)
| Beq (r0 r1 offs12 : Z) | Bne (r0 r1 offs12 : Z) | Blt (r0 r1 offs12 : Z)
| Bge (r0 r1 offs12 : Z) | Bltu (r0 r1 offs12 : Z) | Bgeu (r0 r1 offs12 : Z)
| Addi (r0 r1 imm12 : Z) | Slti (r0 r1 imm12 : Z) | Sltiu (r0 r1 imm12 : Z)
| Xori (r0 r1 imm12 : Z) | Ori (r0 r1 imm12 : Z) | Andi (r0 r1 imm12 : Z)
| Lb (r0 imm12 r1 : Z) | Lbu (r0 imm12 r1 : Z) | Lh (r0 imm12 r1 : Z)
| Lhu (r0 imm12 r1 : Z) | Lw (r0 imm12 r1 : Z)
| Sb (r0 imm12 r1 : Z) | Sh (r0 imm12 r1 : Z) | Sw (r0 imm12 r1 : Z)
| Fence
| Jalr (r0 offs12 r1 : Z) | Jal (r0 offs20 : Z)
| Lui (r0 uimm20 : Z) | Auipc (r0 uimm20 : Z)
| J (offs20 : Z) | Call (offs20 : Z) | Ret | Li (r0 imm12 : Z) | Mv (r0 r1 : Z)
| Illegal (ins : Z).
End Instruction.

(** The executor as a handler: the method of [OwlCpu] a call selects. *)
Definition execute `{Host} (c : Instruction.t) (cpu : OwlCpu.t) : option OwlCpu.t :=
  match c with
  | Instruction.Ecall => OwlCpu.Ecall cpu
  | Instruction.Ebreak => OwlCpu.Ebreak cpu
  | Instruction.Add r0 r1 r2 => OwlCpu.Add r0 r1 r2 cpu
  | Instruction.Sub r0 r1 r2 => OwlCpu.Sub r0 r1 r2 cpu
  | Instruction.Sll r0 r1 r2 => OwlCpu.Sll r0 r1 r2 cpu
  | Instruction.Slt r0 r1 r2 => OwlCpu.Slt r0 r1 r2 cpu
  | Instruction.Sltu r0 r1 r2 => OwlCpu.Sltu r0 r1 r2 cpu
  | Instruction.Xor r0 r1 r2 => OwlCpu.Xor r0 r1 r2 cpu
  | Instruction.Srl r0 r1 r2 => OwlCpu.Srl r0 r1 r2 cpu
  | Instruction.Sra r0 r1 r2 => OwlCpu.Sra r0 r1 r2 cpu
  | Instruction.Or r0 r1 r2 => OwlCpu.Or r0 r1 r2 cpu
  | Instruction.And r0 r1 r2 => OwlCpu.And r0 r1 r2 cpu
  | Instruction.Slli r0 r1 shift => OwlCpu.Slli r0 r1 shift cpu
  | Instruction.Srli r0 r1 shift => OwlCpu.Srli r0 r1 shift cpu
  | Instruction.Srai r0 r1 shift => OwlCpu.Srai r0 r1 shift cpu
  | Instruction.Beq r0 r1 offs12 => OwlCpu.Beq r0 r1 offs12 cpu
  | Instruction.Bne r0 r1 offs12 => OwlCpu.Bne r0 r1 offs12 cpu
  | Instruction.Blt r0 r1 offs12 => OwlCpu.Blt r0 r1 offs12 cpu
  | Instruction.Bge r0 r1 offs12 => OwlCpu.Bge r0 r1 offs12 cpu
  | Instruction.Bltu r0 r1 offs12 => OwlCpu.Bltu r0 r1 offs12 cpu
  | Instruction.Bgeu r0 r1 offs12 => OwlCpu.Bgeu r0 r1 offs12 cpu
  | Instruction.Addi r0 r1 imm12 => OwlCpu.Addi r0 r1 imm12 cpu
  | Instruction.Slti r0 r1 imm12 => OwlCpu.Slti r0 r1 imm12 cpu
  | Instruction.Sltiu r0 r1 imm12 => OwlCpu.Sltiu r0 r1 imm12 cpu
  | Instruction.Xori r0 r1 imm12 => OwlCpu.Xori r0 r1 imm12 cpu
  | Instruction.Ori r0 r1 imm12 => OwlCpu.Ori r0 r1 imm12 cpu
  | Instruction.Andi r0 r1 imm12 => OwlCpu.Andi r0 r1 imm12 cpu
  | Instruction.Lb r0 imm12 r1 => OwlCpu.Lb r0 imm12 r1 cpu
  | Instruction.Lbu r0 imm12 r1 => OwlCpu.Lbu r0 imm12 r1 cpu
  | Instruction.Lh r0 imm12 r1 => OwlCpu.Lh r0 imm12 r1 cpu
  | Instruction.Lhu r0 imm12 r1 => OwlCpu.Lhu r0 imm12 r1 cpu
  | Instruction.Lw r0 imm12 r1 => OwlCpu.Lw r0 imm12 r1 cpu
  | Instruction.Sb r0 imm12 r1 => OwlCpu.Sb r0 imm12 r1 cpu
  | Instruction.Sh r0 imm12 r1 => OwlCpu.Sh r0 imm12 r1 cpu
  | Instruction.Sw r0 imm12 r1 => OwlCpu.Sw r0 imm12 r1 cpu
  | Instruction.Fence => OwlCpu.Fence cpu
  | Instruction.Jalr r0 offs12 r1 => OwlCpu.Jalr r0 offs12 r1 cpu
  | Instruction.Jal r0 offs20 => OwlCpu.Jal r0 offs20 cpu
  | Instruction.Lui r0 uimm20 => OwlCpu.Lui r0 uimm20 cpu
  | Instruction.Auipc r0 uimm20 => OwlCpu.Auipc r0 uimm20 cpu
  | Instruction.J offs20 => OwlCpu.J offs20 cpu
  | Instruction.Call offs20 => OwlCpu.Call offs20 cpu
  | Instruction.Ret => OwlCpu.Ret cpu
  | Instruction.Li r0 imm12 => OwlCpu.Li r0 imm12 cpu
  | Instruction.Mv r0 r1 => OwlCpu.Mv r0 r1 cpu
  | Instruction.Illegal ins => OwlCpu.Illegal ins cpu
  end.

(** Register 0 reads as zero. *)
Definition x0_zero (cpu : OwlCpu.t) : Prop := OwlCpu.get_x cpu 0 = Some 0.

(** The method [DispatchOwl] calls for a word whose tag is [opcode], with
    the operands it decodes for it. *)
Definition decode_call (opcode : Opcode.t) (ins : Z) : Instruction.t :=
  let r0 := decode.r0 ins in
  let r1 := decode.r1 ins in
  let r2 := decode.r2 ins in
  let shift := decode.shift ins in
  let imm12 := i32 (decode.imm12 ins) in
  let offs12 := i32 (decode.offs12 ins) in
  let offs20 := i32 (decode.offs20 ins) in
  let uimm20 := decode.uimm20 ins in
  match opcode with
  | Opcode.Illegal => Instruction.Illegal ins
  | Opcode.Ecall => Instruction.Ecall
  | Opcode.Ebreak => Instruction.Ebreak
  | Opcode.Add => Instruction.Add r0 r1 r2
  | Opcode.Sub => Instruction.Sub r0 r1 r2
  | Opcode.Sll => Instruction.Sll r0 r1 r2
  | Opcode.Slt => Instruction.Slt r0 r1 r2
  | Opcode.Sltu => Instruction.Sltu r0 r1 r2
  | Opcode.Xor => Instruction.Xor r0 r1 r2
  | Opcode.Srl => Instruction.Srl r0 r1 r2
  | Opcode.Sra => Instruction.Sra r0 r1 r2
  | Opcode.Or => Instruction.Or r0 r1 r2
  | Opcode.And => Instruction.And r0 r1 r2
  | Opcode.Slli => Instruction.Slli r0 r1 shift
  | Opcode.Srli => Instruction.Srli r0 r1 shift
  | Opcode.Srai => Instruction.Srai r0 r1 shift
  | Opcode.Beq => Instruction.Beq r0 r1 offs12
  | Opcode.Bne => Instruction.Bne r0 r1 offs12
  | Opcode.Blt => Instruction.Blt r0 r1 offs12
  | Opcode.Bge => Instruction.Bge r0 r1 offs12
  | Opcode.Bltu => Instruction.Bltu r0 r1 offs12
  | Opcode.Bgeu => Instruction.Bgeu r0 r1 offs12
  | Opcode.Addi => Instruction.Addi r0 r1 imm12
  | Opcode.Slti => Instruction.Slti r0 r1 imm12
  | Opcode.Sltiu => Instruction.Sltiu r0 r1 imm12
  | Opcode.Xori => Instruction.Xori r0 r1 imm12
  | Opcode.Ori => Instruction.Ori r0 r1 imm12
  | Opcode.Andi => Instruction.Andi r0 r1 imm12
  | Opcode.Lb => Instruction.Lb r0 imm12 r1
  | Opcode.Lbu => Instruction.Lbu r0 imm12 r1
  | Opcode.Lh => Instruction.Lh r0 imm12 r1
  | Opcode.Lhu => Instruction.Lhu r0 imm12 r1
  | Opcode.Lw => Instruction.Lw r0 imm12 r1
  | Opcode.Sb => Instruction.Sb r0 imm12 r1
  | Opcode.Sh => Instruction.Sh r0 imm12 r1
  | Opcode.Sw => Instruction.Sw r0 imm12 r1
  | Opcode.Fence => Instruction.Fence
  | Opcode.Jalr => Instruction.Jalr r0 offs12 r1
  | Opcode.Jal => Instruction.Jal r0 offs20
  | Opcode.Lui => Instruction.Lui r0 uimm20
  | Opcode.Auipc => Instruction.Auipc r0 uimm20
  | Opcode.J => Instruction.J offs20
  | Opcode.Call => Instruction.Call offs20
  | Opcode.Ret => Instruction.Ret
  | Opcode.Li => Instruction.Li r0 imm12
  | Opcode.Mv => Instruction.Mv r0 r1
  end.

(** The Owl word the VM fetches for an RV32I word put through [Transcode]:
    the word [Emit] pushed, read back by [Fetch] through [AsLE]. *)
Definition Transcoded `{Host} (code : Z) : Z :=
  AsLE32 (default 0 (last (Assembler.code_ (Transcode Assembler.empty code)))).

(** ** main.cpp: the run loops *)

(** [while (!cpu.Done()) { ins = cpu.Fetch(); Dispatch(cpu, ins); }], for
    at most [fuel] iterations; [None] also when the fuel runs out. *)
Fixpoint run_loop `{Host} (fuel : nat) (dispatch : OwlCpu.t -> Z -> option OwlCpu.t)
    (cpu : OwlCpu.t) : option OwlCpu.t :=
  match fuel with
  | O => None
  | S fuel =>
      if OwlCpu.Done cpu then Some cpu
      else
        fetched ← OwlCpu.Fetch cpu;
        cpu ← dispatch fetched.1 fetched.2;
        run_loop fuel dispatch cpu
  end.

(** A word image as the bytes the VM is constructed on, padded with zero
    bytes to [size]. *)
Definition image_bytes `{Host} (image : list Z) (size : nat) : Memory :=
  let bs := flat_map (object_bytes 4) image in
  bs ++ replicate (size - length bs) Byte.x00.

Definition Run `{Host} (fuel : nat) (image : Memory) : option OwlCpu.t :=
  run_loop fuel DispatchOwl (OwlCpu.init image).

Definition RunRv32i `{Host} (fuel : nat) (image : Memory) : option OwlCpu.t :=
  run_loop fuel DispatchRv32i (OwlCpu.init image).

(** The words of the RISC-V image of [LoadRv32iImage] (the Fibonacci
    program), as a little-endian host reads them. *)
Definition LoadRv32iImage : list Z :=
  [ 0x00000513; 0x00000593; 0x00000613; 0x0f4000ef;
    0x00000513; 0x00000893; 0x00000073 ]
  ++ replicate 57 0 ++
  [ 0x00000613; 0x00200693; 0x00100713; 0x03000793;
    0x00060593; 0x02d66263; 0x00000513; 0x00100593;
    0x00060813; 0x00058893; 0xfff80813; 0x00b505b3;
    0x00088513; 0xff0768e3; 0x00100893; 0x00060513;
    0x00000073; 0x00160613; 0xfcf614e3; 0x00000513;
    0x00008067 ].

(** ** The assembler as a handler *)

(** The method of [Assembler] a call selects ([Transcode] makes such
    calls); the label overloads are not part of the handler interface. *)
Definition assemble `{Host} (c : Instruction.t) (a : Assembler.t) : Assembler.t :=
  match c with
  | Instruction.Ecall => Assembler.Ecall a
  | Instruction.Ebreak => Assembler.Ebreak a
  | Instruction.Add r0 r1 r2 => Assembler.Add r0 r1 r2 a
  | Instruction.Sub r0 r1 r2 => Assembler.Sub r0 r1 r2 a
  | Instruction.Sll r0 r1 r2 => Assembler.Sll r0 r1 r2 a
  | Instruction.Slt r0 r1 r2 => Assembler.Slt r0 r1 r2 a
  | Instruction.Sltu r0 r1 r2 => Assembler.Sltu r0 r1 r2 a
  | Instruction.Xor r0 r1 r2 => Assembler.Xor r0 r1 r2 a
  | Instruction.Srl r0 r1 r2 => Assembler.Srl r0 r1 r2 a
  | Instruction.Sra r0 r1 r2 => Assembler.Sra r0 r1 r2 a
  | Instruction.Or r0 r1 r2 => Assembler.Or r0 r1 r2 a
  | Instruction.And r0 r1 r2 => Assembler.And r0 r1 r2 a
  | Instruction.Slli r0 r1 shift => Assembler.Slli r0 r1 shift a
  | Instruction.Srli r0 r1 shift => Assembler.Srli r0 r1 shift a
  | Instruction.Srai r0 r1 shift => Assembler.Srai r0 r1 shift a
  | Instruction.Beq r0 r1 offs12 => Assembler.Beq r0 r1 offs12 a
  | Instruction.Bne r0 r1 offs12 => Assembler.Bne r0 r1 offs12 a
  | Instruction.Blt r0 r1 offs12 => Assembler.Blt r0 r1 offs12 a
  | Instruction.Bge r0 r1 offs12 => Assembler.Bge r0 r1 offs12 a
  | Instruction.Bltu r0 r1 offs12 => Assembler.Bltu r0 r1 offs12 a
  | Instruction.Bgeu r0 r1 offs12 => Assembler.Bgeu r0 r1 offs12 a
  | Instruction.Addi r0 r1 imm12 => Assembler.Addi r0 r1 imm12 a
  | Instruction.Slti r0 r1 imm12 => Assembler.Slti r0 r1 imm12 a
  | Instruction.Sltiu r0 r1 imm12 => Assembler.Sltiu r0 r1 imm12 a
  | Instruction.Xori r0 r1 imm12 => Assembler.Xori r0 r1 imm12 a
  | Instruction.Ori r0 r1 imm12 => Assembler.Ori r0 r1 imm12 a
  | Instruction.Andi r0 r1 imm12 => Assembler.Andi r0 r1 imm12 a
  | Instruction.Lb r0 imm12 r1 => Assembler.Lb r0 imm12 r1 a
  | Instruction.Lbu r0 imm12 r1 => Assembler.Lbu r0 imm12 r1 a
  | Instruction.Lh r0 imm12 r1 => Assembler.Lh r0 imm12 r1 a
  | Instruction.Lhu r0 imm12 r1 => Assembler.Lhu r0 imm12 r1 a
  | Instruction.Lw r0 imm12 r1 => Assembler.Lw r0 imm12 r1 a
  | Instruction.Sb r0 imm12 r1 => Assembler.Sb r0 imm12 r1 a
  | Instruction.Sh r0 imm12 r1 => Assembler.Sh r0 imm12 r1 a
  | Instruction.Sw r0 imm12 r1 => Assembler.Sw r0 imm12 r1 a
  | Instruction.Fence => Assembler.Fence a
  | Instruction.Jalr r0 offs12 r1 => Assembler.Jalr r0 offs12 r1 a
  | Instruction.Jal r0 offs20 => Assembler.Jal r0 offs20 a
  | Instruction.Lui r0 uimm20 => Assembler.Lui r0 uimm20 a
  | Instruction.Auipc r0 uimm20 => Assembler.Auipc r0 uimm20 a
  | Instruction.J offs20 => Assembler.J offs20 a
  | Instruction.Call offs20 => Assembler.Call offs20 a
  | Instruction.Ret => Assembler.Ret a
  | Instruction.Li r0 imm12 => Assembler.Li r0 imm12 a
  | Instruction.Mv r0 r1 => Assembler.Mv r0 r1 a
  | Instruction.Illegal ins => Assembler.Illegal ins a
  end.

(** The word of a one-word assembly as [Fetch] hands it to a dispatcher:
    the last word of the buffer, read through [AsLE]. *)
Definition last_word `{Host} (a : Assembler.t) : Z :=
  AsLE32 (default 0 (last (Assembler.code_ a))).

(** Operands that fit the fields of the encoding: registers and shift
    amounts in 5 bits, imm12 in 12 signed bits, offs12 and offs20 even
    and in 13 and 21 signed bits, uimm20 in 20 bits. *)
Definition fits_reg (r : Z) : bool := (0 <=? r) && (r <? 32).
Definition fits_imm12 (v : Z) : bool := (-2048 <=? v) && (v <=? 2047).
Definition fits_offs12 (v : Z) : bool :=
  (-4096 <=? v) && (v <=? 4094) && (v mod 2 =? 0).
Definition fits_offs20 (v : Z) : bool :=
  (-1048576 <=? v) && (v <=? 1048574) && (v mod 2 =? 0).
Definition fits_uimm20 (v : Z) : bool := (0 <=? v) && (v <? 2 ^ 20).

Definition operands_fit (c : Instruction.t) : bool :=
  match c with
  | Instruction.Ecall | Instruction.Ebreak | Instruction.Fence | Instruction.Ret
  | Instruction.Illegal _ => true
  | Instruction.Add r0 r1 r2 | Instruction.Sub r0 r1 r2 | Instruction.Sll r0 r1 r2
  | Instruction.Slt r0 r1 r2 | Instruction.Sltu r0 r1 r2 | Instruction.Xor r0 r1 r2
  | Instruction.Srl r0 r1 r2 | Instruction.Sra r0 r1 r2 | Instruction.Or r0 r1 r2
  | Instruction.And r0 r1 r2
  | Instruction.Slli r0 r1 r2 | Instruction.Srli r0 r1 r2 | Instruction.Srai r0 r1 r2 =>
      fits_reg r0 && fits_reg r1 && fits_reg r2
  | Instruction.Beq r0 r1 offs12 | Instruction.Bne r0 r1 offs12
  | Instruction.Blt r0 r1 offs12 | Instruction.Bge r0 r1 offs12
  | Instruction.Bltu r0 r1 offs12 | Instruction.Bgeu r0 r1 offs12
  | Instruction.Jalr r0 offs12 r1 =>
      fits_reg r0 && fits_reg r1 && fits_offs12 offs12
  | Instruction.Addi r0 r1 imm12 | Instruction.Slti r0 r1 imm12
  | Instruction.Sltiu r0 r1 imm12 | Instruction.Xori r0 r1 imm12
  | Instruction.Ori r0 r1 imm12 | Instruction.Andi r0 r1 imm12
  | Instruction.Lb r0 imm12 r1 | Instruction.Lbu r0 imm12 r1 | Instruction.Lh r0 imm12 r1
  | Instruction.Lhu r0 imm12 r1 | Instruction.Lw r0 imm12 r1
  | Instruction.Sb r0 imm12 r1 | Instruction.Sh r0 imm12 r1 | Instruction.Sw r0 imm12 r1 =>
      fits_reg r0 && fits_reg r1 && fits_imm12 imm12
  | Instruction.Jal r0 offs20 => fits_reg r0 && fits_offs20 offs20
  | Instruction.Lui r0 uimm20 | Instruction.Auipc r0 uimm20 =>
      fits_reg r0 && fits_uimm20 uimm20
  | Instruction.J offs20 | Instruction.Call offs20 => fits_offs20 offs20
  | Instruction.Li r0 imm12 => fits_reg r0 && fits_imm12 imm12
  | Instruction.Mv r0 r1 => fits_reg r0 && fits_reg r1
  end.

(** The call the Owl dispatcher makes for the word the assembler emitted
    for a call: the same call, but that the upper immediate of [Lui] and
    [Auipc] arrives moved into bits 31:12 and that [Illegal] receives the
    emitted word, which is 0. *)
Definition as_dispatched (c : Instruction.t) : Instruction.t :=
  match c with
  | Instruction.Lui r0 uimm20 => Instruction.Lui r0 (uimm20 * 4096)
  | Instruction.Auipc r0 uimm20 => Instruction.Auipc r0 (uimm20 * 4096)
  | Instruction.Illegal _ => Instruction.Illegal 0
  | _ => c
  end.

(** [a'] is [a] with the one word of [e] appended, [e] being what the
    same method call gives on the empty assembler. *)
Definition appends_word (a a' e : Assembler.t) : Prop :=
  Assembler.code_ a' = Assembler.code_ a ++ Assembler.code_ e /\
  length (Assembler.code_ e) = 1%nat /\
  Assembler.current_ a' = u32 (Assembler.current_ a + 4) /\
  Assembler.labels_ a' = Assembler.labels_ a /\
  Assembler.fixups_ a' = Assembler.fixups_ a.

(** ** The RV32I decision list *)

(** The call on the handler interface that the decision list of
    [DispatchRv32i] and of [Transcode] selects for a word. *)
Definition rv_call (code : Z) : Instruction.t :=
  let Rd := DecodeRv32.Rd code in
  let Rs1 := DecodeRv32.Rs1 code in
  let Rs2 := DecodeRv32.Rs2 code in
  let Shamtw := DecodeRv32.Shamtw code in
  let Bimmediate := i32 (DecodeRv32.Bimmediate code) in
  let Iimmediate := i32 (DecodeRv32.Iimmediate code) in
  let Simmediate := i32 (DecodeRv32.Simmediate code) in
  let Jimmediate := i32 (DecodeRv32.Jimmediate code) in
  let Uimmediate := DecodeRv32.Uimmediate code in
  switch code
    [ (0x00000073, Instruction.Ecall);
      (0x00100073, Instruction.Ebreak) ]
  (switch (Z.land code 0xfe00707f)
    [ (0x00000033, Instruction.Add Rd Rs1 Rs2);
      (0x40000033, Instruction.Sub Rd Rs1 Rs2);
      (0x00001033, Instruction.Sll Rd Rs1 Rs2);
      (0x00002033, Instruction.Slt Rd Rs1 Rs2);
      (0x00003033, Instruction.Sltu Rd Rs1 Rs2);
      (0x00004033, Instruction.Xor Rd Rs1 Rs2);
      (0x00005033, Instruction.Srl Rd Rs1 Rs2);
      (0x40005033, Instruction.Sra Rd Rs1 Rs2);
      (0x00006033, Instruction.Or Rd Rs1 Rs2);
      (0x00007033, Instruction.And Rd Rs1 Rs2);
      (0x00001013, Instruction.Slli Rd Rs1 Shamtw);
      (0x00005013, Instruction.Srli Rd Rs1 Shamtw);
      (0x40005013, Instruction.Srai Rd Rs1 Shamtw) ]
  (switch (Z.land code 0x0000707f)
    [ (0x00000063, Instruction.Beq Rs1 Rs2 Bimmediate);
      (0x00001063, Instruction.Bne Rs1 Rs2 Bimmediate);
      (0x00004063, Instruction.Blt Rs1 Rs2 Bimmediate);
      (0x00005063, Instruction.Bge Rs1 Rs2 Bimmediate);
      (0x00006063, Instruction.Bltu Rs1 Rs2 Bimmediate);
      (0x00007063, Instruction.Bgeu Rs1 Rs2 Bimmediate);
      (0x00000067, Instruction.Jalr Rd Iimmediate Rs1);
      (0x00000013, Instruction.Addi Rd Rs1 Iimmediate);
      (0x00002013, Instruction.Slti Rd Rs1 Iimmediate);
      (0x00003013, Instruction.Sltiu Rd Rs1 Iimmediate);
      (0x00004013, Instruction.Xori Rd Rs1 Iimmediate);
      (0x00006013, Instruction.Ori Rd Rs1 Iimmediate);
      (0x00007013, Instruction.Andi Rd Rs1 Iimmediate);
      (0x00000003, Instruction.Lb Rd Iimmediate Rs1);
      (0x00001003, Instruction.Lh Rd Iimmediate Rs1);
      (0x00002003, Instruction.Lw Rd Iimmediate Rs1);
      (0x00004003, Instruction.Lbu Rd Iimmediate Rs1);
      (0x00005003, Instruction.Lhu Rd Iimmediate Rs1);
      (0x00000023, Instruction.Sb Rs1 Simmediate Rs2);
      (0x00001023, Instruction.Sh Rs1 Simmediate Rs2);
      (0x00002023, Instruction.Sw Rs1 Simmediate Rs2);
      (0x0000000f, Instruction.Fence) ]
  (switch (Z.land code 0x0000007f)
    [ (0x0000006f, Instruction.Jal Rd Jimmediate);
      (0x00000037, Instruction.Lui Rd Uimmediate);
      (0x00000017, Instruction.Auipc Rd Uimmediate) ]
  (Instruction.Illegal code)))).

(** * Properties *)

(** ** Fixed-width integers *)

Lemma u32_range (z : Z) : 0 <= u32 z < 2 ^ 32.
Proof. unfold u32. apply Z.mod_pos_bound. lia. Qed.

Lemma i32_range (z : Z) : - 2 ^ 31 <= i32 z < 2 ^ 31.
Proof. unfold i32. pose proof (Z.mod_pos_bound (z + 2 ^ 31) (2 ^ 32)). lia. Qed.

Lemma u32_small (z : Z) : 0 <= z < 2 ^ 32 -> u32 z = z.
Proof. intros Hz. unfold u32. apply Z.mod_small. exact Hz. Qed.

Lemma i32_small (z : Z) : - 2 ^ 31 <= z < 2 ^ 31 -> i32 z = z.
Proof. intros Hz. unfold i32. rewrite Z.mod_small; lia. Qed.

Lemma i32_u32 (z : Z) : i32 (u32 z) = i32 z.
Proof.
  unfold i32, u32. f_equal.
  rewrite Zplus_mod_idemp_l. reflexivity.
Qed.

Lemma u32_land_ones (z : Z) : u32 z = Z.land z (Z.ones 32).
Proof. unfold u32. rewrite Z.land_ones by lia. reflexivity. Qed.

Lemma land_ones_small (z n : Z) : 0 <= n -> 0 <= z < 2 ^ n -> Z.land z (Z.ones n) = z.
Proof. intros Hn Hz. rewrite Z.land_ones by lia. apply Z.mod_small. exact Hz. Qed.

(** The bits of the signed reading of a 32-bit word: bit 31 is repeated
    upwards. *)
Lemma i32_split (w : Z) :
  i32 w = Z.land w (Z.ones 31) - 2 ^ 31 * (if Z.testbit w 31 then 1 else 0).
Proof.
  unfold i32. rewrite Z.land_ones by lia.
  change (if Z.testbit w 31 then 1 else 0) with (Z.b2z (Z.testbit w 31)).
  rewrite (Z.testbit_spec' w 31) by lia.
  pose proof (Z.mod_pos_bound (w / 2 ^ 31) 2 ltac:(lia)) as Hb.
  pose proof (Z.div_mod w (2 ^ 31) ltac:(lia)) as Hw.
  pose proof (Z.div_mod (w / 2 ^ 31) 2 ltac:(lia)) as Hq.
  pose proof (Z.mod_pos_bound w (2 ^ 31) ltac:(lia)) as Hr.
  set (r := w mod 2 ^ 31) in *. set (b := (w / 2 ^ 31) mod 2) in *.
  set (q := w / 2 ^ 31 / 2) in *.
  assert (E : w + 2 ^ 31 = 2 ^ 32 * q + (2 ^ 31 * (b + 1) + r)) by lia.
  rewrite E.
  destruct (Z.eqb_spec b 1) as [Hb1 | Hb1].
  - replace (2 ^ 32 * q + (2 ^ 31 * (b + 1) + r)) with (r + (q + 1) * 2 ^ 32) by lia.
    rewrite Z_mod_plus_full, Z.mod_small by lia. lia.
  - assert (b = 0) as Hb0 by lia. rewrite Hb0.
    replace (2 ^ 32 * q + (2 ^ 31 * (0 + 1) + r)) with (2 ^ 31 + r + q * 2 ^ 32) by lia.
    rewrite Z_mod_plus_full, Z.mod_small by lia. cbn. lia.
Qed.

Lemma i32_testbit (w i : Z) :
  Z.testbit (i32 w) i =
  if i <? 0 then false else if i <? 31 then Z.testbit w i else Z.testbit w 31.
Proof.
  destruct (Z.ltb_spec i 0) as [Hn | Hn]; [apply Z.testbit_neg_r; exact Hn|].
  rewrite i32_split. destruct (Z.testbit w 31) eqn:Hb.
  - replace (Z.land w (Z.ones 31) - 2 ^ 31 * 1)
      with (Z.lor (Z.land w (Z.ones 31)) (Z.shiftl (-1) 31)).
    + rewrite Z.lor_spec, Z.land_spec, Z.shiftl_spec, Z.testbit_ones_nonneg by lia.
      destruct (Z.ltb_spec i 31).
      * rewrite (Z.testbit_neg_r _ (i - 31)) by lia. btauto.
      * rewrite Z.bits_m1 by lia. btauto.
    + rewrite Z.or_to_plus.
      * rewrite Z.shiftl_mul_pow2 by lia. lia.
      * apply Z.bits_inj'. intros j Hj.
        rewrite Z.land_spec, Z.land_spec, Z.shiftl_spec, Z.testbit_ones_nonneg, Z.bits_0 by lia.
        destruct (Z.ltb_spec j 31).
        -- rewrite (Z.testbit_neg_r _ (j - 31)) by lia. btauto.
        -- btauto.
  - rewrite Z.mul_0_r, Z.sub_0_r, Z.land_spec, Z.testbit_ones_nonneg by lia.
    destruct (Z.ltb_spec i 31); btauto.
Qed.

(** ** Memory accessors *)

Lemma in_bounds_spec (m : Memory) (addr : Z) (n : nat) :
  in_bounds m addr n = true <-> 0 <= addr /\ (Z.to_nat addr + n <= length m)%nat.
Proof.
  unfold in_bounds. rewrite andb_true_iff, Z.leb_le, Z.leb_le. lia.
Qed.

Lemma copy_to_length (m m' : Memory) (addr : Z) (bs : list byte) :
  copy_to m addr bs = Some m' -> length m' = length m.
Proof.
  unfold copy_to. destruct (in_bounds m addr (length bs)) eqn:Hb; [|discriminate].
  apply in_bounds_spec in Hb. intros [= <-].
  rewrite !length_app, length_take, length_drop. lia.
Qed.

Lemma copy_from_copy_to (m m' : Memory) (addr : Z) (bs : list byte) :
  copy_to m addr bs = Some m' -> copy_from m' addr (length bs) = Some bs.
Proof.
  intros Hw. pose proof (copy_to_length _ _ _ _ Hw) as Hlen.
  unfold copy_to in Hw. unfold copy_from.
  destruct (in_bounds m addr (length bs)) eqn:Hb; [|discriminate].
  assert (Hb' : in_bounds m' addr (length bs) = true).
  { apply in_bounds_spec. apply in_bounds_spec in Hb. lia. }
  rewrite Hb'. apply in_bounds_spec in Hb. injection Hw as <-. f_equal.
  rewrite drop_app_length' by (rewrite length_take; lia).
  apply take_app_length.
Qed.

Lemma copy_to_defined (m : Memory) (addr : Z) (bs : list byte) :
  0 <= addr -> addr + Z.of_nat (length bs) <= Z.of_nat (length m) ->
  exists m', copy_to m addr bs = Some m'.
Proof.
  intros H0 H1. unfold copy_to.
  assert (Hb : in_bounds m addr (length bs) = true) by (apply in_bounds_spec; lia).
  rewrite Hb. eauto.
Qed.

Lemma object_bytes_length `{Host} (n : nat) (v : Z) : length (object_bytes n v) = n.
Proof.
  unfold object_bytes. destruct native; rewrite ?length_rev; apply length_le_split.
Qed.


(** Bit-level equalities: the bit specifications of coqutil's bit blaster,
    the comparisons settled one at a time (by [lia] where the context
    decides them), and the bits at negative positions, which are clear. *)
Ltac clear_negative_bits :=
  repeat match goal with
         | |- context [Z.testbit ?a ?n] => rewrite (Z.testbit_neg_r a n) by lia
         end.

Ltac decide_ltb :=
  repeat match goal with
         | |- context [?a <? ?b] =>
             first [ rewrite (proj2 (Z.ltb_lt a b)) by lia
                   | rewrite (proj2 (Z.ltb_ge a b)) by lia
                   | destruct (Z.ltb_spec a b) ]
         end.

Ltac bits :=
  apply Z.bits_inj'; intros ?i ?Hi;
  repeat (progress (Z.rewrite_bitwise; rewrite ?i32_testbit; decide_ltb; cbv iota));
  clear_negative_bits;
  Z.discover_equal_testbit_indices; try btauto.

Lemma bswap32_unfold (w : Z) :
  bswap32 w =
  Z.lor (Z.land (Z.lor (Z.shiftr (Z.land w (Z.lor (Z.ones 8) (Z.shiftl (Z.ones 8) 16))) 8)
                       (Z.shiftl (Z.land w (Z.lor (Z.ones 8) (Z.shiftl (Z.ones 8) 16))) 24))
                (Z.ones 32))
        (Z.land (Z.land (Z.lor (Z.shiftl w 8) (Z.shiftr w 24)) (Z.ones 32))
                (Z.lor (Z.ones 8) (Z.shiftl (Z.ones 8) 16))).
Proof.
  unfold bswap32, rotr, rotl.
  change (8 mod 32) with 8. change (32 - 8) with 24.
  rewrite <- !Z.land_ones by lia. reflexivity.
Qed.

Lemma bswap32_byte (w k : Z) :
  0 <= w < 2 ^ 32 ->
  k = 0 \/ k = 8 \/ k = 16 \/ k = 24 ->
  Z.land (Z.shiftr (bswap32 w) k) (Z.ones 8) = Z.land (Z.shiftr w (24 - k)) (Z.ones 8).
Proof.
  intros Hw Hk. rewrite bswap32_unfold.
  rewrite <- (land_ones_small w 32) by lia. clear Hw.
  destruct Hk as [-> | [-> | [-> | ->]]]; [change (24 - 0) with 24 | change (24 - 8) with 16 | change (24 - 16) with 8 | change (24 - 24) with 0]; rewrite ?Z.shiftr_0_r; bits.
Qed.

Lemma bswap32_involutive (w : Z) : 0 <= w < 2 ^ 32 -> bswap32 (bswap32 w) = w.
Proof.
  intros Hw. rewrite (bswap32_unfold (bswap32 w)), (bswap32_unfold w).
  rewrite <- (land_ones_small w 32) by lia. clear Hw.
  bits.
Qed.

Lemma AsLE32_involutive `{Host} (w : Z) : 0 <= w < 2 ^ 32 -> AsLE32 (AsLE32 w) = w.
Proof.
  intros Hw. unfold AsLE32. destruct native; [reflexivity|].
  apply (bswap32_involutive w Hw).
Qed.

Lemma byte_of_Z_eq (a b : Z) :
  Z.land a (Z.ones 8) = Z.land b (Z.ones 8) -> byte.of_Z a = byte.of_Z b.
Proof.
  intros Hab. apply byte.unsigned_inj.
  rewrite !byte.unsigned_of_Z. unfold byte.wrap.
  rewrite !Z.land_ones in Hab by lia. exact Hab.
Qed.

(** Whatever the host, the four bytes that [Write32] copies are the
    little-endian bytes of the word. *)
Lemma object_bytes_AsLE32 `{Host} (w : Z) :
  0 <= w < 2 ^ 32 -> object_bytes 4 (AsLE32 w) = le_split 4 w.
Proof.
  intros Hw. unfold object_bytes, AsLE32. destruct native; [reflexivity|].
  fold (bswap32 w). cbv [le_split rev app].
  rewrite !Z.shiftr_shiftr by lia.
  change (8 + (8 + 8)) with 24. change (8 + 8) with 16.
  pose proof (bswap32_byte w 0 Hw) as B0. pose proof (bswap32_byte w 8 Hw) as B8.
  pose proof (bswap32_byte w 16 Hw) as B16. pose proof (bswap32_byte w 24 Hw) as B24.
  change (24 - 0) with 24 in B0. change (24 - 8) with 16 in B8.
  change (24 - 16) with 8 in B16. change (24 - 24) with 0 in B24.
  rewrite Z.shiftr_0_r in B0, B24.
  rewrite (byte_of_Z_eq _ _ (B24 ltac:(lia))), (byte_of_Z_eq _ _ (B16 ltac:(lia))),
    (byte_of_Z_eq _ _ (B8 ltac:(lia))), (byte_of_Z_eq _ _ (B0 ltac:(lia))).
  reflexivity.
Qed.

Lemma object_value_AsLE32 `{Host} (bs : list byte) :
  length bs = 4%nat -> AsLE32 (object_value bs) = le_combine bs.
Proof.
  intros Hlen.
  destruct bs as [|b0 [|b1 [|b2 [|b3 [|]]]]]; try discriminate.
  unfold AsLE32, object_value. destruct native; [reflexivity|].
  fold (bswap32 (le_combine (rev [b0; b1; b2; b3]))).
  rewrite bswap32_unfold. cbv [rev app le_combine].
  pose proof (byte.unsigned_range b0). pose proof (byte.unsigned_range b1).
  pose proof (byte.unsigned_range b2). pose proof (byte.unsigned_range b3).
  rewrite <- (land_ones_small (byte.unsigned b0) 8) by lia.
  rewrite <- (land_ones_small (byte.unsigned b1) 8) by lia.
  rewrite <- (land_ones_small (byte.unsigned b2) 8) by lia.
  rewrite <- (land_ones_small (byte.unsigned b3) 8) by lia.
  bits.
Qed.

Lemma Read8_Write8 (m m' : Memory) (a : Z) (b : byte) :
  Write8 m a b = Some m' -> Read8 m' a = Some b.
Proof.
  unfold Write8, Read8. destruct (in_bounds m a 1) eqn:Hb; [|discriminate].
  intros [= <-].
  assert (Hb' : in_bounds (<[Z.to_nat a := b]> m) a 1 = true).
  { apply in_bounds_spec. apply in_bounds_spec in Hb. rewrite length_insert. exact Hb. }
  rewrite Hb'. apply list_lookup_insert_eq.
  apply in_bounds_spec in Hb. lia.
Qed.

Lemma Write32_bytes `{Host} (m m' : Memory) (a v : Z) :
  0 <= v < 2 ^ 32 ->
  Write32 m a v = Some m' -> copy_from m' a 4 = Some (le_split 4 v).
Proof.
  intros Hv Hw. unfold Write32 in Hw.
  apply copy_from_copy_to in Hw.
  rewrite object_bytes_length in Hw. rewrite Hw.
  rewrite object_bytes_AsLE32 by exact Hv. reflexivity.
Qed.

Lemma Read32_Write32 `{Host} (m m' : Memory) (a v : Z) :
  0 <= v < 2 ^ 32 ->
  Write32 m a v = Some m' -> Read32 m' a = Some v.
Proof.
  intros Hv Hw. unfold Read32.
  rewrite (Write32_bytes m m' a v Hv Hw). cbn [mbind option_bind].
  rewrite object_value_AsLE32 by apply length_le_split.
  rewrite le_combine_split. f_equal. apply Z.mod_small.
  change (2 ^ (Z.of_nat 4 * 8)) with (2 ^ 32). exact Hv.
Qed.

Lemma Write16_bytes_little `{Host} (m m' : Memory) (a v : Z) :
  native = little ->
  Write16 m a v = Some m' -> copy_from m' a 2 = Some (le_split 2 v).
Proof.
  intros Hn Hw. unfold Write16 in Hw.
  apply copy_from_copy_to in Hw.
  rewrite object_bytes_length in Hw. rewrite Hw.
  unfold object_bytes, AsLE16. rewrite Hn. reflexivity.
Qed.

Lemma Read16_Write16_little `{Host} (m m' : Memory) (a v : Z) :
  native = little -> 0 <= v < 2 ^ 16 ->
  Write16 m a v = Some m' -> Read16 m' a = Some v.
Proof.
  intros Hn Hv Hw. unfold Read16.
  rewrite (Write16_bytes_little m m' a v Hn Hw). cbn [mbind option_bind].
  unfold AsLE16, object_value. rewrite Hn.
  rewrite le_combine_split. f_equal. apply Z.mod_small.
  change (2 ^ (Z.of_nat 2 * 8)) with (2 ^ 16). exact Hv.
Qed.

(** The accessors on every host: a byte and a word read back what was
    written at any in-range address, aligned or not, and the word lies in
    the buffer low byte first; so does a half word on a little-endian
    host. *)
Theorem read_after_write `{Host} (m : Memory) (a : Z) :
  (forall b m', Write8 m a b = Some m' -> Read8 m' a = Some b) /\
  (forall v m', 0 <= v < 2 ^ 32 -> Write32 m a v = Some m' ->
     Read32 m' a = Some v /\ copy_from m' a 4 = Some (le_split 4 v)) /\
  (native = little -> forall v m', 0 <= v < 2 ^ 16 -> Write16 m a v = Some m' ->
     Read16 m' a = Some v /\ copy_from m' a 2 = Some (le_split 2 v)).
Proof.
  split; [|split].
  - intros b m'. apply Read8_Write8.
  - intros v m' Hv Hw. split; [eapply Read32_Write32 | eapply Write32_bytes]; eauto.
  - intros Hn v m' Hv Hw.
    split; [eapply Read16_Write16_little | eapply Write16_bytes_little]; eauto.
Qed.

Lemma writes_defined `{Host} (m : Memory) (a : Z) (b : byte) (v : Z) :
  0 <= a ->
  (a + 1 <= Z.of_nat (length m) -> exists m', Write8 m a b = Some m') /\
  (a + 2 <= Z.of_nat (length m) -> exists m', Write16 m a v = Some m') /\
  (a + 4 <= Z.of_nat (length m) -> exists m', Write32 m a v = Some m').
Proof.
  intros Ha. repeat split; intros Hb.
  - unfold Write8.
    assert (Hi : in_bounds m a 1 = true) by (apply in_bounds_spec; lia).
    rewrite Hi. eauto.
  - apply copy_to_defined; rewrite ?object_bytes_length; lia.
  - apply copy_to_defined; rewrite ?object_bytes_length; lia.
Qed.

(** C9 (the 16-bit accessors on a big-endian host).  [Write16] of 0x1234 at
    address 0 stores the bytes 00 12 instead of 34 12, and [Read16] then
    returns 0: on that host [AsLE(uint16_t)] rotates the low byte in 32
    bits, so the return conversion to [uint16_t] drops it. *)
Theorem Write16_Read16_big_endian_host :
  let host : Host := big in
  let m := [Byte.x00; Byte.x00; Byte.x00; Byte.x00] in
  AsLE16 0x1234 = 0x0012 /\
  Write16 m 0 0x1234 = Some [Byte.x00; Byte.x12; Byte.x00; Byte.x00] /\
  (m' ← Write16 m 0 0x1234; Read16 m' 0) = Some 0 /\
  (m' ← Write16 m 0 0x1234; Read16 m' 0) <> Some 0x1234.
Proof.
  cbv zeta. repeat split; try (vm_compute; reflexivity).
  vm_compute. discriminate.
Qed.

(** ** Field codecs *)

Lemma opc_range (o : Opcode.t) : 0 <= encode.opc o < 128.
Proof. destruct o; cbn; lia. Qed.

Lemma opc_land (o : Opcode.t) : Z.land (encode.opc o) 0x7f = encode.opc o.
Proof. destruct o; reflexivity. Qed.

(** The masks of the source, as runs of ones. *)
Ltac masks :=
  change 0x7f with (Z.ones 7) in *;
  change 0x1f with (Z.ones 5) in *;
  change 0xfff00000 with (Z.shiftl (Z.ones 12) 20) in *;
  change 0xfffff000 with (Z.shiftl (Z.ones 20) 12) in *.

Ltac fields :=
  unfold decode.r0, decode.r1, decode.r2, decode.shift, decode.uimm20,
    decode.imm12, decode.offs12, decode.offs20,
    encode.r0, encode.r1, encode.r2, encode.shift,
    encode.imm12, encode.offs12, encode.offs20, encode.uimm20,
    DecodeRv32.Rd, DecodeRv32.Rs1, DecodeRv32.Rs2, DecodeRv32.Shamtw,
    DecodeRv32.Iimmediate, DecodeRv32.Simmediate, DecodeRv32.Bimmediate,
    DecodeRv32.Jimmediate, DecodeRv32.Uimmediate;
  cbv zeta; rewrite ?u32_land_ones; masks.

(** The three layouts the assembler composes, over arbitrary operands:
    opcode and three registers; opcode, two registers and the upper twelve
    bits; opcode, one register and the upper twenty bits. *)
Lemma layout_rrr (p a b c : Z) :
  let w := Z.land p 0x7f .| encode.r0 a .| encode.r1 b .| encode.r2 c in
  Z.land w 0x7f = Z.land p 0x7f /\ decode.r0 w = Z.land a 0x1f /\
  decode.r1 w = Z.land b 0x1f /\ decode.r2 w = Z.land c 0x1f.
Proof. cbv zeta. repeat split; fields; bits. Qed.

Lemma layout_rri (p a b X : Z) :
  let w := Z.land p 0x7f .| encode.r0 a .| encode.r1 b .| Z.land X 0xfff00000 in
  Z.land w 0x7f = Z.land p 0x7f /\ decode.r0 w = Z.land a 0x1f /\
  decode.r1 w = Z.land b 0x1f /\ Z.land w 0xfff00000 = Z.land X 0xfff00000.
Proof. cbv zeta. repeat split; fields; bits. Qed.

Lemma layout_rj (p a X : Z) :
  let w := Z.land p 0x7f .| encode.r0 a .| Z.land X 0xfffff000 in
  Z.land w 0x7f = Z.land p 0x7f /\ decode.r0 w = Z.land a 0x1f /\
  Z.land w 0xfffff000 = Z.land X 0xfffff000.
Proof. cbv zeta. repeat split; fields; bits. Qed.

(** What each immediate encoder leaves in the word. *)
Lemma encode_imm12_masked (v : Z) :
  encode.imm12 v = Z.land (encode.imm12 v) 0xfff00000.
Proof. fields; bits. Qed.

Lemma encode_imm12_value (v : Z) : encode.imm12 v = u32 (v * 2 ^ 20).
Proof. unfold encode.imm12. rewrite Z.shiftl_mul_pow2 by lia. reflexivity. Qed.

Lemma encode_offs12_imm12 (v : Z) : encode.offs12 v = encode.imm12 (Z.shiftr v 1).
Proof. fields; bits. Qed.

Lemma encode_offs20_value (v : Z) :
  encode.offs20 v = u32 (Z.shiftl (Z.shiftr v 1) 12).
Proof. fields; bits. Qed.

Lemma encode_uimm20_value (u : Z) : encode.uimm20 u = u32 (Z.shiftl u 12).
Proof. fields; bits. Qed.

Lemma shiftr1_div2 (v : Z) : Z.shiftr v 1 = v / 2.
Proof. rewrite Z.shiftr_div_pow2 by lia. reflexivity. Qed.

(** The signed decoders on such a field. *)
Lemma sext_imm12 (q : Z) :
  - 2048 <= q <= 2047 ->
  i32 (encode.imm12 q) = q * 2 ^ 20.
Proof.
  intros Hq. rewrite encode_imm12_value, i32_u32. apply i32_small. lia.
Qed.

Lemma decode_imm12_field (w q : Z) :
  - 2048 <= q <= 2047 ->
  Z.land w 0xfff00000 = encode.imm12 q ->
  i32 (decode.imm12 w) = q /\ i32 (decode.offs12 w) = 2 * q.
Proof.
  intros Hq Hw. unfold decode.imm12, decode.offs12. rewrite Hw, sext_imm12 by lia.
  rewrite !i32_u32, !Z.shiftr_div_pow2 by lia. split.
  - rewrite Z.div_mul by lia. apply i32_small. lia.
  - replace (q * 2 ^ 20) with (2 * q * 2 ^ 19) by lia.
    rewrite Z.div_mul by lia. apply i32_small. lia.
Qed.

Lemma decode_offs20_field (w q : Z) :
  - 524288 <= q <= 524287 ->
  Z.land w 0xfffff000 = u32 (Z.shiftl q 12) ->
  i32 (decode.offs20 w) = 2 * q.
Proof.
  intros Hq Hw. unfold decode.offs20. rewrite Hw.
  rewrite Z.shiftl_mul_pow2 by lia.
  rewrite (i32_u32 (q * 2 ^ 12)), (i32_small (q * 2 ^ 12)) by lia.
  rewrite i32_u32, Z.shiftr_div_pow2 by lia.
  replace (q * 2 ^ 12) with (2 * q * 2 ^ 11) by lia.
  rewrite Z.div_mul by lia. apply i32_small. lia.
Qed.

Lemma lor_swap (x y z : Z) : x .| y .| z = x .| z .| y.
Proof. rewrite <- !Z.lor_assoc. f_equal. apply Z.lor_comm. Qed.

Lemma reg_land (a : Z) : 0 <= a < 32 -> Z.land a 0x1f = a.
Proof. intros Ha. change 0x1f with (Z.ones 5). apply land_ones_small; lia. Qed.

Lemma clear_low_bit (v : Z) : 2 * Z.shiftr v 1 = v - v mod 2.
Proof. rewrite shiftr1_div2. pose proof (Z.div_mod v 2). lia. Qed.

(** C2, as amended.  For every opcode and operands within the field
    widths, the word the encoders build decodes as follows: the opcode and
    the 5-bit register and shift fields come back exactly; an imm12 in
    [-2048, 2047] comes back under sign-extension; an offs12 in
    [-4096, 4094] and an offs20 in [-1048576, 1048574] come back under
    sign-extension with the low bit cleared; a 20-bit uimm20 operand [u]
    comes back as [u * 4096], the operand moved into bits 31:12. *)
Theorem decode_encode_fields (opcode : Opcode.t) (a b c imm offs12 offs20 u : Z) :
  0 <= a < 32 -> 0 <= b < 32 -> 0 <= c < 32 ->
  - 2048 <= imm <= 2047 ->
  - 4096 <= offs12 <= 4094 ->
  - 1048576 <= offs20 <= 1048574 ->
  0 <= u < 2 ^ 20 ->
  let op := encode.opc opcode in
  let rrr := op .| encode.r0 a .| encode.r1 b .| encode.r2 c in
  let rrs := op .| encode.r0 a .| encode.r1 b .| encode.shift c in
  let rri := op .| encode.r0 a .| encode.r1 b .| encode.imm12 imm in
  let rro := op .| encode.r0 a .| encode.r1 b .| encode.offs12 offs12 in
  let rj := op .| encode.offs20 offs20 .| encode.r0 a in
  let ru := op .| encode.r0 a .| encode.uimm20 u in
  (Z.land rrr 0x7f = op /\ decode.r0 rrr = a /\ decode.r1 rrr = b /\ decode.r2 rrr = c) /\
  (Z.land rrs 0x7f = op /\ decode.r0 rrs = a /\ decode.r1 rrs = b /\ decode.shift rrs = c) /\
  (Z.land rri 0x7f = op /\ decode.r0 rri = a /\ decode.r1 rri = b /\
   decode.imm12 rri = u32 imm /\ i32 (decode.imm12 rri) = imm) /\
  (Z.land rro 0x7f = op /\ decode.r0 rro = a /\ decode.r1 rro = b /\
   i32 (decode.offs12 rro) = offs12 - offs12 mod 2) /\
  (Z.land rj 0x7f = op /\ decode.r0 rj = a /\
   i32 (decode.offs20 rj) = offs20 - offs20 mod 2) /\
  (Z.land ru 0x7f = op /\ decode.r0 ru = a /\ decode.uimm20 ru = u * 4096).
Proof.
  intros Ha Hb Hc Himm Ho12 Ho20 Hu. cbv zeta.
  rewrite <- (opc_land opcode).
  pose proof (layout_rrr (encode.opc opcode) a b c) as Hrrr.
  pose proof (layout_rri (encode.opc opcode) a b (encode.imm12 imm)) as Hrri.
  pose proof (layout_rri (encode.opc opcode) a b (encode.imm12 (Z.shiftr offs12 1))) as Hrro.
  pose proof (layout_rj (encode.opc opcode) a (encode.offs20 offs20)) as Hrj.
  pose proof (layout_rj (encode.opc opcode) a (encode.uimm20 u)) as Hru.
  cbv zeta in Hrrr, Hrri, Hrro, Hrj, Hru.
  rewrite <- !encode_imm12_masked in Hrri, Hrro.
  rewrite <- encode_offs12_imm12 in Hrro.
  assert (Eo20 : Z.land (encode.offs20 offs20) 0xfffff000 = encode.offs20 offs20)
    by (fields; bits).
  assert (Eu20 : Z.land (encode.uimm20 u) 0xfffff000 = encode.uimm20 u)
    by (fields; bits).
  rewrite Eo20 in Hrj. rewrite Eu20 in Hru.
  rewrite (lor_swap _ (encode.offs20 offs20) (encode.r0 a)).
  pose proof (reg_land a Ha) as Ea. pose proof (reg_land b Hb) as Eb.
  pose proof (reg_land c Hc) as Ec.
  rewrite Ea, Eb, Ec in Hrrr. rewrite Ea, Eb in Hrri. rewrite Ea, Eb in Hrro.
  rewrite Ea in Hrj. rewrite Ea in Hru.
  destruct Hrrr as (R1 & R2 & R3 & R4). destruct Hrri as (I1 & I2 & I3 & I4).
  destruct Hrro as (O1 & O2 & O3 & O4). destruct Hrj as (J1 & J2 & J3).
  destruct Hru as (U1 & U2 & U3).
  pose proof (Z.mod_pos_bound offs12 2 ltac:(lia)) as M12.
  pose proof (Z.mod_pos_bound offs20 2 ltac:(lia)) as M20.
  pose proof (clear_low_bit offs12) as C12. pose proof (clear_low_bit offs20) as C20.
  repeat split; try assumption.
  - destruct (decode_imm12_field _ imm Himm I4) as [D _].
    unfold decode.imm12 in *. rewrite I4, sext_imm12 by lia.
    rewrite Z.shiftr_div_pow2, Z.div_mul by lia. reflexivity.
  - destruct (decode_imm12_field _ imm Himm I4) as [D _]. exact D.
  - destruct (decode_imm12_field _ (Z.shiftr offs12 1) ltac:(lia)
                (eq_trans O4 (encode_offs12_imm12 offs12))) as [_ D].
    rewrite D. exact C12.
  - rewrite (decode_offs20_field _ (Z.shiftr offs20 1) ltac:(lia)
               (eq_trans J3 (encode_offs20_value offs20))). exact C20.
  - unfold decode.uimm20. rewrite U3, encode_uimm20_value.
    rewrite Z.shiftl_mul_pow2 by lia. apply u32_small. lia.
Qed.

Lemma decode_encode_fields_witness :
  (0 <= 10 < 32 /\ 0 <= 2 < 32 /\ 0 <= 31 < 32 /\ - 2048 <= -2048 <= 2047 /\
   - 4096 <= -4 <= 4094 /\ - 1048576 <= 1048574 <= 1048574 /\ 0 <= 0xfffff < 2 ^ 20) /\
  i32 (decode.imm12 (encode.opc Opcode.Addi .| encode.r0 10 .| encode.r1 2
                     .| encode.imm12 (-2048))) = -2048 /\
  i32 (decode.offs12 (encode.opc Opcode.Addi .| encode.r0 10 .| encode.r1 2
                      .| encode.offs12 (-4))) = -4 - (-4) mod 2 /\
  decode.uimm20 (encode.opc Opcode.Addi .| encode.r0 10 .| encode.uimm20 0xfffff)
  = 0xfffff * 4096.
Proof.
  pose proof (decode_encode_fields Opcode.Addi 10 2 31 (-2048) (-4) 1048574 0xfffff
                ltac:(lia) ltac:(lia) ltac:(lia) ltac:(lia) ltac:(lia) ltac:(lia)
                ltac:(lia)) as W.
  cbv zeta in W.
  destruct W as (_ & _ & (_ & _ & _ & _ & I) & (_ & _ & _ & O) & _ & (_ & _ & U)).
  split; [lia|]. split; [exact I|]. split; [exact O | exact U].
Defined.

(** C2 as stated fails on the upper-immediate field: the operand 1 comes
    back as 4096, which is neither the operand nor the operand masked to
    0xfffff000; a pre-shifted operand such as 0x12345000 loses its upper
    bits. *)
Lemma uimm20_does_not_survive :
  let w := encode.opc Opcode.Lui .| encode.r0 1 .| encode.uimm20 1 in
  let w' := encode.opc Opcode.Lui .| encode.r0 1 .| encode.uimm20 0x12345000 in
  decode.uimm20 w = 4096 /\ decode.uimm20 w <> 1 /\
  decode.uimm20 w <> Z.land 1 0xfffff000 /\
  decode.uimm20 w' = 0x45000000 /\ decode.uimm20 w' <> Z.land 0x12345000 0xfffff000.
Proof.
  cbv zeta. repeat split; try (vm_compute; reflexivity); vm_compute; discriminate.
Qed.

(** ** The executor *)

Lemma get_set_x_same (cpu cpu' : OwlCpu.t) (i v : Z) :
  OwlCpu.set_x cpu i v = Some cpu' -> OwlCpu.get_x cpu' i = Some v.
Proof.
  unfold OwlCpu.set_x, OwlCpu.get_x.
  destruct ((0 <=? i) && (i <? 32)) eqn:Hi; [|discriminate].
  destruct (Z.to_nat i <? length (OwlCpu.x cpu))%nat eqn:Hl; [|discriminate].
  intros [= <-]. cbn. apply list_lookup_insert_eq. apply Nat.ltb_lt. exact Hl.
Qed.

Lemma get_set_x_other (cpu cpu' : OwlCpu.t) (i j v : Z) :
  OwlCpu.set_x cpu i v = Some cpu' -> 0 <= i -> 0 <= j -> i <> j ->
  OwlCpu.get_x cpu' j = OwlCpu.get_x cpu j.
Proof.
  unfold OwlCpu.set_x, OwlCpu.get_x.
  destruct ((0 <=? i) && (i <? 32) && _); [|discriminate].
  intros [= <-] Hi Hj Hij. cbn.
  destruct ((0 <=? j) && (j <? 32)); [|reflexivity].
  apply list_lookup_insert_ne. lia.
Qed.

(** The other components of a state after a register write. *)
Lemma set_x_frame (cpu cpu' : OwlCpu.t) (i v : Z) :
  OwlCpu.set_x cpu i v = Some cpu' ->
  OwlCpu.pc cpu' = OwlCpu.pc cpu /\ OwlCpu.nextPc cpu' = OwlCpu.nextPc cpu /\
  OwlCpu.done cpu' = OwlCpu.done cpu /\ OwlCpu.memory cpu' = OwlCpu.memory cpu /\
  OwlCpu.out cpu' = OwlCpu.out cpu /\
  OwlCpu.x cpu' = <[Z.to_nat i := v]> (OwlCpu.x cpu).
Proof.
  unfold OwlCpu.set_x. destruct (_ && _); [|discriminate].
  intros [= <-]. cbn. repeat split; reflexivity.
Qed.

(** Splitting a monadic sequence that returned. *)
Ltac binds :=
  repeat match goal with
         | H : mbind _ ?m = Some _ |- _ =>
             let E := fresh "E" in
             destruct m eqn:E; cbn [mbind option_bind] in H; [|discriminate H]
         end.

Create HintDb owl_methods.

#[local] Hint Unfold
  OwlCpu.Ecall OwlCpu.Ebreak OwlCpu.Add OwlCpu.Sub OwlCpu.Sll OwlCpu.Slt OwlCpu.Sltu
  OwlCpu.Xor OwlCpu.Srl OwlCpu.Sra OwlCpu.Or OwlCpu.And OwlCpu.Slli OwlCpu.Srli
  OwlCpu.Srai OwlCpu.Beq OwlCpu.Bne OwlCpu.Blt OwlCpu.Bge OwlCpu.Bltu OwlCpu.Bgeu
  OwlCpu.Addi OwlCpu.Slti OwlCpu.Sltiu OwlCpu.Xori OwlCpu.Ori OwlCpu.Andi
  OwlCpu.Lb OwlCpu.Lbu OwlCpu.Lh OwlCpu.Lhu OwlCpu.Lw OwlCpu.Sb OwlCpu.Sh OwlCpu.Sw
  OwlCpu.Fence OwlCpu.Jalr OwlCpu.Jal OwlCpu.Lui OwlCpu.Auipc OwlCpu.J OwlCpu.Call
  OwlCpu.Ret OwlCpu.Li OwlCpu.Mv OwlCpu.Illegal : owl_methods.

(** One method call that returned, from a state where register 0 is zero:
    either the method ends with [x[0] = 0], or it writes no register, or
    (for [Call]) it writes [ra]. *)
Ltac x0_after H Hx :=
  autounfold with owl_methods in H; cbn [switch] in H;
  repeat first
    [ progress binds
    | match type of H with
      | (if ?c then _ else _) = Some _ => destruct c
      end ];
  first
    [ eapply get_set_x_same; eassumption
    | injection H as <-;
      repeat match goal with |- context [if ?c then _ else _] => destruct c end;
      exact Hx
    | injection H as <-;
      match goal with
      | E : OwlCpu.set_x _ ra _ = Some ?c |- _ =>
          change (OwlCpu.get_x c 0 = Some 0);
          rewrite (get_set_x_other _ _ ra 0 _ E) by (unfold ra; lia); exact Hx
      end ].

Lemma execute_x0 `{Host} (c : Instruction.t) (cpu cpu' : OwlCpu.t) :
  x0_zero cpu -> execute c cpu = Some cpu' -> x0_zero cpu'.
Proof.
  unfold x0_zero. intros Hx Hc.
  destruct c; cbn [execute] in Hc; x0_after Hc Hx.
Qed.

Lemma DispatchOwl_x0 `{Host} (cpu cpu' : OwlCpu.t) (ins : Z) :
  x0_zero cpu -> DispatchOwl cpu ins = Some cpu' -> x0_zero cpu'.
Proof.
  unfold x0_zero, DispatchOwl. intros Hx Hc. cbv zeta in Hc. cbn [switch] in Hc.
  repeat match type of Hc with
         | (if ?c then _ else _) = Some _ => destruct c; [x0_after Hc Hx|]
         end.
  x0_after Hc Hx.
Qed.

Lemma Li_zero_discarded (cpu cpu' : OwlCpu.t) (v : Z) :
  x0_zero cpu -> OwlCpu.Li 0 v cpu = Some cpu' -> cpu' = cpu.
Proof.
  unfold x0_zero, OwlCpu.Li. intros Hx Hc. binds.
  apply set_x_frame in E, Hc.
  destruct E as (E1 & E2 & E3 & E4 & E5 & E6).
  destruct Hc as (C1 & C2 & C3 & C4 & C5 & C6).
  rewrite E6, list_insert_insert_eq in C6.
  unfold OwlCpu.get_x in Hx. cbn in Hx.
  rewrite (list_insert_id _ _ _ Hx) in C6.
  destruct cpu, cpu'; cbn in *; congruence.
Qed.

(** C3.  From a state in which register 0 is zero, every call of a method
    of the executor, with any operands and on any memory, and every word
    run through the Owl dispatcher, ends (when it has a defined result) in
    a state in which register 0 is zero; loading a value into register 0
    leaves the whole state as it was. *)
Theorem register_zero_is_hard_wired `{Host} (cpu : OwlCpu.t) :
  x0_zero cpu ->
  (forall c cpu', execute c cpu = Some cpu' -> x0_zero cpu') /\
  (forall ins cpu', DispatchOwl cpu ins = Some cpu' -> x0_zero cpu') /\
  (forall v cpu', OwlCpu.Li 0 v cpu = Some cpu' -> cpu' = cpu).
Proof.
  intros Hx. split; [|split].
  - intros c cpu'. apply execute_x0. exact Hx.
  - intros ins cpu'. apply DispatchOwl_x0. exact Hx.
  - intros v cpu'. apply Li_zero_discarded. exact Hx.
Qed.

Lemma register_zero_is_hard_wired_witness :
  let host : Host := little in
  let cpu := OwlCpu.init [] in
  let li := encode.opc Opcode.Li .| encode.r0 0 .| encode.imm12 5 in
  x0_zero cpu /\
  execute (Instruction.Addi 0 2 7) cpu = Some cpu /\
  DispatchOwl cpu li = Some cpu /\
  x0_zero cpu.
Proof.
  cbv zeta.
  assert (H0 : x0_zero (OwlCpu.init [])) by reflexivity.
  assert (H1 : @execute little (Instruction.Addi 0 2 7) (OwlCpu.init [])
               = Some (OwlCpu.init [])) by (vm_compute; reflexivity).
  assert (H2 : @DispatchOwl little (OwlCpu.init [])
                 (encode.opc Opcode.Li .| encode.r0 0 .| encode.imm12 5)
               = Some (OwlCpu.init [])) by (vm_compute; reflexivity).
  pose proof (@register_zero_is_hard_wired little (OwlCpu.init []) H0) as (W1 & W2 & _).
  split; [exact H0|]. split; [exact H1|]. split; [exact H2|].
  exact (W2 _ _ H2).
Defined.

(** A register file of 32 registers: reads and writes in range succeed. *)
Lemma get_x_defined (cpu : OwlCpu.t) (i : Z) :
  length (OwlCpu.x cpu) = 32%nat -> 0 <= i < 32 ->
  exists v, OwlCpu.get_x cpu i = Some v.
Proof.
  intros Hl Hi. unfold OwlCpu.get_x.
  replace ((0 <=? i) && (i <? 32)) with true by lia.
  destruct (lookup_lt_is_Some_2 (OwlCpu.x cpu) (Z.to_nat i) ltac:(lia)) as [v Hv].
  exists v. exact Hv.
Qed.

Lemma set_x_defined (cpu : OwlCpu.t) (i v : Z) :
  length (OwlCpu.x cpu) = 32%nat -> 0 <= i < 32 ->
  OwlCpu.set_x cpu i v = Some (OwlCpu.with_x cpu (<[Z.to_nat i := v]> (OwlCpu.x cpu))).
Proof.
  intros Hl Hi. unfold OwlCpu.set_x.
  replace ((0 <=? i) && (i <? 32)) with true by lia.
  replace (Z.to_nat i <? length (OwlCpu.x cpu))%nat with true
    by (symmetry; apply Nat.ltb_lt; lia).
  reflexivity.
Qed.

Lemma shift_count_defined (s : Z) : 0 <= s < 32 -> OwlCpu.shift_count s = Some s.
Proof.
  intros Hs. unfold OwlCpu.shift_count.
  replace ((0 <=? s) && (s <? 32)) with true by lia. reflexivity.
Qed.

Lemma u32_add_i32 (b o : Z) : u32 (i32 b + o) = u32 (b + o).
Proof.
  unfold u32, i32.
  rewrite <- Zplus_mod_idemp_l, Zminus_mod_idemp_l, Zplus_mod_idemp_l.
  f_equal. lia.
Qed.

(** C4 (the signed set-less-than-immediate of the executor).  With all
    registers zero but [sp], [Slti(a0, zero, 5)] leaves 0 in [a0] although
    0 < 5: the source compares [x[r1]] with the register [x[imm12]], here
    [x[5]] = 0, not with the immediate.  An immediate outside [0, 32)
    indexes outside the register file. *)
Theorem Slti_compares_with_a_register :
  let cpu := OwlCpu.init [] in
  OwlCpu.get_x cpu zero = Some 0 /\ (i32 0 <? 5) = true /\
  (cpu' ← OwlCpu.Slti a0 zero 5 cpu; OwlCpu.get_x cpu' a0) = Some 0 /\
  OwlCpu.get_x cpu 5 = Some 0 /\
  OwlCpu.Slti a0 zero (-1) cpu = None /\
  OwlCpu.Slti a0 zero 32 cpu = None.
Proof. cbv zeta. repeat split; vm_compute; reflexivity. Qed.

(** The switch of [Ecall] has arms for Exit and PrintFib and no default
    arm: with any other selector in [x[a7]] control falls through it, and
    the machine is returned as it was, the done flag included. *)
Theorem Ecall_unknown_selector_ignored (cpu : OwlCpu.t) (selector : Z) :
  OwlCpu.get_x cpu a7 = Some selector -> selector <> 0 -> selector <> 1 ->
  OwlCpu.Ecall cpu = Some cpu.
Proof.
  intros Hs H0 H1. unfold OwlCpu.Ecall. rewrite Hs. cbn [mbind option_bind switch].
  destruct (Z.eqb_spec selector 0); [contradiction|].
  destruct (Z.eqb_spec selector 1); [contradiction|].
  reflexivity.
Qed.

Lemma Ecall_unknown_selector_ignored_witness :
  let cpu := OwlCpu.mk 8 12 (<[17%nat := 2]> (replicate 32 0)) false [] [] in
  OwlCpu.get_x cpu a7 = Some 2 /\ 2 <> 0 /\ 2 <> 1 /\ OwlCpu.Ecall cpu = Some cpu.
Proof.
  cbv zeta. split; [reflexivity|]. split; [lia|]. split; [lia|].
  apply (Ecall_unknown_selector_ignored _ 2); [reflexivity | lia | lia].
Defined.

(** C5 (unknown syscall selector).  An [Ecall] with a selector other than
    Exit and PrintFib is to report an error and halt the machine.  With
    selector 2 in [a7] (the puts call of fortune-owl.c) [OwlCpu::Ecall]
    returns with the done flag still clear and nothing printed: its switch
    lacks the [default: done = true] arm that the earlier executors have,
    so the run goes on to the next instruction. *)
Lemma Ecall_unknown_selector_does_not_halt :
  let cpu := OwlCpu.mk 8 12 (<[17%nat := 2]> (replicate 32 0)) false [] [] in
  OwlCpu.get_x cpu a7 = Some 2 /\
  exists cpu', OwlCpu.Ecall cpu = Some cpu' /\
               OwlCpu.done cpu' = false /\ OwlCpu.out cpu' = [].
Proof.
  cbv zeta. split; [reflexivity|]. eexists. split; [vm_compute; reflexivity|].
  split; reflexivity.
Qed.

(** C6, as amended.  In a state just fetched ([nextPc = pc + 4]),
    [Jalr(r0, offs12, r1)] sets [nextPc] to the value [x[r1]] had before the
    instruction plus [offs12], and sets [x[r0]] to [pc + 4] when [r0] is not
    register 0; when it is, the link is discarded and [x[0]] stays zero.
    [r0] and [r1] may be the same register: [x[r1]] is read first. *)
Theorem Jalr_links_then_jumps (cpu : OwlCpu.t) (r0 offs12 r1 : Z) :
  length (OwlCpu.x cpu) = 32%nat -> 0 <= r0 < 32 -> 0 <= r1 < 32 ->
  OwlCpu.nextPc cpu = u32 (OwlCpu.pc cpu + 4) ->
  exists b cpu',
    OwlCpu.get_x cpu r1 = Some b /\
    OwlCpu.Jalr r0 offs12 r1 cpu = Some cpu' /\
    OwlCpu.x cpu' =
      <[0%nat := 0]> (<[Z.to_nat r0 := u32 (OwlCpu.pc cpu + 4)]> (OwlCpu.x cpu)) /\
    (r0 <> 0 -> OwlCpu.get_x cpu' r0 = Some (u32 (OwlCpu.pc cpu + 4))) /\
    OwlCpu.nextPc cpu' = u32 (b + offs12) /\
    OwlCpu.pc cpu' = OwlCpu.pc cpu /\ OwlCpu.done cpu' = OwlCpu.done cpu /\
    OwlCpu.memory cpu' = OwlCpu.memory cpu /\ OwlCpu.out cpu' = OwlCpu.out cpu.
Proof.
  intros Hl H0 H1 Hn.
  destruct (get_x_defined cpu r1 Hl H1) as [b Hb].
  exists b. eexists. split; [exact Hb|].
  unfold OwlCpu.Jalr. rewrite Hb. cbn [mbind option_bind].
  rewrite (set_x_defined cpu r0 _ Hl H0). cbn [mbind option_bind].
  rewrite set_x_defined by (cbn; rewrite ?length_insert; lia).
  split; [reflexivity|]. cbn. rewrite Hn, u32_add_i32.
  repeat split; try reflexivity.
  intros Hr. unfold OwlCpu.get_x. cbn.
  replace ((0 <=? r0) && (r0 <? 32)) with true by lia.
  rewrite list_lookup_insert_ne by lia.
  apply list_lookup_insert_eq. lia.
Qed.

Lemma Jalr_links_then_jumps_witness :
  let cpu := OwlCpu.mk 8 12 (<[5%nat := 100]> (replicate 32 0)) false [] [] in
  (length (OwlCpu.x cpu) = 32%nat /\ 0 <= 5 < 32 /\
   OwlCpu.nextPc cpu = u32 (OwlCpu.pc cpu + 4)) /\
  exists cpu', OwlCpu.Jalr 5 (-4) 5 cpu = Some cpu' /\
               OwlCpu.get_x cpu' 5 = Some 12 /\ OwlCpu.nextPc cpu' = 96.
Proof.
  cbv zeta. split; [repeat split; lia|].
  assert (Hl : length (OwlCpu.x (OwlCpu.mk 8 12 (<[5%nat := 100]> (replicate 32 0))
                                 false [] [])) = 32%nat) by (vm_compute; reflexivity).
  destruct (Jalr_links_then_jumps _ 5 (-4) 5 Hl ltac:(lia) ltac:(lia) ltac:(reflexivity))
    as (b & cpu' & Hb & HJ & _ & Hx & Hn & _).
  exists cpu'. split; [exact HJ|]. split.
  - apply Hx. lia.
  - rewrite Hn. injection Hb as <-. reflexivity.
Defined.

(** C6 as stated fails for [r0 = 0]: after [Jalr(zero, 0, ra)] at [pc = 0]
    register 0 holds 0, not [pc + 4] = 4. *)
Lemma Jalr_link_to_register_zero_discarded :
  let cpu := OwlCpu.mk 0 4 (replicate 32 0) false [] [] in
  OwlCpu.nextPc cpu = u32 (OwlCpu.pc cpu + 4) /\
  u32 (OwlCpu.pc cpu + 4) = 4 /\
  (cpu' ← OwlCpu.Jalr zero 0 ra cpu; OwlCpu.get_x cpu' zero) = Some 0.
Proof. cbv zeta. repeat split; vm_compute; reflexivity. Qed.

Lemma logical_shift_clears_top (a s : Z) :
  0 <= a < 2 ^ 32 -> 0 < s < 32 -> 0 <= a / 2 ^ s < 2 ^ 31.
Proof.
  intros Ha Hs.
  assert (Hp : 2 ^ 1 <= 2 ^ s) by (apply Z.pow_le_mono_r; lia).
  split; [apply Z.div_pos; lia|].
  apply Z.div_lt_upper_bound; [lia|]. nia.
Qed.

Lemma arithmetic_shift_keeps_top (a s : Z) :
  2 ^ 31 <= a < 2 ^ 32 -> 0 <= s < 32 -> 2 ^ 31 <= u32 (i32 a / 2 ^ s) < 2 ^ 32.
Proof.
  intros Ha Hs.
  assert (Hp : 0 < 2 ^ s) by (apply Z.pow_pos_nonneg; lia).
  assert (Hi : i32 a = a - 2 ^ 32) by (unfold i32; rewrite <- (Z_mod_plus_full _ (-1));
    rewrite Z.mod_small; lia).
  rewrite Hi.
  assert (Hq : - 2 ^ 31 <= (a - 2 ^ 32) / 2 ^ s < 0).
  { split.
    - apply Z.div_le_lower_bound; [lia|]. nia.
    - apply Z.div_lt_upper_bound; lia. }
  unfold u32. rewrite <- (Z_mod_plus_full _ 1). rewrite Z.mod_small; lia.
Qed.

(** C10, as amended.  For a 5-bit shift amount [s] and [r0] other than
    register 0, the executor's [Srai(r0, r1, s)] sets [x[r0]] to the
    zero-filling right shift of [x[r1]] (bit 31 is not propagated) and
    [Srli(r0, r1, s)] to the sign-propagating one; for [r0 = 0] the result
    is discarded and [x[0]] stays zero.  [Srai] does what the
    register-register [Srl] does, and [Srli] what [Sra] does. *)
Theorem immediate_right_shifts_exchanged (cpu : OwlCpu.t) (r0 r1 s a : Z) :
  length (OwlCpu.x cpu) = 32%nat -> 0 <= r0 < 32 -> 0 <= r1 < 32 -> 0 <= s < 32 ->
  OwlCpu.get_x cpu r1 = Some a -> 0 <= a < 2 ^ 32 ->
  let logical := a / 2 ^ s in
  let arithmetic := u32 (i32 a / 2 ^ s) in
  OwlCpu.Srai r0 r1 s cpu =
    Some (OwlCpu.with_x cpu (<[0%nat := 0]> (<[Z.to_nat r0 := logical]> (OwlCpu.x cpu)))) /\
  OwlCpu.Srli r0 r1 s cpu =
    Some (OwlCpu.with_x cpu (<[0%nat := 0]> (<[Z.to_nat r0 := arithmetic]> (OwlCpu.x cpu)))) /\
  (r0 <> 0 ->
   (cpu' ← OwlCpu.Srai r0 r1 s cpu; OwlCpu.get_x cpu' r0) = Some logical /\
   (cpu' ← OwlCpu.Srli r0 r1 s cpu; OwlCpu.get_x cpu' r0) = Some arithmetic) /\
  (cpu' ← OwlCpu.Srai r0 r1 s cpu; OwlCpu.get_x cpu' 0) = Some 0 /\
  (0 < s -> logical < 2 ^ 31) /\
  (2 ^ 31 <= a -> 2 ^ 31 <= arithmetic) /\
  (forall r2, OwlCpu.get_x cpu r2 = Some s ->
     OwlCpu.Srl r0 r1 r2 cpu = OwlCpu.Srai r0 r1 s cpu /\
     OwlCpu.Sra r0 r1 r2 cpu = OwlCpu.Srli r0 r1 s cpu).
Proof.
  intros Hl H0 H1 Hs Ha Hr. cbv zeta.
  assert (Hi : i32 s = s) by (apply i32_small; lia).
  assert (Hai : OwlCpu.Srai r0 r1 s cpu =
    Some (OwlCpu.with_x cpu (<[0%nat := 0]> (<[Z.to_nat r0 := a / 2 ^ s]> (OwlCpu.x cpu))))).
  { unfold OwlCpu.Srai. rewrite Ha, (shift_count_defined s Hs). cbn [mbind option_bind].
    rewrite (set_x_defined cpu r0 _ Hl H0). cbn [mbind option_bind].
    rewrite set_x_defined by (cbn; rewrite ?length_insert; lia).
    rewrite Z.shiftr_div_pow2 by lia. reflexivity. }
  assert (Hli : OwlCpu.Srli r0 r1 s cpu =
    Some (OwlCpu.with_x cpu
            (<[0%nat := 0]> (<[Z.to_nat r0 := u32 (i32 a / 2 ^ s)]> (OwlCpu.x cpu))))).
  { unfold OwlCpu.Srli. rewrite Ha, Hi, (shift_count_defined s Hs).
    cbn [mbind option_bind].
    rewrite (set_x_defined cpu r0 _ Hl H0). cbn [mbind option_bind].
    rewrite set_x_defined by (cbn; rewrite ?length_insert; lia).
    rewrite Z.shiftr_div_pow2 by lia. reflexivity. }
  assert (Hget : forall v, r0 <> 0 ->
    OwlCpu.get_x (OwlCpu.with_x cpu (<[0%nat := 0]> (<[Z.to_nat r0 := v]> (OwlCpu.x cpu))))
      r0 = Some v).
  { intros v Hne. unfold OwlCpu.get_x. cbn.
    replace ((0 <=? r0) && (r0 <? 32)) with true by lia.
    rewrite list_lookup_insert_ne by lia. apply list_lookup_insert_eq. lia. }
  split; [exact Hai|]. split; [exact Hli|].
  split; [intros Hne; rewrite Hai, Hli; cbn [mbind option_bind]; split; apply Hget; exact Hne|].
  split.
  { rewrite Hai. cbn [mbind option_bind]. unfold OwlCpu.get_x. cbn.
    apply list_lookup_insert_eq. rewrite length_insert. lia. }
  split; [|split].
  - intros Hs'. apply logical_shift_clears_top; lia.
  - intros Ha'. apply arithmetic_shift_keeps_top; lia.
  - intros r2 H2. split.
    + unfold OwlCpu.Srl, OwlCpu.Srai. rewrite Ha, H2, (shift_count_defined s Hs).
      cbn [mbind option_bind]. rewrite (Z.mod_small s 32) by lia. reflexivity.
    + unfold OwlCpu.Sra, OwlCpu.Srli. rewrite Ha, H2.
      cbn [mbind option_bind]. rewrite !Hi, (Z.rem_small s 32) by lia. reflexivity.
Qed.

Lemma immediate_right_shifts_exchanged_witness :
  let cpu := OwlCpu.mk 8 12 (<[6%nat := 31]> (<[5%nat := 0x80000000]> (replicate 32 0)))
               false [] [] in
  (length (OwlCpu.x cpu) = 32%nat /\ OwlCpu.get_x cpu 5 = Some 0x80000000 /\
   0 <= 0x80000000 < 2 ^ 32) /\
  (cpu' ← OwlCpu.Srai 7 5 31 cpu; OwlCpu.get_x cpu' 7) = Some 1 /\
  (cpu' ← OwlCpu.Srli 7 5 31 cpu; OwlCpu.get_x cpu' 7) = Some 0xffffffff /\
  OwlCpu.Srl 7 5 6 cpu = OwlCpu.Srai 7 5 31 cpu /\
  OwlCpu.Sra 7 5 6 cpu = OwlCpu.Srli 7 5 31 cpu.
Proof.
  cbv zeta.
  assert (Hl : length (OwlCpu.x (OwlCpu.mk 8 12
                 (<[6%nat := 31]> (<[5%nat := 0x80000000]> (replicate 32 0)))
                 false [] [])) = 32%nat) by (vm_compute; reflexivity).
  destruct (immediate_right_shifts_exchanged _ 7 5 31 0x80000000 Hl
              ltac:(lia) ltac:(lia) ltac:(lia) ltac:(reflexivity) ltac:(lia))
    as (Hai & Hli & _ & _ & _ & _ & Hx).
  destruct (Hx 6 ltac:(reflexivity)) as [Hsrl Hsra].
  split; [split; [exact Hl | split; [reflexivity | lia]]|].
  split; [rewrite Hai; vm_compute; reflexivity|].
  split; [rewrite Hli; vm_compute; reflexivity|].
  split; [exact Hsrl | exact Hsra].
Defined.

(** C10 as stated fails for [r0 = 0]: with [sp] = 16, [Srai(zero, sp, 0)]
    and [Srli(zero, sp, 0)] leave 0 in register 0, not 16. *)
Lemma shift_to_register_zero_discarded :
  let cpu := OwlCpu.init (replicate 16 Byte.x00) in
  OwlCpu.get_x cpu sp = Some 16 /\ 16 / 2 ^ 0 = 16 /\
  (cpu' ← OwlCpu.Srai zero sp 0 cpu; OwlCpu.get_x cpu' zero) = Some 0 /\
  (cpu' ← OwlCpu.Srli zero sp 0 cpu; OwlCpu.get_x cpu' zero) = Some 0.
Proof. cbv zeta. repeat split; vm_compute; reflexivity. Qed.

(** ** The assembler *)

Lemma u32_mul_i32 (y k : Z) : u32 (i32 (u32 y) * k) = u32 (y * k).
Proof.
  rewrite i32_u32. unfold u32, i32.
  pose proof (Z.div_mod (y + 2 ^ 31) (2 ^ 32) ltac:(lia)) as Hd.
  replace (((y + 2 ^ 31) mod 2 ^ 32 - 2 ^ 31) * k)
    with (y * k + (- ((y + 2 ^ 31) / 2 ^ 32) * k) * 2 ^ 32) by lia.
  apply Z_mod_plus_full.
Qed.

(** The offset encoders see their [int32_t] argument modulo 2^32 only. *)
Lemma encode_offs12_wrap (z : Z) : encode.offs12 (i32 (u32 z)) = encode.offs12 z.
Proof.
  unfold encode.offs12. rewrite !Z.shiftl_mul_pow2 by lia.
  rewrite u32_mul_i32. reflexivity.
Qed.

Lemma encode_offs20_wrap (z : Z) : encode.offs20 (i32 (u32 z)) = encode.offs20 z.
Proof.
  unfold encode.offs20. rewrite !Z.shiftl_mul_pow2 by lia.
  rewrite u32_mul_i32. reflexivity.
Qed.

Lemma Branch_label_bound `{Host} (a : Assembler.t) (label : Label) (A : Z)
    (opcode : Opcode.t) (r0 r1 : Z) :
  Assembler.AddressOf a label = Some (Some A) ->
  Assembler.Branch_label opcode r0 r1 label a
  = Some (Assembler.Branch opcode r0 r1 (A - Assembler.Current a) a).
Proof.
  intros HA. unfold Assembler.Branch_label. rewrite HA. cbn [mbind option_bind].
  unfold Assembler.Branch. rewrite encode_offs12_wrap. reflexivity.
Qed.

Lemma Jump_label_bound `{Host} (a : Assembler.t) (label : Label) (A : Z)
    (opcode : Opcode.t) :
  Assembler.AddressOf a label = Some (Some A) ->
  Assembler.Jump_label opcode label a
  = Some (Assembler.Jump opcode (A - Assembler.Current a) a).
Proof.
  intros HA. unfold Assembler.Jump_label. rewrite HA. cbn [mbind option_bind].
  unfold Assembler.Jump. rewrite encode_offs20_wrap. reflexivity.
Qed.

(** C7.  With the label bound to address [A] and the assembler at offset
    [C], each branch and jump mnemonic given the label leaves the assembler
    in the very state the same mnemonic given the number [A - C] leaves it
    in: one word appended, the same one, and the fixups as they were. *)
Theorem bound_label_same_as_offset `{Host} (a : Assembler.t) (label : Label)
    (A r0 r1 : Z) :
  Assembler.AddressOf a label = Some (Some A) ->
  let C := Assembler.Current a in
  (forall opcode,
     Assembler.Branch_label opcode r0 r1 label a
     = Some (Assembler.Branch opcode r0 r1 (A - C) a) /\
     Assembler.code_ (Assembler.Branch opcode r0 r1 (A - C) a)
     = Assembler.code_ a
       ++ [AsLE32 (encode.opc opcode .| encode.r0 r0 .| encode.r1 r1
                   .| encode.offs12 (A - C))] /\
     Assembler.fixups_ (Assembler.Branch opcode r0 r1 (A - C) a) = Assembler.fixups_ a) /\
  (forall opcode,
     Assembler.Jump_label opcode label a = Some (Assembler.Jump opcode (A - C) a) /\
     Assembler.code_ (Assembler.Jump opcode (A - C) a)
     = Assembler.code_ a ++ [AsLE32 (encode.opc opcode .| encode.offs20 (A - C))] /\
     Assembler.fixups_ (Assembler.Jump opcode (A - C) a) = Assembler.fixups_ a) /\
  Assembler.Beq_label r0 r1 label a = Some (Assembler.Beq r0 r1 (A - C) a) /\
  Assembler.Bne_label r0 r1 label a = Some (Assembler.Bne r0 r1 (A - C) a) /\
  Assembler.Blt_label r0 r1 label a = Some (Assembler.Blt r0 r1 (A - C) a) /\
  Assembler.Bge_label r0 r1 label a = Some (Assembler.Bge r0 r1 (A - C) a) /\
  Assembler.Bltu_label r0 r1 label a = Some (Assembler.Bltu r0 r1 (A - C) a) /\
  Assembler.Bgeu_label r0 r1 label a = Some (Assembler.Bgeu r0 r1 (A - C) a) /\
  Assembler.J_label label a = Some (Assembler.J (A - C) a) /\
  Assembler.Call_label label a = Some (Assembler.Call (A - C) a).
Proof.
  intros HA. cbv zeta.
  split; [|split].
  - intros opcode. split; [apply Branch_label_bound; exact HA|]. split; reflexivity.
  - intros opcode. split; [apply Jump_label_bound; exact HA|]. split; reflexivity.
  - repeat split;
      first [ apply (Branch_label_bound a label A _ r0 r1 HA)
            | apply (Jump_label_bound a label A _ HA) ].
Qed.

(** A label made, bound after two words, then branched to after a third:
    the offset is 8 - 12 = -4. *)
Lemma bound_label_same_as_offset_witness :
  let host : Host := little in
  let a0 := Assembler.Li 8 0 (Assembler.Li 9 5 Assembler.empty) in
  let (L, a1) := Assembler.MakeLabel a0 in
  exists a2, Assembler.BindLabel L a1 = Some a2 /\
    let a3 := Assembler.Addi 8 8 1 a2 in
    Assembler.AddressOf a3 L = Some (Some 8) /\
    Assembler.Bltu_label 8 9 L a3 = Some (Assembler.Bltu 8 9 (-4) a3) /\
    Assembler.fixups_ (Assembler.Bltu 8 9 (-4) a3) = [].
Proof.
  cbv zeta. cbn [Assembler.MakeLabel].
  eexists. split; [vm_compute; reflexivity|].
  match goal with |- ?P /\ _ => assert (HA : P) by (vm_compute; reflexivity) end.
  split; [exact HA|].
  destruct (@bound_label_same_as_offset little _ _ 8 8 9 HA)
    as (_ & _ & _ & _ & _ & _ & Hbltu & _).
  split; [exact Hbltu | reflexivity].
Defined.

(** C8.  [Code()] yields the buffer exactly when no fixup is pending, and
    otherwise fails with the unbound-labels error and yields no buffer.
    It is a [const] member: a function of the assembler state that
    produces no successor state. *)
Theorem Code_iff_no_fixups (a : Assembler.t) :
  (Assembler.fixups_ a = [] <-> Assembler.Code a = inr (Assembler.code_ a)) /\
  (Assembler.fixups_ a <> [] <->
   Assembler.Code a = inl "There are unbound labels."%string) /\
  (forall buffer, Assembler.Code a = inr buffer ->
                  buffer = Assembler.code_ a /\ Assembler.fixups_ a = []).
Proof.
  unfold Assembler.Code. destruct (Assembler.fixups_ a) as [|f fs].
  - split; [split; reflexivity|]. split.
    + split; [intros Hne; contradiction Hne; reflexivity | discriminate].
    + intros buffer Hb. injection Hb as <-. split; reflexivity.
  - split; [split; discriminate|]. split.
    + split; [reflexivity | discriminate].
    + intros buffer Hb. discriminate Hb.
Qed.

Lemma Code_iff_no_fixups_witness :
  let host : Host := little in
  let (L, a1) := Assembler.MakeLabel Assembler.empty in
  exists a2 a3,
    Assembler.Call_label L a1 = Some a2 /\
    Assembler.fixups_ a2 <> [] /\
    Assembler.Code a2 = inl "There are unbound labels."%string /\
    Assembler.BindLabel L (Assembler.Ebreak a2) = Some a3 /\
    Assembler.fixups_ a3 = [] /\
    Assembler.Code a3 = inr (Assembler.code_ a3).
Proof.
  cbv zeta. cbn [Assembler.MakeLabel].
  eexists. eexists.
  split; [vm_compute; reflexivity|].
  match goal with |- ?P /\ _ => assert (HF : P) by (vm_compute; discriminate) end.
  split; [exact HF|].
  split; [apply (proj1 (proj1 (proj2 (Code_iff_no_fixups _))) HF)|].
  split; [vm_compute; reflexivity|].
  match goal with |- ?P /\ _ => assert (HE : P) by (vm_compute; reflexivity) end.
  split; [exact HE|].
  apply (proj1 (proj1 (Code_iff_no_fixups _)) HE).
Defined.

(** ** The transcoder *)

Lemma DispatchOwl_decode_call `{Host} (cpu : OwlCpu.t) (ins : Z) (opcode : Opcode.t) :
  Z.land ins 0x7f = encode.opc opcode ->
  DispatchOwl cpu ins = execute (decode_call opcode ins) cpu.
Proof.
  intros E. unfold DispatchOwl. cbv zeta. rewrite E. destruct opcode; reflexivity.
Qed.

(** C1 (upper immediates).  The RV32I word 0x000010b7, [lui x1, 0x1], run
    directly puts 0x1000 in [x1]; transcoded it becomes the Owl word
    0x010000a7, which puts 0x01000000 in [x1]: [Transcode] hands
    [Assembler::Lui] the already shifted [Uimmediate()], and
    [encode::uimm20] shifts it by 12 again.  The same holds on either
    host, and for [auipc] (0x00001097). *)
Theorem Transcode_Lui_diverges (host : Host) :
  let cpu := OwlCpu.init [] in
  let lui := 0x000010b7 in
  let auipc := 0x00001097 in
  Transcoded lui = 0x010000a7 /\
  (cpu' ← DispatchRv32i cpu lui; OwlCpu.get_x cpu' 1) = Some 0x1000 /\
  (cpu' ← DispatchOwl cpu (Transcoded lui); OwlCpu.get_x cpu' 1) = Some 0x01000000 /\
  DispatchOwl cpu (Transcoded lui) <> DispatchRv32i cpu lui /\
  DispatchOwl cpu (Transcoded auipc) <> DispatchRv32i cpu auipc.
Proof.
  cbv zeta. destruct host; repeat split; try (vm_compute; reflexivity);
    vm_compute; discriminate.
Qed.

(** The same for an indirect jump with an odd offset, [jalr x0, 1(x1)]:
    [encode::offs12] drops the low bit that the direct path adds. *)
Lemma Transcode_Jalr_odd_diverges (host : Host) :
  let cpu := OwlCpu.init [] in
  let jalr := 0x00108067 in
  option_map OwlCpu.nextPc (DispatchRv32i cpu jalr) = Some 1 /\
  option_map OwlCpu.nextPc (DispatchOwl cpu (Transcoded jalr)) = Some 0.
Proof.
  cbv zeta. destruct host; split; vm_compute; reflexivity.
Qed.

(** *** Where the two paths agree *)

Ltac rvmasks :=
  change 0x80000000 with (Z.shiftl (Z.ones 1) 31) in *;
  change 0x00000080 with (Z.shiftl (Z.ones 1) 7) in *;
  change 0x7e000000 with (Z.shiftl (Z.ones 6) 25) in *;
  change 0x00000f00 with (Z.shiftl (Z.ones 4) 8) in *;
  change 0xfe000000 with (Z.shiftl (Z.ones 7) 25) in *;
  change 0x00000f80 with (Z.shiftl (Z.ones 5) 7) in *;
  change 0x000ff000 with (Z.shiftl (Z.ones 8) 12) in *;
  change 0x00100000 with (Z.shiftl (Z.ones 1) 20) in *;
  change 0x7fe00000 with (Z.shiftl (Z.ones 10) 21) in *.

Lemma range_of_mask (x : Z) : Z.land x (Z.ones 32) = x -> 0 <= x < 2 ^ 32.
Proof.
  intros E. rewrite <- E, Z.land_ones by lia. apply Z.mod_pos_bound. lia.
Qed.

Lemma emitted_word `{Host} (u : Z) :
  0 <= u < 2 ^ 32 ->
  AsLE32 (default 0 (last (Assembler.code_ (Assembler.Emit u Assembler.empty)))) = u.
Proof. intros Hu. cbn. apply AsLE32_involutive. exact Hu. Qed.

(** The immediates of an RV32I word survive the Owl encoding: I- and
    S-immediates as imm12, B-immediates as offs12, J-immediates as offs20,
    and the I-immediate of a [jalr] as offs12 when it is even. *)
Lemma Iimmediate_as_imm12 (code : Z) :
  u32 (Z.shiftr (i32 (encode.imm12 (i32 (DecodeRv32.Iimmediate code)))) 20)
  = DecodeRv32.Iimmediate code.
Proof. fields. bits. Qed.

Lemma Simmediate_as_imm12 (code : Z) :
  u32 (Z.shiftr (i32 (encode.imm12 (i32 (DecodeRv32.Simmediate code)))) 20)
  = DecodeRv32.Simmediate code.
Proof. fields. rvmasks. bits. Qed.

Lemma Bimmediate_as_offs12 (code : Z) :
  u32 (Z.shiftr (i32 (encode.offs12 (i32 (DecodeRv32.Bimmediate code)))) 19)
  = DecodeRv32.Bimmediate code.
Proof. fields. rvmasks. bits. Qed.

Lemma Jimmediate_as_offs20 (code : Z) :
  u32 (Z.shiftr (i32 (encode.offs20 (i32 (DecodeRv32.Jimmediate code)))) 11)
  = DecodeRv32.Jimmediate code.
Proof. fields. rvmasks. bits. Qed.

Lemma even_Iimmediate_as_offs12 (code : Z) :
  Z.testbit code 20 = false ->
  u32 (Z.shiftr (i32 (encode.offs12 (i32 (DecodeRv32.Iimmediate code)))) 19)
  = DecodeRv32.Iimmediate code.
Proof.
  intros Hb. fields. bits.
  all: subst; replace (i + 20) with 20 by lia; rewrite Hb; reflexivity.
Qed.

Lemma rv_reg_land (code k : Z) :
  Z.land (Z.land (Z.shiftr code k) 0x1f) 0x1f = Z.land (Z.shiftr code k) 0x1f.
Proof. rewrite <- Z.land_assoc, Z.land_diag. reflexivity. Qed.

Lemma offs12_masked (v : Z) : Z.land (encode.offs12 v) 0xfff00000 = encode.offs12 v.
Proof. fields. bits. Qed.

Lemma offs20_masked (v : Z) : Z.land (encode.offs20 v) 0xfffff000 = encode.offs20 v.
Proof. fields. bits. Qed.

(** The Owl words [Transcode] emits, layout by layout: in range, tagged
    with the opcode, and decoding to the operands of the RV32I word. *)
Section Words.
Variables (o : Opcode.t) (code : Z).
#[local] Abbreviation Rd := (DecodeRv32.Rd code).
#[local] Abbreviation Rs1 := (DecodeRv32.Rs1 code).
#[local] Abbreviation Rs2 := (DecodeRv32.Rs2 code).

Lemma word_op :
  let u := encode.opc o in
  0 <= u < 2 ^ 32 /\ Z.land u 0x7f = encode.opc o.
Proof.
  cbv zeta. split; [pose proof (opc_range o); lia | apply opc_land].
Qed.

Lemma word_rrr :
  let u := encode.opc o .| encode.r0 Rd .| encode.r1 Rs1 .| encode.r2 Rs2 in
  0 <= u < 2 ^ 32 /\ Z.land u 0x7f = encode.opc o /\
  decode.r0 u = Rd /\ decode.r1 u = Rs1 /\ decode.r2 u = Rs2.
Proof.
  cbv zeta. pose proof (layout_rrr (encode.opc o) Rd Rs1 Rs2) as L. cbv zeta in L.
  rewrite opc_land in L. unfold DecodeRv32.Rd, DecodeRv32.Rs1, DecodeRv32.Rs2 in *.
  rewrite !rv_reg_land in L.
  split; [|exact L].
  apply range_of_mask. rewrite <- (opc_land o). fields. bits.
Qed.

Lemma word_rrs :
  let u := encode.opc o .| encode.r0 Rd .| encode.r1 Rs1
           .| encode.shift (DecodeRv32.Shamtw code) in
  0 <= u < 2 ^ 32 /\ Z.land u 0x7f = encode.opc o /\
  decode.r0 u = Rd /\ decode.r1 u = Rs1 /\ decode.shift u = DecodeRv32.Shamtw code.
Proof. exact word_rrr. Qed.

Lemma word_rri (a b X : Z) :
  let u := encode.opc o .| encode.r0 (Z.land a 0x1f) .| encode.r1 (Z.land b 0x1f)
           .| Z.land X 0xfff00000 in
  0 <= u < 2 ^ 32 /\ Z.land u 0x7f = encode.opc o /\
  decode.r0 u = Z.land a 0x1f /\ decode.r1 u = Z.land b 0x1f /\
  Z.land u 0xfff00000 = Z.land X 0xfff00000.
Proof.
  cbv zeta.
  pose proof (layout_rri (encode.opc o) (Z.land a 0x1f) (Z.land b 0x1f) X) as L.
  cbv zeta in L. rewrite opc_land in L.
  rewrite <- !Z.land_assoc, !Z.land_diag in L.
  split; [|exact L].
  apply range_of_mask. rewrite <- (opc_land o). fields. bits.
Qed.

Lemma word_rj (X : Z) :
  let u := encode.opc o .| encode.r0 Rd .| Z.land X 0xfffff000 in
  0 <= u < 2 ^ 32 /\ Z.land u 0x7f = encode.opc o /\
  decode.r0 u = Rd /\ Z.land u 0xfffff000 = Z.land X 0xfffff000.
Proof.
  cbv zeta. pose proof (layout_rj (encode.opc o) Rd X) as L. cbv zeta in L.
  rewrite opc_land in L. unfold DecodeRv32.Rd in *. rewrite !rv_reg_land in L.
  split; [|exact L].
  apply range_of_mask. rewrite <- (opc_land o). fields. bits.
Qed.

Lemma lor_rotate (p X b a : Z) : p .| X .| b .| a = p .| a .| b .| X.
Proof. apply Z.bits_inj'. intros n Hn. rewrite !Z.lor_spec. btauto. Qed.

Lemma rv_rri :
  let u := encode.opc o .| encode.r0 Rd .| encode.r1 Rs1
           .| encode.imm12 (i32 (DecodeRv32.Iimmediate code)) in
  0 <= u < 2 ^ 32 /\ Z.land u 0x7f = encode.opc o /\
  decode.r0 u = Rd /\ decode.r1 u = Rs1 /\ decode.imm12 u = DecodeRv32.Iimmediate code.
Proof.
  cbv zeta.
  pose proof (word_rri (Z.shiftr code 7) (Z.shiftr code 15)
                (encode.imm12 (i32 (DecodeRv32.Iimmediate code)))) as W.
  cbv zeta in W. rewrite <- encode_imm12_masked in W.
  destruct W as (W1 & W2 & W3 & W4 & W5).
  unfold DecodeRv32.Rd, DecodeRv32.Rs1, DecodeRv32.Rs2.
  repeat split; try assumption; try apply W1.
  unfold decode.imm12. rewrite W5.
  apply Iimmediate_as_imm12.
Qed.

Lemma rv_load :
  let u := encode.opc o .| encode.r0 Rd
           .| encode.imm12 (i32 (DecodeRv32.Iimmediate code)) .| encode.r1 Rs1 in
  0 <= u < 2 ^ 32 /\ Z.land u 0x7f = encode.opc o /\
  decode.r0 u = Rd /\ decode.r1 u = Rs1 /\ decode.imm12 u = DecodeRv32.Iimmediate code.
Proof. cbv zeta. rewrite lor_swap. exact rv_rri. Qed.

Lemma rv_store :
  let u := encode.opc o .| encode.r0 Rs1
           .| encode.imm12 (i32 (DecodeRv32.Simmediate code)) .| encode.r1 Rs2 in
  0 <= u < 2 ^ 32 /\ Z.land u 0x7f = encode.opc o /\
  decode.r0 u = Rs1 /\ decode.r1 u = Rs2 /\ decode.imm12 u = DecodeRv32.Simmediate code.
Proof.
  cbv zeta. rewrite lor_swap.
  pose proof (word_rri (Z.shiftr code 15) (Z.shiftr code 20)
                (encode.imm12 (i32 (DecodeRv32.Simmediate code)))) as W.
  cbv zeta in W. rewrite <- encode_imm12_masked in W.
  destruct W as (W1 & W2 & W3 & W4 & W5).
  unfold DecodeRv32.Rd, DecodeRv32.Rs1, DecodeRv32.Rs2.
  repeat split; try assumption; try apply W1.
  unfold decode.imm12. rewrite W5.
  apply Simmediate_as_imm12.
Qed.

Lemma rv_branch :
  let u := encode.opc o .| encode.r0 Rs1 .| encode.r1 Rs2
           .| encode.offs12 (i32 (DecodeRv32.Bimmediate code)) in
  0 <= u < 2 ^ 32 /\ Z.land u 0x7f = encode.opc o /\
  decode.r0 u = Rs1 /\ decode.r1 u = Rs2 /\ decode.offs12 u = DecodeRv32.Bimmediate code.
Proof.
  cbv zeta.
  pose proof (word_rri (Z.shiftr code 15) (Z.shiftr code 20)
                (encode.offs12 (i32 (DecodeRv32.Bimmediate code)))) as W.
  cbv zeta in W. rewrite offs12_masked in W.
  destruct W as (W1 & W2 & W3 & W4 & W5).
  unfold DecodeRv32.Rd, DecodeRv32.Rs1, DecodeRv32.Rs2.
  repeat split; try assumption; try apply W1.
  unfold decode.offs12. rewrite W5.
  apply Bimmediate_as_offs12.
Qed.

Lemma rv_jalr :
  Z.testbit code 20 = false ->
  let u := encode.opc o .| encode.offs12 (i32 (DecodeRv32.Iimmediate code))
           .| encode.r1 Rs1 .| encode.r0 Rd in
  0 <= u < 2 ^ 32 /\ Z.land u 0x7f = encode.opc o /\
  decode.r0 u = Rd /\ decode.r1 u = Rs1 /\ decode.offs12 u = DecodeRv32.Iimmediate code.
Proof.
  intros Heven. cbv zeta. rewrite lor_rotate.
  pose proof (word_rri (Z.shiftr code 7) (Z.shiftr code 15)
                (encode.offs12 (i32 (DecodeRv32.Iimmediate code)))) as W.
  cbv zeta in W. rewrite offs12_masked in W.
  destruct W as (W1 & W2 & W3 & W4 & W5).
  unfold DecodeRv32.Rd, DecodeRv32.Rs1, DecodeRv32.Rs2.
  repeat split; try assumption; try apply W1.
  unfold decode.offs12. rewrite W5.
  apply even_Iimmediate_as_offs12. exact Heven.
Qed.

Lemma rv_jal :
  let u := encode.opc o .| encode.offs20 (i32 (DecodeRv32.Jimmediate code))
           .| encode.r0 Rd in
  0 <= u < 2 ^ 32 /\ Z.land u 0x7f = encode.opc o /\
  decode.r0 u = Rd /\ decode.offs20 u = DecodeRv32.Jimmediate code.
Proof.
  cbv zeta. rewrite lor_swap.
  pose proof (word_rj (encode.offs20 (i32 (DecodeRv32.Jimmediate code)))) as W.
  cbv zeta in W. rewrite offs20_masked in W.
  destruct W as (W1 & W2 & W3 & W4).
  unfold DecodeRv32.Rd in *.
  repeat split; try assumption; try apply W1.
  unfold decode.offs20. rewrite W4.
  apply Jimmediate_as_offs20.
Qed.
End Words.

Lemma switch_related {A B : Type} (R : A -> B -> Prop) (v : Z)
    (cases : list (Z * A)) (cases' : list (Z * B)) (d : A) (d' : B) :
  Forall2 (fun p q => fst p = fst q /\ (v = fst p -> R (snd p) (snd q))) cases cases' ->
  R d d' ->
  R (switch v cases d) (switch v cases' d').
Proof.
  intros Hc Hd. induction Hc as [|[c a] [c' b] cs cs' [Hfst Hr] _ IH]; [exact Hd|].
  cbn in Hfst, Hr. subst c'. cbn [switch].
  destruct (Z.eqb_spec v c) as [Hv | Hv]; [apply Hr; exact Hv | exact IH].
Qed.

Create HintDb asm_methods.

#[local] Hint Unfold
  Assembler.Ecall Assembler.Ebreak Assembler.Add Assembler.Sub Assembler.Sll
  Assembler.Slt Assembler.Sltu Assembler.Xor Assembler.Srl Assembler.Sra Assembler.Or
  Assembler.And Assembler.Slli Assembler.Srli Assembler.Srai Assembler.Beq Assembler.Bne
  Assembler.Blt Assembler.Bge Assembler.Bltu Assembler.Bgeu Assembler.Branch
  Assembler.Addi Assembler.Slti Assembler.Sltiu Assembler.Xori Assembler.Ori
  Assembler.Andi Assembler.Lb Assembler.Lbu Assembler.Lh Assembler.Lhu Assembler.Lw
  Assembler.Sb Assembler.Sh Assembler.Sw Assembler.Fence Assembler.Jalr Assembler.Jal
  Assembler.Illegal : asm_methods.

(** One arm: the assembler method emits a word of a known layout; the Owl
    dispatcher decodes it to the call the RV32I dispatcher makes. *)
Ltac owl_arm F :=
  let W := fresh "W" in
  pose proof F as W; cbv zeta in W;
  let Wr := fresh "Wr" in
  let Wo := fresh "Wo" in
  destruct W as (Wr & W); destruct_and? W;
  match goal with
  | Wo : Z.land _ 0x7f = encode.opc _ |- _ =>
      rewrite (emitted_word _ Wr), (DispatchOwl_decode_call _ _ _ Wo)
  end;
  cbn [decode_call execute];
  repeat match goal with
         | E : decode.r0 _ = _ |- _ => rewrite E; clear E
         | E : decode.r1 _ = _ |- _ => rewrite E; clear E
         | E : decode.r2 _ = _ |- _ => rewrite E; clear E
         | E : decode.shift _ = _ |- _ => rewrite E; clear E
         | E : decode.imm12 _ = _ |- _ => rewrite E; clear E
         | E : decode.offs12 _ = _ |- _ => rewrite E; clear E
         | E : decode.offs20 _ = _ |- _ => rewrite E; clear E
         end;
  reflexivity.

Ltac transcode_arm code Hlui Hauipc Hjalr :=
  cbv beta; cbn [fst snd]; split; [reflexivity|];
  let Hv := fresh "Hv" in
  intros Hv; cbn [fst snd] in Hv |- *; cbv beta;
  first
    [ exfalso; apply Hlui; exact Hv
    | exfalso; apply Hauipc; exact Hv
    | autounfold with asm_methods;
      match goal with
      | |- context [encode.opc ?o] =>
          first
            [ owl_arm (word_op o)
            | owl_arm (word_rrr o code) | owl_arm (word_rrs o code)
            | owl_arm (rv_branch o code) | owl_arm (rv_rri o code)
            | owl_arm (rv_load o code) | owl_arm (rv_store o code)
            | owl_arm (rv_jal o code)
            | owl_arm (rv_jalr o code (Hjalr Hv)) ]
      end ].

(** For every RV32I word other than [lui], [auipc] and a [jalr] with an
    odd immediate, running the transcoded Owl word through the Owl
    dispatcher is running the RV32I word through the RV32I dispatcher:
    the same state, or the same absence of a defined result. *)
Theorem Transcode_refines_DispatchRv32i `{Host} (cpu : OwlCpu.t) (code : Z) :
  Z.land code 0x7f <> 0x37 -> Z.land code 0x7f <> 0x17 ->
  (Z.land code 0x707f = 0x67 -> Z.testbit code 20 = false) ->
  DispatchOwl cpu (Transcoded code) = DispatchRv32i cpu code.
Proof.
  intros Hlui Hauipc Hjalr. unfold Transcoded, Transcode, DispatchRv32i. cbv zeta.
  repeat
    (match goal with
     | |- _ (AsLE32 (default 0 (last (Assembler.code_ (switch ?v ?cs ?d))))) =
          switch _ ?cs' ?d' =>
         refine (switch_related
                   (fun a r =>
                      DispatchOwl cpu (AsLE32 (default 0 (last (Assembler.code_ a)))) = r)
                   v cs cs' d d' _ _);
         [repeat (constructor; [transcode_arm code Hlui Hauipc Hjalr|]);
          constructor
         |cbv beta]
     end).
  autounfold with asm_methods. owl_arm (word_op Opcode.Illegal).
Qed.

(** ** The model at work *)

(** [Li a0, 3; Li a1, 4; Add a2, a0, a1; Ebreak], assembled and run. *)
Example li_and_add :
  let host : Host := little in
  let a := Assembler.Ebreak
             (Assembler.Add 12 10 11 (Assembler.Li 11 4 (Assembler.Li 10 3 Assembler.empty))) in
  exists cpu,
    Run 10 (image_bytes (Assembler.code_ a) 64) = Some cpu /\
    OwlCpu.get_x cpu 10 = Some 3 /\ OwlCpu.get_x cpu 11 = Some 4 /\
    OwlCpu.get_x cpu 12 = Some 7 /\ OwlCpu.done cpu = true /\ OwlCpu.pc cpu = 12.
Proof.
  cbv zeta. eexists. split; [vm_compute; reflexivity|].
  repeat split; reflexivity.
Qed.

(** The Fibonacci image, which has no [lui], [auipc] or [jalr] with an odd
    immediate, prints the same lines run as RV32I and run as Owl after
    transcoding: 48 values and the exit status. *)
Example fib_same_trace :
  let host : Host := little in
  let rv := image_bytes LoadRv32iImage 352 in
  exists owl cpu cpu',
    Rv32iToOwl LoadRv32iImage = inr owl /\
    RunRv32i (Z.to_nat 10000) rv = Some cpu /\
    Run (Z.to_nat 10000) (image_bytes owl 352) = Some cpu' /\
    OwlCpu.out cpu = OwlCpu.out cpu' /\
    length (OwlCpu.out cpu) = 49%nat /\
    last (OwlCpu.out cpu) = Some (Exiting 0) /\
    OwlCpu.out cpu !! 47%nat = Some (PrintedFib 47 2971215073).
Proof.
  cbv zeta. eexists. eexists. eexists.
  split; [vm_compute; reflexivity|].
  split; [vm_compute; reflexivity|].
  split; [vm_compute; reflexivity|].
  repeat split; vm_compute; reflexivity.
Qed.

(** * Further properties *)

(** ** Byte order and the memory accessors *)

Lemma copy_from_length (m : Memory) (a : Z) (n : nat) (bs : list byte) :
  copy_from m a n = Some bs -> length bs = n.
Proof.
  unfold copy_from. destruct (in_bounds m a n) eqn:Hb; [|discriminate].
  apply in_bounds_spec in Hb. intros [= <-].
  rewrite length_take, length_drop. lia.
Qed.

(** A block copy leaves every position outside the block as it was. *)
Lemma copy_to_other (m m' : Memory) (a : Z) (bs : list byte) (j : nat) :
  copy_to m a bs = Some m' ->
  (j < Z.to_nat a \/ Z.to_nat a + length bs <= j)%nat ->
  m' !! j = m !! j.
Proof.
  unfold copy_to. destruct (in_bounds m a (length bs)) eqn:Hb; [|discriminate].
  apply in_bounds_spec in Hb. intros [= <-] [Hj | Hj].
  - rewrite lookup_app_l by (rewrite length_take; lia).
    apply lookup_take_lt. exact Hj.
  - rewrite lookup_app_r by (rewrite length_take; lia).
    rewrite lookup_app_r by (rewrite length_take; lia).
    rewrite lookup_drop, length_take. f_equal. lia.
Qed.

Lemma Read8_same_bytes (m m' : Memory) (j : Z) :
  length m' = length m -> m' !! Z.to_nat j = m !! Z.to_nat j ->
  Read8 m' j = Read8 m j.
Proof.
  intros Hl Hj. unfold Read8, in_bounds. rewrite Hl, Hj. reflexivity.
Qed.

(** [AsLE(uint32_t)] on either host: applying it twice gives the word
    back, and the bytes the host holds for [AsLE(w)] are the bytes of [w]
    with the low byte first. *)
Theorem AsLE32_gives_little_endian_bytes (host : Host) (w : Z) :
  0 <= w < 2 ^ 32 ->
  AsLE32 (AsLE32 w) = w /\ object_bytes 4 (AsLE32 w) = le_split 4 w.
Proof.
  intros Hw. split.
  - apply AsLE32_involutive. exact Hw.
  - apply object_bytes_AsLE32. exact Hw.
Qed.

Lemma AsLE32_gives_little_endian_bytes_witness :
  0 <= 0x12345678 < 2 ^ 32 /\
  @AsLE32 big 0x12345678 = 0x78563412 /\
  @object_bytes big 4 0x78563412 = [Byte.x78; Byte.x56; Byte.x34; Byte.x12].
Proof.
  split; [lia|].
  destruct (AsLE32_gives_little_endian_bytes big 0x12345678 ltac:(lia)) as [_ Hb].
  split; [reflexivity | exact Hb].
Defined.

Lemma read_after_write_witness :
  let host : Host := big in
  let m := replicate 8 Byte.x00 in
  exists m', Write32 m 3 0x11223344 = Some m' /\
             Read32 m' 3 = Some 0x11223344 /\
             copy_from m' 3 4 = Some [Byte.x44; Byte.x33; Byte.x22; Byte.x11].
Proof.
  cbv zeta. eexists. split; [vm_compute; reflexivity|].
  pose proof (@read_after_write big (replicate 8 Byte.x00) 3) as (_ & Hw & _).
  apply (Hw 0x11223344); [lia | vm_compute; reflexivity].
Defined.

(** The word accessors do not depend on the host: [Read32] returns the
    little-endian value of the four bytes at the address and [Write32]
    stores the four bytes of the word low byte first, on a little-endian
    and on a big-endian host alike. *)
Theorem word_accessors_host_independent (h1 h2 : Host) (m : Memory) (a v : Z) :
  0 <= v < 2 ^ 32 ->
  @Read32 h1 m a = (bs ← copy_from m a 4; Some (le_combine bs)) /\
  @Write32 h1 m a v = copy_to m a (le_split 4 v) /\
  @Read32 h1 m a = @Read32 h2 m a /\
  @Write32 h1 m a v = @Write32 h2 m a v.
Proof.
  intros Hv.
  assert (HR : forall h : Host,
             @Read32 h m a = (bs ← copy_from m a 4; Some (le_combine bs))).
  { intros h. unfold Read32. destruct (copy_from m a 4) as [bs|] eqn:E; [|reflexivity].
    cbn [mbind option_bind]. f_equal.
    apply object_value_AsLE32. eapply copy_from_length. exact E. }
  assert (HW : forall h : Host, @Write32 h m a v = copy_to m a (le_split 4 v)).
  { intros h. unfold Write32. cbv zeta. rewrite object_bytes_AsLE32 by exact Hv.
    reflexivity. }
  repeat split.
  - apply HR.
  - apply HW.
  - rewrite (HR h1), (HR h2). reflexivity.
  - rewrite (HW h1), (HW h2). reflexivity.
Qed.

Lemma word_accessors_host_independent_witness :
  let m := [Byte.x78; Byte.x56; Byte.x34; Byte.x12] in
  0 <= 0xcafe < 2 ^ 32 /\
  @Read32 big m 0 = Some 0x12345678 /\ @Read32 little m 0 = Some 0x12345678 /\
  @Write32 big m 0 0xcafe = @Write32 little m 0 0xcafe.
Proof.
  cbv zeta. split; [lia|].
  destruct (word_accessors_host_independent big little
              [Byte.x78; Byte.x56; Byte.x34; Byte.x12] 0 0xcafe ltac:(lia))
    as (_ & _ & _ & Hw).
  split; [reflexivity|]. split; [reflexivity | exact Hw].
Defined.

(** A store changes only the bytes it addresses: after a [Write8],
    [Write16] or [Write32] of [n] = 1, 2 or 4 bytes at [a] the memory has
    the size it had, and every byte outside [a, a + n) reads as before. *)
Theorem writes_leave_other_bytes `{Host} (m m' : Memory) (a v n : Z) (b : byte) :
  (n = 1 /\ Write8 m a b = Some m') \/
  (n = 2 /\ Write16 m a v = Some m') \/
  (n = 4 /\ Write32 m a v = Some m') ->
  length m' = length m /\
  forall j, j < a \/ a + n <= j -> Read8 m' j = Read8 m j.
Proof.
  assert (Hcopy : forall bs, copy_to m a bs = Some m' ->
            length m' = length m /\
            forall j, j < a \/ a + Z.of_nat (length bs) <= j -> Read8 m' j = Read8 m j).
  { intros bs Hc. pose proof (copy_to_length _ _ _ _ Hc) as Hl.
    split; [exact Hl|]. intros j Hj.
    destruct (Z.ltb_spec j 0) as [Hneg | Hpos].
    - unfold Read8, in_bounds. replace (0 <=? j) with false by lia. reflexivity.
    - apply Read8_same_bytes; [exact Hl|].
      eapply copy_to_other; [exact Hc|].
      unfold copy_to in Hc. destruct (in_bounds m a (length bs)) eqn:Hb; [|discriminate].
      apply in_bounds_spec in Hb. lia. }
  intros [[-> Hw] | [[-> Hw] | [-> Hw]]].
  - unfold Write8 in Hw. destruct (in_bounds m a 1) eqn:Hb; [|discriminate].
    apply in_bounds_spec in Hb. injection Hw as <-.
    split; [apply length_insert|]. intros j Hj.
    destruct (Z.ltb_spec j 0) as [Hneg | Hpos].
    + unfold Read8, in_bounds. replace (0 <=? j) with false by lia. reflexivity.
    + apply Read8_same_bytes; [apply length_insert|].
      apply list_lookup_insert_ne. lia.
  - unfold Write16 in Hw. cbv zeta in Hw.
    destruct (Hcopy _ Hw) as [Hl Hj]. rewrite object_bytes_length in Hj.
    split; [exact Hl | exact Hj].
  - unfold Write32 in Hw. cbv zeta in Hw.
    destruct (Hcopy _ Hw) as [Hl Hj]. rewrite object_bytes_length in Hj.
    split; [exact Hl | exact Hj].
Qed.

Lemma writes_leave_other_bytes_witness :
  let host : Host := little in
  let m := [Byte.x01; Byte.x02; Byte.x03; Byte.x04; Byte.x05; Byte.x06] in
  exists m', Write16 m 2 0xbeef = Some m' /\
             length m' = 6%nat /\ Read8 m' 1 = Some Byte.x02 /\ Read8 m' 4 = Some Byte.x05.
Proof.
  cbv zeta. eexists. split; [vm_compute; reflexivity|].
  destruct (@writes_leave_other_bytes little
              [Byte.x01; Byte.x02; Byte.x03; Byte.x04; Byte.x05; Byte.x06]
              [Byte.x01; Byte.x02; Byte.xef; Byte.xbe; Byte.x05; Byte.x06]
              2 0xbeef 2 Byte.x00) as [Hl Hj].
  - right. left. split; [reflexivity | vm_compute; reflexivity].
  - split; [exact Hl|]. split.
    + exact (Hj 1 ltac:(lia)).
    + exact (Hj 4 ltac:(lia)).
Defined.

(** ** Loads after stores *)

(** The value a method leaves in a register other than 0, through its
    closing [x[0] = 0]. *)
Lemma get_after_write (cpu cpu1 cpu2 : OwlCpu.t) (r v : Z) :
  0 < r ->
  OwlCpu.set_x cpu r v = Some cpu1 -> OwlCpu.set_x cpu1 0 0 = Some cpu2 ->
  OwlCpu.get_x cpu2 r = Some v.
Proof.
  intros Hr H1 H2.
  rewrite (get_set_x_other _ _ 0 r 0 H2) by lia.
  eapply get_set_x_same. exact H1.
Qed.

Lemma write_register_defined (cpu : OwlCpu.t) (r v : Z) :
  length (OwlCpu.x cpu) = 32%nat -> 0 < r < 32 ->
  (cpu1 ← OwlCpu.set_x cpu r v; cpu2 ← OwlCpu.set_x cpu1 0 0; OwlCpu.get_x cpu2 r)
  = Some v.
Proof.
  intros Hl Hr.
  destruct (OwlCpu.set_x cpu r v) as [cpu1|] eqn:E1;
    [|rewrite set_x_defined in E1 by lia; discriminate].
  cbn [mbind option_bind].
  destruct (OwlCpu.set_x cpu1 0 0) as [cpu2|] eqn:E2.
  - cbn [mbind option_bind]. eapply get_after_write; [|exact E1|exact E2]. lia.
  - apply set_x_frame in E1. destruct E1 as (_ & _ & _ & _ & _ & Ex).
    rewrite set_x_defined in E2 by (rewrite ?Ex, ?length_insert; lia). discriminate.
Qed.

Lemma mbind_assoc_get {A : Type} (m : option OwlCpu.t) (k : OwlCpu.t -> option OwlCpu.t)
    (g : OwlCpu.t -> option A) :
  (c ← (c1 ← m; k c1); g c) = (c1 ← m; c ← k c1; g c).
Proof. destruct m; reflexivity. Qed.

(** A word stored by [Sw] is what [Lw] loads from the same base register
    and offset, on either host and at any alignment. *)
Theorem Sw_then_Lw `{Host} (cpu cpu1 : OwlCpu.t) (r0 r1 r2 imm v : Z) :
  length (OwlCpu.x cpu) = 32%nat -> 0 < r2 < 32 ->
  OwlCpu.get_x cpu r0 = Some v -> 0 <= v < 2 ^ 32 ->
  OwlCpu.Sw r0 imm r1 cpu = Some cpu1 ->
  (cpu2 ← OwlCpu.Lw r2 imm r1 cpu1; OwlCpu.get_x cpu2 r2) = Some v.
Proof.
  intros Hl Hr Hv Hrange Hs. unfold OwlCpu.Sw in Hs. rewrite Hv in Hs.
  destruct (OwlCpu.get_x cpu r1) as [a|] eqn:E; [|discriminate].
  cbn [mbind option_bind] in Hs.
  destruct (Write32 _ _ _) as [m|] eqn:E1; [|discriminate].
  injection Hs as <-.
  unfold OwlCpu.Lw.
  change (OwlCpu.get_x (OwlCpu.with_memory cpu m) r1) with (OwlCpu.get_x cpu r1).
  rewrite E. cbn [mbind option_bind OwlCpu.memory OwlCpu.with_memory].
  rewrite (Read32_Write32 _ _ _ _ Hrange E1). cbn [mbind option_bind].
  rewrite mbind_assoc_get. apply write_register_defined; assumption.
Qed.

Lemma Sw_then_Lw_witness :
  let host : Host := big in
  let cpu := OwlCpu.mk 0 4 (<[5%nat := 0xdeadbeef]> (<[6%nat := 3]> (replicate 32 0)))
               false (replicate 16 Byte.x00) [] in
  exists cpu1, OwlCpu.Sw 5 2 6 cpu = Some cpu1 /\
    (cpu2 ← OwlCpu.Lw 7 2 6 cpu1; OwlCpu.get_x cpu2 7) = Some 0xdeadbeef.
Proof.
  cbv zeta.
  set (cpu := OwlCpu.mk 0 4 _ false _ []).
  destruct (@OwlCpu.Sw big 5 2 6 cpu) as [cpu1|] eqn:E; [|vm_compute in E; discriminate].
  exists cpu1. split; [reflexivity|].
  apply (@Sw_then_Lw big cpu cpu1 5 6 7 2 0xdeadbeef);
    [vm_compute; reflexivity | lia | vm_compute; reflexivity | lia | exact E].
Defined.

(** A byte stored by [Sb] is the low byte of the register; [Lbu] loads it
    zero-extended and [Lb] loads it sign-extended to 32 bits. *)
Theorem Sb_then_Lbu_Lb (cpu cpu1 : OwlCpu.t) (r0 r1 r2 imm v : Z) :
  length (OwlCpu.x cpu) = 32%nat -> 0 < r2 < 32 ->
  OwlCpu.get_x cpu r0 = Some v ->
  OwlCpu.Sb r0 imm r1 cpu = Some cpu1 ->
  (cpu2 ← OwlCpu.Lbu r2 imm r1 cpu1; OwlCpu.get_x cpu2 r2) = Some (v mod 256) /\
  (cpu2 ← OwlCpu.Lb r2 imm r1 cpu1; OwlCpu.get_x cpu2 r2) = Some (u32 (i8 v)).
Proof.
  intros Hl Hr Hv Hs. unfold OwlCpu.Sb in Hs. rewrite Hv in Hs.
  destruct (OwlCpu.get_x cpu r1) as [a|] eqn:E; [|discriminate].
  cbn [mbind option_bind] in Hs.
  destruct (Write8 _ _ _) as [m|] eqn:E1; [|discriminate].
  injection Hs as <-.
  unfold OwlCpu.Lbu, OwlCpu.Lb.
  change (OwlCpu.get_x (OwlCpu.with_memory cpu m) r1) with (OwlCpu.get_x cpu r1).
  rewrite E. cbn [mbind option_bind OwlCpu.memory OwlCpu.with_memory].
  rewrite (Read8_Write8 _ _ _ _ E1). cbn [mbind option_bind].
  rewrite !mbind_assoc_get, byte.unsigned_of_Z. unfold byte.wrap.
  change (2 ^ 8) with 256.
  split.
  - unfold u8. change (2 ^ 8) with 256. rewrite Z.mod_mod by lia.
    apply write_register_defined; assumption.
  - replace (i8 (v mod 256)) with (i8 v).
    + apply write_register_defined; assumption.
    + unfold i8. change (2 ^ 8) with 256.
      rewrite Zplus_mod_idemp_l. reflexivity.
Qed.

Lemma Sb_then_Lbu_Lb_witness :
  let cpu := OwlCpu.mk 0 4 (<[5%nat := 0x1234abf0]> (<[6%nat := 3]> (replicate 32 0)))
               false (replicate 16 Byte.x00) [] in
  exists cpu1, OwlCpu.Sb 5 2 6 cpu = Some cpu1 /\
    (cpu2 ← OwlCpu.Lbu 7 2 6 cpu1; OwlCpu.get_x cpu2 7) = Some 0xf0 /\
    (cpu2 ← OwlCpu.Lb 7 2 6 cpu1; OwlCpu.get_x cpu2 7) = Some 0xfffffff0.
Proof.
  cbv zeta.
  set (cpu := OwlCpu.mk 0 4 _ false _ []).
  destruct (OwlCpu.Sb 5 2 6 cpu) as [cpu1|] eqn:E; [|vm_compute in E; discriminate].
  exists cpu1. split; [reflexivity|].
  apply (Sb_then_Lbu_Lb cpu cpu1 5 6 7 2 0x1234abf0);
    [vm_compute; reflexivity | lia | vm_compute; reflexivity | exact E].
Defined.

(** On a little-endian host a half word stored by [Sh] is the low half of
    the register; [Lhu] loads it zero-extended and [Lh] sign-extended. *)
Theorem Sh_then_Lhu_Lh_little_endian `{Host} (cpu cpu1 : OwlCpu.t) (r0 r1 r2 imm v : Z) :
  native = little ->
  length (OwlCpu.x cpu) = 32%nat -> 0 < r2 < 32 ->
  OwlCpu.get_x cpu r0 = Some v ->
  OwlCpu.Sh r0 imm r1 cpu = Some cpu1 ->
  (cpu2 ← OwlCpu.Lhu r2 imm r1 cpu1; OwlCpu.get_x cpu2 r2) = Some (v mod 65536) /\
  (cpu2 ← OwlCpu.Lh r2 imm r1 cpu1; OwlCpu.get_x cpu2 r2) = Some (u32 (i16 v)).
Proof.
  intros Hn Hl Hr Hv Hs. unfold OwlCpu.Sh in Hs. cbv zeta in Hs. rewrite Hv in Hs.
  destruct (OwlCpu.get_x cpu r1) as [a|] eqn:E; [|discriminate].
  cbn [mbind option_bind] in Hs.
  destruct (Write16 _ _ _) as [m|] eqn:E1; [|discriminate].
  injection Hs as <-.
  unfold OwlCpu.Lhu, OwlCpu.Lh.
  change (OwlCpu.get_x (OwlCpu.with_memory cpu m) r1) with (OwlCpu.get_x cpu r1).
  rewrite E. cbn [mbind option_bind OwlCpu.memory OwlCpu.with_memory].
  assert (Hu : 0 <= u16 v < 2 ^ 16) by (apply Z.mod_pos_bound; lia).
  rewrite (Read16_Write16_little _ _ _ _ Hn Hu E1). cbn [mbind option_bind].
  rewrite !mbind_assoc_get.
  assert (Hz : u16 (u16 v) = v mod 65536).
  { unfold u16. change (2 ^ 16) with 65536. apply Z.mod_mod. lia. }
  assert (Hs : i16 (u16 v) = i16 v).
  { unfold i16, u16. rewrite Zplus_mod_idemp_l. reflexivity. }
  rewrite Hz, Hs.
  split; apply write_register_defined; assumption.
Qed.

Lemma Sh_then_Lhu_Lh_little_endian_witness :
  let host : Host := little in
  let cpu := OwlCpu.mk 0 4 (<[5%nat := 0x1234abf0]> (<[6%nat := 3]> (replicate 32 0)))
               false (replicate 16 Byte.x00) [] in
  native = little /\
  exists cpu1, OwlCpu.Sh 5 2 6 cpu = Some cpu1 /\
    (cpu2 ← OwlCpu.Lhu 7 2 6 cpu1; OwlCpu.get_x cpu2 7) = Some 0xabf0 /\
    (cpu2 ← OwlCpu.Lh 7 2 6 cpu1; OwlCpu.get_x cpu2 7) = Some 0xffffabf0.
Proof.
  cbv zeta. split; [reflexivity|].
  set (cpu := OwlCpu.mk 0 4 _ false _ []).
  destruct (@OwlCpu.Sh little 5 2 6 cpu) as [cpu1|] eqn:E; [|vm_compute in E; discriminate].
  exists cpu1. split; [reflexivity|].
  apply (@Sh_then_Lhu_Lh_little_endian little cpu cpu1 5 6 7 2 0x1234abf0);
    [reflexivity | vm_compute; reflexivity | lia | vm_compute; reflexivity | exact E].
Defined.

(** ** Control transfer *)

Lemma get_x_Forall (P : Z -> Prop) (cpu : OwlCpu.t) (r v : Z) :
  Forall P (OwlCpu.x cpu) -> OwlCpu.get_x cpu r = Some v -> P v.
Proof.
  intros HP Hg. unfold OwlCpu.get_x in Hg.
  destruct ((0 <=? r) && (r <? 32)); [|discriminate].
  eapply Forall_lookup_1; eassumption.
Qed.

Lemma x0_insert_id (cpu : OwlCpu.t) :
  x0_zero cpu -> <[0%nat := 0]> (OwlCpu.x cpu) = OwlCpu.x cpu.
Proof. intros Hx. apply list_insert_id. exact Hx. Qed.

(** [Call] leaves the address of the next instruction in [ra] and jumps
    relative to its own address; a [Ret] run in any later state in which
    [ra] still holds that value continues at the instruction after the
    call. *)
Theorem Call_then_Ret (cpu : OwlCpu.t) (offs20 : Z) :
  length (OwlCpu.x cpu) = 32%nat ->
  exists cpu1,
    OwlCpu.Call offs20 cpu = Some cpu1 /\
    OwlCpu.nextPc cpu1 = u32 (OwlCpu.pc cpu + offs20) /\
    OwlCpu.get_x cpu1 ra = Some (OwlCpu.nextPc cpu) /\
    forall cpu2, OwlCpu.get_x cpu2 ra = OwlCpu.get_x cpu1 ra ->
      OwlCpu.Ret cpu2 = Some (OwlCpu.with_nextPc cpu2 (OwlCpu.nextPc cpu)).
Proof.
  intros Hl.
  pose (cpu1 := OwlCpu.with_nextPc
                  (OwlCpu.with_x cpu (<[Z.to_nat ra := OwlCpu.nextPc cpu]> (OwlCpu.x cpu)))
                  (u32 (OwlCpu.pc cpu + offs20))).
  assert (Hra : OwlCpu.get_x cpu1 ra = Some (OwlCpu.nextPc cpu)).
  { unfold OwlCpu.get_x, ra. cbn. apply list_lookup_insert_eq. rewrite Hl. unfold ra. lia. }
  exists cpu1. split.
  { unfold OwlCpu.Call.
    rewrite (set_x_defined cpu ra _ Hl) by (unfold ra; lia). reflexivity. }
  split; [reflexivity|]. split; [exact Hra|].
  intros cpu2 H2. unfold OwlCpu.Ret. rewrite H2, Hra. reflexivity.
Qed.

Lemma Call_then_Ret_witness :
  let cpu := OwlCpu.mk 8 12 (replicate 32 0) false [] [] in
  length (OwlCpu.x cpu) = 32%nat /\
  exists cpu1, OwlCpu.Call 64 cpu = Some cpu1 /\ OwlCpu.nextPc cpu1 = 72 /\
    option_map OwlCpu.nextPc (OwlCpu.Ret (OwlCpu.with_pc cpu1 100)) = Some 12.
Proof.
  cbv zeta. split; [reflexivity|].
  destruct (Call_then_Ret (OwlCpu.mk 8 12 (replicate 32 0) false [] []) 64 eq_refl)
    as (cpu1 & Hc & Hn & _ & Hr).
  exists cpu1. split; [exact Hc|]. split; [exact Hn|].
  rewrite (Hr (OwlCpu.with_pc cpu1 100) eq_refl). reflexivity.
Defined.

(** The Owl-only instructions are the usual pseudo-instructions.  In a
    state whose registers hold 32-bit values, register 0 holding zero,
    [J] is [Jal] with [zero], [Call] is [Jal] with [ra], [Ret] is
    [Jalr zero, 0(ra)], [Li] is [Addi] from [zero] and [Mv] is [Addi] of
    zero: the same state, or the same absence of one. *)
Theorem owl_only_instructions_expand (cpu : OwlCpu.t) (r0 r1 imm offs : Z) :
  length (OwlCpu.x cpu) = 32%nat -> x0_zero cpu ->
  Forall (fun v => 0 <= v < 2 ^ 32) (OwlCpu.x cpu) ->
  OwlCpu.J offs cpu = OwlCpu.Jal zero offs cpu /\
  OwlCpu.Call offs cpu = OwlCpu.Jal ra offs cpu /\
  OwlCpu.Ret cpu = OwlCpu.Jalr zero 0 ra cpu /\
  OwlCpu.Li r0 imm cpu = OwlCpu.Addi r0 zero imm cpu /\
  OwlCpu.Mv r0 r1 cpu = OwlCpu.Addi r0 r1 0 cpu.
Proof.
  intros Hl Hx Hr. pose proof (x0_insert_id cpu Hx) as Hid.
  assert (H0 : forall c v, OwlCpu.x c = <[0%nat := v]> (OwlCpu.x cpu) ->
             OwlCpu.set_x c 0 0 = Some (OwlCpu.with_x c (OwlCpu.x cpu))).
  { intros c v Hc. rewrite set_x_defined by (rewrite ?Hc, ?length_insert; lia).
    rewrite Hc. change (Z.to_nat 0) with 0%nat.
    rewrite list_insert_insert_eq, Hid. reflexivity. }
  repeat split.
  - unfold OwlCpu.J, OwlCpu.Jal, zero.
    rewrite (set_x_defined cpu 0 _ Hl) by lia. cbn [mbind option_bind].
    rewrite (H0 _ (OwlCpu.nextPc cpu)) by reflexivity.
    destruct cpu; reflexivity.
  - unfold OwlCpu.Call, OwlCpu.Jal.
    rewrite (set_x_defined cpu ra _ Hl) by (unfold ra; lia). cbn [mbind option_bind].
    rewrite set_x_defined by (cbn; rewrite ?length_insert; unfold ra; lia).
    f_equal. destruct cpu as [pc nextPc x done memory out]. cbn in *.
    unfold OwlCpu.with_x, OwlCpu.with_nextPc. cbn. f_equal.
    symmetry. apply list_insert_id.
    rewrite list_lookup_insert_ne by (unfold ra; lia). exact Hx.
  - unfold OwlCpu.Ret, OwlCpu.Jalr, zero.
    destruct (OwlCpu.get_x cpu ra) as [b|] eqn:Eb; [|reflexivity].
    cbn [mbind option_bind].
    rewrite (set_x_defined cpu 0 _ Hl) by lia. cbn [mbind option_bind].
    rewrite (H0 _ (OwlCpu.nextPc cpu)) by reflexivity.
    rewrite u32_add_i32, Z.add_0_r, u32_small by (exact (get_x_Forall _ _ _ _ Hr Eb)).
    destruct cpu; reflexivity.
  - unfold OwlCpu.Li, OwlCpu.Addi, zero. unfold x0_zero in Hx. rewrite Hx.
    cbn [mbind option_bind]. rewrite Z.add_0_l. reflexivity.
  - unfold OwlCpu.Mv, OwlCpu.Addi.
    destruct (OwlCpu.get_x cpu r1) as [a|] eqn:Ea; [|reflexivity].
    cbn [mbind option_bind].
    rewrite Z.add_0_r, u32_small by (exact (get_x_Forall _ _ _ _ Hr Ea)).
    reflexivity.
Qed.

Lemma owl_only_instructions_expand_witness :
  let cpu := OwlCpu.init (replicate 64 Byte.x00) in
  (length (OwlCpu.x cpu) = 32%nat /\ x0_zero cpu) /\
  OwlCpu.Call 16 cpu = OwlCpu.Jal ra 16 cpu /\
  OwlCpu.Mv 5 sp cpu = OwlCpu.Addi 5 sp 0 cpu.
Proof.
  cbv zeta.
  assert (Hl : length (OwlCpu.x (OwlCpu.init (replicate 64 Byte.x00))) = 32%nat)
    by reflexivity.
  assert (Hx : x0_zero (OwlCpu.init (replicate 64 Byte.x00))) by reflexivity.
  assert (Hr : Forall (fun v => 0 <= v < 2 ^ 32)
                 (OwlCpu.x (OwlCpu.init (replicate 64 Byte.x00)))).
  { apply Forall_insert; [apply Forall_replicate; lia | apply u32_range]. }
  destruct (owl_only_instructions_expand _ 5 sp 0 16 Hl Hx Hr) as (_ & Hc & _ & _ & Hm).
  split; [split; assumption|]. split; assumption.
Defined.

(** Of each pair of opposite branches exactly one is taken: the taken one
    sets [nextPc] to the branch's own address plus the offset, the other
    leaves the whole state as it was.  [Beq]/[Bne] compare for equality,
    [Blt]/[Bge] as signed and [Bltu]/[Bgeu] as unsigned 32-bit values. *)
Theorem opposite_branches (cpu : OwlCpu.t) (r0 r1 offs12 a b : Z) :
  OwlCpu.get_x cpu r0 = Some a -> OwlCpu.get_x cpu r1 = Some b ->
  let taken := Some (OwlCpu.with_nextPc cpu (u32 (OwlCpu.pc cpu + offs12))) in
  let fall := Some cpu in
  (OwlCpu.Beq r0 r1 offs12 cpu, OwlCpu.Bne r0 r1 offs12 cpu)
    = (if a =? b then (taken, fall) else (fall, taken)) /\
  (OwlCpu.Blt r0 r1 offs12 cpu, OwlCpu.Bge r0 r1 offs12 cpu)
    = (if i32 a <? i32 b then (taken, fall) else (fall, taken)) /\
  (OwlCpu.Bltu r0 r1 offs12 cpu, OwlCpu.Bgeu r0 r1 offs12 cpu)
    = (if a <? b then (taken, fall) else (fall, taken)).
Proof.
  intros Ha Hb. cbv zeta.
  unfold OwlCpu.Beq, OwlCpu.Bne, OwlCpu.Blt, OwlCpu.Bge, OwlCpu.Bltu, OwlCpu.Bgeu.
  rewrite Ha, Hb. cbn [mbind option_bind]. cbv zeta.
  rewrite !Z.geb_leb.
  repeat split.
  - destruct (a =? b); reflexivity.
  - destruct (Z.ltb_spec (i32 a) (i32 b)), (Z.leb_spec (i32 b) (i32 a));
      try lia; reflexivity.
  - destruct (Z.ltb_spec a b), (Z.leb_spec b a); try lia; reflexivity.
Qed.

Lemma opposite_branches_witness :
  let cpu := OwlCpu.mk 8 12 (<[5%nat := 0xffffffff]> (<[6%nat := 1]> (replicate 32 0)))
               false [] [] in
  option_map OwlCpu.nextPc (OwlCpu.Blt 5 6 (-8) cpu) = Some 0 /\
  OwlCpu.Bge 5 6 (-8) cpu = Some cpu /\
  OwlCpu.Bltu 5 6 (-8) cpu = Some cpu.
Proof.
  cbv zeta.
  set (cpu := OwlCpu.mk 8 12 _ false [] []).
  assert (Ha : OwlCpu.get_x cpu 5 = Some 0xffffffff) by (vm_compute; reflexivity).
  assert (Hb : OwlCpu.get_x cpu 6 = Some 1) by (vm_compute; reflexivity).
  destruct (opposite_branches cpu 5 6 (-8) 0xffffffff 1 Ha Hb) as (_ & Hs & Hu).
  cbv zeta in Hs, Hu.
  change (i32 0xffffffff <? i32 1) with true in Hs.
  change (0xffffffff <? 1) with false in Hu. cbv iota in Hs, Hu.
  apply pair_equal_spec in Hs, Hu. destruct Hs as [Hlt Hge]. destruct Hu as [Hltu _].
  rewrite Hlt. split; [reflexivity|]. split; [exact Hge | exact Hltu].
Defined.

(** ** What an instruction leaves alone *)

Lemma Write8_length (m m' : Memory) (a : Z) (b : byte) :
  Write8 m a b = Some m' -> length m' = length m.
Proof.
  unfold Write8. destruct (in_bounds m a 1); [|discriminate].
  intros [= <-]. apply length_insert.
Qed.

Lemma Write16_length `{Host} (m m' : Memory) (a v : Z) :
  Write16 m a v = Some m' -> length m' = length m.
Proof. apply copy_to_length. Qed.

Lemma Write32_length `{Host} (m m' : Memory) (a v : Z) :
  Write32 m a v = Some m' -> length m' = length m.
Proof. apply copy_to_length. Qed.

(** The facts a finished method call leaves in the context: what each
    register write and each store did to the state. *)
Ltac frame_facts :=
  repeat match goal with
         | E : OwlCpu.set_x _ _ _ = Some _ |- _ =>
             apply set_x_frame in E; destruct E as (? & ? & ? & ? & ? & ?)
         | E : Write8 _ _ _ = Some _ |- _ => apply Write8_length in E
         | E : Write16 _ _ _ = Some _ |- _ => apply Write16_length in E
         | E : Write32 _ _ _ = Some _ |- _ => apply Write32_length in E
         | E : Some _ = Some ?c |- _ => is_var c; injection E as <-
         end.

Ltac frame_goal :=
  cbn [OwlCpu.pc OwlCpu.nextPc OwlCpu.x OwlCpu.done OwlCpu.memory OwlCpu.out
       OwlCpu.with_pc OwlCpu.with_nextPc OwlCpu.with_x OwlCpu.with_done
       OwlCpu.with_memory OwlCpu.print] in *;
  repeat match goal with
         | E : OwlCpu.x _ = <[_ := _]> _ |- _ =>
             apply (f_equal (@length Z)) in E; rewrite length_insert in E
         end;
  repeat split;
  first [ congruence
        | intros; congruence
        | intros; reflexivity
        | exists []; rewrite app_nil_r; congruence
        | eexists; reflexivity ].

(** ** Words that are no instruction *)

Lemma switch_miss {A : Type} (v : Z) (cases : list (Z * A)) (d : A) :
  Forall (fun p => v <> fst p) cases -> switch v cases d = d.
Proof.
  induction 1 as [|[c a] cs Hc _ IH]; [reflexivity|].
  cbn [switch]. cbn in Hc. destruct (Z.eqb_spec v c); [contradiction | exact IH].
Qed.

(** A word whose low seven bits are 0 or above 45 names no Owl opcode:
    the dispatcher calls [Illegal], which stops the machine and changes
    nothing else. *)
Theorem DispatchOwl_unknown_opcode_halts `{Host} (cpu : OwlCpu.t) (ins : Z) :
  Z.land ins 0x7f = 0 \/ 46 <= Z.land ins 0x7f ->
  DispatchOwl cpu ins = Some (OwlCpu.with_done cpu true).
Proof.
  intros Hop. unfold DispatchOwl. cbv zeta.
  rewrite switch_miss; [reflexivity|].
  cbn [encode.opc]. repeat (constructor; [cbn [fst]; lia|]). constructor.
Qed.

Lemma DispatchOwl_unknown_opcode_halts_witness :
  let host : Host := little in
  let cpu := OwlCpu.init [] in
  (Z.land 0 0x7f = 0 \/ 46 <= Z.land 0 0x7f) /\
  DispatchOwl cpu 0 = Some (OwlCpu.with_done cpu true) /\
  DispatchOwl cpu 0xffffffff = Some (OwlCpu.with_done cpu true).
Proof.
  cbv zeta. split; [left; reflexivity|]. split.
  - apply (@DispatchOwl_unknown_opcode_halts little). left. reflexivity.
  - apply (@DispatchOwl_unknown_opcode_halts little). right. apply Z.leb_le. reflexivity.
Defined.
(** The sizes of the register file and of the memory, and a set [done],
    survive every method call. *)
Lemma execute_sizes `{Host} (c : Instruction.t) (cpu cpu' : OwlCpu.t) :
  execute c cpu = Some cpu' ->
  length (OwlCpu.x cpu') = length (OwlCpu.x cpu) /\
  length (OwlCpu.memory cpu') = length (OwlCpu.memory cpu) /\
  (OwlCpu.done cpu = true -> OwlCpu.done cpu' = true).
Proof.
  intros Hc.
  destruct c; cbn [execute] in Hc; autounfold with owl_methods in Hc;
    cbn [switch] in Hc; cbv zeta in Hc;
    repeat first
      [ progress binds
      | match type of Hc with
        | (if ?b then _ else _) = Some _ => destruct b
        | Some (if ?b then _ else _) = Some _ => destruct b
        end ];
    frame_facts; frame_goal.
Qed.

(** Every method of the executor, whatever its operands: it does not
    move [pc] (only [Fetch] does), it keeps the size of the register file
    and of the memory, it appends to the output at most, and it never
    clears [done].  Only [Sb], [Sh] and [Sw] change the memory, only
    [Ecall] writes output, and only [Ecall], [Ebreak] and [Illegal] can
    set [done]. *)
Theorem execute_frame `{Host} (c : Instruction.t) (cpu cpu' : OwlCpu.t) :
  execute c cpu = Some cpu' ->
  OwlCpu.pc cpu' = OwlCpu.pc cpu /\
  length (OwlCpu.x cpu') = length (OwlCpu.x cpu) /\
  length (OwlCpu.memory cpu') = length (OwlCpu.memory cpu) /\
  (exists o, OwlCpu.out cpu' = OwlCpu.out cpu ++ o) /\
  (OwlCpu.done cpu = true -> OwlCpu.done cpu' = true) /\
  match c with
  | Instruction.Sb _ _ _ | Instruction.Sh _ _ _ | Instruction.Sw _ _ _ =>
      OwlCpu.out cpu' = OwlCpu.out cpu /\ OwlCpu.done cpu' = OwlCpu.done cpu
  | Instruction.Ecall =>
      OwlCpu.memory cpu' = OwlCpu.memory cpu
  | Instruction.Ebreak | Instruction.Illegal _ =>
      OwlCpu.memory cpu' = OwlCpu.memory cpu /\ OwlCpu.out cpu' = OwlCpu.out cpu
  | _ =>
      OwlCpu.memory cpu' = OwlCpu.memory cpu /\ OwlCpu.out cpu' = OwlCpu.out cpu /\
      OwlCpu.done cpu' = OwlCpu.done cpu
  end.
Proof.
  intros Hc.
  destruct c; cbn [execute] in Hc; autounfold with owl_methods in Hc;
    cbn [switch] in Hc; cbv zeta in Hc;
    repeat first
      [ progress binds
      | match type of Hc with
        | (if ?b then _ else _) = Some _ => destruct b
        | Some (if ?b then _ else _) = Some _ => destruct b
        end ];
    frame_facts; frame_goal.
Qed.


Lemma execute_frame_witness :
  let host : Host := little in
  let cpu := OwlCpu.init (replicate 16 Byte.x00) in
  exists cpu', execute (Instruction.Sw ra (-4) sp) cpu = Some cpu' /\
    OwlCpu.pc cpu' = 0 /\ length (OwlCpu.memory cpu') = 16%nat /\ OwlCpu.out cpu' = [].
Proof.
  cbv zeta.
  destruct (@execute little (Instruction.Sw ra (-4) sp) (OwlCpu.init (replicate 16 Byte.x00)))
    as [cpu'|] eqn:E; [|vm_compute in E; discriminate].
  exists cpu'. split; [reflexivity|].
  destruct (@execute_frame little _ _ _ E) as (Hpc & _ & Hm & _ & _ & Ho & _).
  split; [exact Hpc|]. split; [exact Hm | exact Ho].
Defined.


(** ** More on the transcoder *)

Lemma Transcode_refines_DispatchRv32i_witness :
  let host : Host := big in
  let cpu := OwlCpu.init (replicate 16 Byte.x00) in
  let addi := 0xff010113 in
  (Z.land addi 0x7f <> 0x37 /\ Z.land addi 0x7f <> 0x17) /\
  DispatchOwl cpu (Transcoded addi) = DispatchRv32i cpu addi /\
  (cpu' ← DispatchRv32i cpu addi; OwlCpu.get_x cpu' sp) = Some 0.
Proof.
  cbv zeta.
  assert (H1 : Z.land 0xff010113 0x7f <> 0x37) by (vm_compute; discriminate).
  assert (H2 : Z.land 0xff010113 0x7f <> 0x17) by (vm_compute; discriminate).
  assert (H3 : Z.land 0xff010113 0x707f = 0x67 -> Z.testbit 0xff010113 20 = false)
    by (vm_compute; discriminate).
  split; [split; assumption|].
  split; [|vm_compute; reflexivity].
  exact (@Transcode_refines_DispatchRv32i big _ 0xff010113 H1 H2 H3).
Defined.

(** An arm of a decision list whose pattern differs from the word in the
    bits [M], the word's bits [M] being known. *)
Ltac arm_differs Hlow M :=
  let E := fresh "E" in
  intros E; cbn [fst] in E;
  apply (f_equal (fun z => Z.land z M)) in E; cbv beta in E;
  rewrite <- ?Z.land_assoc in E;
  try change (Z.land 0xfe00707f M) with M in E;
  try change (Z.land 0x0000707f M) with M in E;
  try change (Z.land 0x0000007f M) with M in E;
  first [ rewrite Hlow in E; vm_compute in E; discriminate E
        | apply Hlow; rewrite E; reflexivity ].

Ltac arms_differ Hlow M :=
  repeat (constructor; [arm_differs Hlow M|]); constructor.

Lemma uimm20_masked (v : Z) : Z.land (encode.uimm20 v) 0xfffff000 = encode.uimm20 v.
Proof. fields. bits. Qed.

(** The word [Assembler::Lui] or [Assembler::Auipc] emits for an RV32I
    word, and what the Owl dispatcher decodes from it. *)
Lemma rv_upper (o : Opcode.t) (code : Z) :
  let u := encode.opc o .| encode.r0 (DecodeRv32.Rd code)
           .| encode.uimm20 (DecodeRv32.Uimmediate code) in
  0 <= u < 2 ^ 32 /\ Z.land u 0x7f = encode.opc o /\
  decode.r0 u = DecodeRv32.Rd code /\
  decode.uimm20 u = u32 (DecodeRv32.Uimmediate code * 4096).
Proof.
  cbv zeta.
  pose proof (word_rj o code (encode.uimm20 (DecodeRv32.Uimmediate code))) as W.
  cbv zeta in W. rewrite uimm20_masked in W. destruct W as (W1 & W2 & W3 & W4).
  repeat split; try assumption; try apply W1.
  unfold decode.uimm20. rewrite W4, encode_uimm20_value, Z.shiftl_mul_pow2 by lia.
  reflexivity.
Qed.

(** Every [lui] and [auipc]: run directly, the instruction uses the
    immediate [code & 0xfffff000]; transcoded, the Owl instruction uses
    that immediate shifted left by twelve more bits (modulo 2^32), because
    [Transcode] passes the shifted value to an assembler method that
    shifts its operand itself. *)
Theorem Transcode_upper_immediate_shifted_twice `{Host} (cpu : OwlCpu.t) (code : Z) :
  Z.land code 0x7f = 0x37 \/ Z.land code 0x7f = 0x17 ->
  let rd := DecodeRv32.Rd code in
  let imm := DecodeRv32.Uimmediate code in
  if Z.land code 0x7f =? 0x37 then
    DispatchRv32i cpu code = OwlCpu.Lui rd imm cpu /\
    DispatchOwl cpu (Transcoded code) = OwlCpu.Lui rd (u32 (imm * 4096)) cpu
  else
    DispatchRv32i cpu code = OwlCpu.Auipc rd imm cpu /\
    DispatchOwl cpu (Transcoded code) = OwlCpu.Auipc rd (u32 (imm * 4096)) cpu.
Proof.
  intros Hlow. cbv zeta. unfold Transcoded, Transcode, DispatchRv32i. cbv zeta.
  destruct Hlow as [Hlow | Hlow].
  - rewrite !(switch_miss code) by arms_differ Hlow 0x7f.
    rewrite !(switch_miss (Z.land code 0xfe00707f)) by arms_differ Hlow 0x7f.
    rewrite !(switch_miss (Z.land code 0x0000707f)) by arms_differ Hlow 0x7f.
    rewrite Hlow. cbn [switch Z.eqb Pos.eqb]. split; [reflexivity|].
    unfold Assembler.Lui.
    destruct (rv_upper Opcode.Lui code) as (Wr & Wo & W0 & Wu).
    rewrite (emitted_word _ Wr), (DispatchOwl_decode_call _ _ _ Wo).
    cbn [decode_call execute]. rewrite W0, Wu. reflexivity.
  - rewrite !(switch_miss code) by arms_differ Hlow 0x7f.
    rewrite !(switch_miss (Z.land code 0xfe00707f)) by arms_differ Hlow 0x7f.
    rewrite !(switch_miss (Z.land code 0x0000707f)) by arms_differ Hlow 0x7f.
    rewrite Hlow. cbn [switch Z.eqb Pos.eqb]. split; [reflexivity|].
    unfold Assembler.Auipc.
    destruct (rv_upper Opcode.Auipc code) as (Wr & Wo & W0 & Wu).
    rewrite (emitted_word _ Wr), (DispatchOwl_decode_call _ _ _ Wo).
    cbn [decode_call execute]. rewrite W0, Wu. reflexivity.
Qed.

Lemma Transcode_upper_immediate_shifted_twice_witness :
  let host : Host := little in
  let cpu := OwlCpu.init [] in
  let lui := 0xfffff2b7 in
  (Z.land lui 0x7f = 0x37 \/ Z.land lui 0x7f = 0x17) /\
  (cpu' ← DispatchRv32i cpu lui; OwlCpu.get_x cpu' 5) = Some 0xfffff000 /\
  (cpu' ← DispatchOwl cpu (Transcoded lui); OwlCpu.get_x cpu' 5) = Some 0xff000000.
Proof.
  cbv zeta. split; [left; reflexivity|].
  pose proof (@Transcode_upper_immediate_shifted_twice little (OwlCpu.init []) 0xfffff2b7
                (or_introl eq_refl)) as T.
  cbv zeta in T. change (Z.land 0xfffff2b7 0x7f =? 0x37) with true in T. cbv iota in T.
  destruct T as [T1 T2]. rewrite T1, T2. split; vm_compute; reflexivity.
Defined.

Lemma Iimmediate_signed (code : Z) :
  0 <= code < 2 ^ 32 ->
  i32 (DecodeRv32.Iimmediate code) = i32 code / 2 ^ 20 /\
  - 2048 <= i32 code / 2 ^ 20 <= 2047.
Proof.
  intros Hc. pose proof (i32_range code) as Hr.
  assert (Hq : - 2048 <= i32 code / 2 ^ 20 <= 2047).
  { split.
    - apply Z.div_le_lower_bound; lia.
    - assert (i32 code / 2 ^ 20 < 2048); [|lia].
      apply Z.div_lt_upper_bound; lia. }
  split; [|exact Hq].
  unfold DecodeRv32.Iimmediate. rewrite Z.shiftr_div_pow2 by lia.
  rewrite i32_u32. apply i32_small. lia.
Qed.

(** The word [Assembler::Jalr] emits for an RV32I [jalr], and the offset
    the Owl dispatcher decodes from it: the immediate without its low
    bit. *)
Lemma rv_jalr_any (code : Z) :
  0 <= code < 2 ^ 32 ->
  let imm := i32 (DecodeRv32.Iimmediate code) in
  let u := encode.opc Opcode.Jalr .| encode.offs12 imm
           .| encode.r1 (DecodeRv32.Rs1 code) .| encode.r0 (DecodeRv32.Rd code) in
  0 <= u < 2 ^ 32 /\ Z.land u 0x7f = encode.opc Opcode.Jalr /\
  decode.r0 u = DecodeRv32.Rd code /\ decode.r1 u = DecodeRv32.Rs1 code /\
  i32 (decode.offs12 u) = imm - imm mod 2.
Proof.
  intros Hc. cbv zeta. rewrite lor_rotate.
  pose proof (word_rri Opcode.Jalr (Z.shiftr code 7) (Z.shiftr code 15)
                (encode.offs12 (i32 (DecodeRv32.Iimmediate code)))) as W.
  cbv zeta in W. rewrite offs12_masked in W.
  destruct W as (W1 & W2 & W3 & W4 & W5).
  unfold DecodeRv32.Rd, DecodeRv32.Rs1.
  repeat split; try assumption; try apply W1.
  destruct (Iimmediate_signed code Hc) as [Hi Hq]. rewrite Hi.
  rewrite Hi in W5.
  pose proof (Z.mod_pos_bound (i32 code / 2 ^ 20) 2 ltac:(lia)) as Hm.
  pose proof (clear_low_bit (i32 code / 2 ^ 20)) as Hl.
  destruct (decode_imm12_field _ (Z.shiftr (i32 code / 2 ^ 20) 1) ltac:(lia)
              (eq_trans W5 (encode_offs12_imm12 _))) as [_ D].
  rewrite D. exact Hl.
Qed.

(** Every [jalr]: run directly, the jump offset is the I-immediate;
    transcoded, it is the I-immediate with its low bit cleared, since the
    offs12 field holds the offset halved.  The two agree exactly when the
    immediate is even. *)
Theorem Transcode_jalr_drops_low_bit `{Host} (cpu : OwlCpu.t) (code : Z) :
  0 <= code < 2 ^ 32 -> Z.land code 0x707f = 0x67 ->
  let rd := DecodeRv32.Rd code in
  let rs1 := DecodeRv32.Rs1 code in
  let imm := i32 (DecodeRv32.Iimmediate code) in
  DispatchRv32i cpu code = OwlCpu.Jalr rd imm rs1 cpu /\
  DispatchOwl cpu (Transcoded code) = OwlCpu.Jalr rd (imm - imm mod 2) rs1 cpu.
Proof.
  intros Hc Hlow. cbv zeta. unfold Transcoded, Transcode, DispatchRv32i. cbv zeta.
  rewrite !(switch_miss code) by arms_differ Hlow 0x707f.
  rewrite !(switch_miss (Z.land code 0xfe00707f)) by arms_differ Hlow 0x707f.
  rewrite Hlow. cbn [switch Z.eqb Pos.eqb]. split; [reflexivity|].
  unfold Assembler.Jalr.
  destruct (rv_jalr_any code Hc) as (Wr & Wo & W0 & W1 & Wi).
  rewrite (emitted_word _ Wr), (DispatchOwl_decode_call _ _ _ Wo).
  cbn [decode_call execute]. rewrite W0, W1, Wi. reflexivity.
Qed.

Lemma Transcode_jalr_drops_low_bit_witness :
  let host : Host := little in
  let cpu := OwlCpu.init [] in
  let jalr := 0x00508067 in
  (0 <= jalr < 2 ^ 32 /\ Z.land jalr 0x707f = 0x67) /\
  option_map OwlCpu.nextPc (DispatchRv32i cpu jalr) = Some 5 /\
  option_map OwlCpu.nextPc (DispatchOwl cpu (Transcoded jalr)) = Some 4.
Proof.
  cbv zeta. split; [split; [lia | reflexivity]|].
  destruct (@Transcode_jalr_drops_low_bit little (OwlCpu.init []) 0x00508067
              ltac:(lia) eq_refl) as [T1 T2].
  rewrite T1, T2. split; vm_compute; reflexivity.
Defined.

(** A word whose two low bits are not both set is no RV32I instruction
    (all of them end in binary 11): the RV32I dispatcher calls [Illegal],
    which stops the machine, and the transcoder emits the Owl word 0,
    which the Owl dispatcher treats the same way.  The zero padding of an
    image is such a word. *)
Theorem not_an_RV32I_word `{Host} (cpu : OwlCpu.t) (code : Z) :
  Z.land code 3 <> 3 ->
  DispatchRv32i cpu code = Some (OwlCpu.with_done cpu true) /\
  Transcoded code = 0 /\
  DispatchOwl cpu (Transcoded code) = Some (OwlCpu.with_done cpu true).
Proof.
  intros Hlow.
  assert (HT : Transcoded code = 0).
  { unfold Transcoded, Transcode. cbv zeta.
    rewrite !(switch_miss code) by arms_differ Hlow 3.
    rewrite !(switch_miss (Z.land code 0xfe00707f)) by arms_differ Hlow 3.
    rewrite !(switch_miss (Z.land code 0x0000707f)) by arms_differ Hlow 3.
    rewrite !(switch_miss (Z.land code 0x0000007f)) by arms_differ Hlow 3.
    unfold Assembler.Illegal. apply emitted_word. cbn. lia. }
  split; [|split; [exact HT|]].
  - unfold DispatchRv32i. cbv zeta.
    rewrite !(switch_miss code) by arms_differ Hlow 3.
    rewrite !(switch_miss (Z.land code 0xfe00707f)) by arms_differ Hlow 3.
    rewrite !(switch_miss (Z.land code 0x0000707f)) by arms_differ Hlow 3.
    rewrite !(switch_miss (Z.land code 0x0000007f)) by arms_differ Hlow 3.
    reflexivity.
  - rewrite HT. unfold DispatchOwl. cbv zeta.
    rewrite switch_miss; [reflexivity|].
    cbn [encode.opc]. repeat (constructor; [cbn [fst]; discriminate|]). constructor.
Qed.

Lemma not_an_RV32I_word_witness :
  let host : Host := big in
  let cpu := OwlCpu.init (replicate 8 Byte.x00) in
  Z.land 0 3 <> 3 /\
  OwlCpu.Fetch cpu = Some (OwlCpu.with_nextPc cpu 4, 0) /\
  DispatchRv32i (OwlCpu.with_nextPc cpu 4) 0 = Some (OwlCpu.with_done (OwlCpu.with_nextPc cpu 4) true).
Proof.
  cbv zeta.
  assert (H0 : Z.land 0 3 <> 3) by (vm_compute; discriminate).
  split; [exact H0|]. split; [vm_compute; reflexivity|].
  apply (@not_an_RV32I_word big _ 0 H0).
Defined.

(** *** Whole images *)

Lemma Emit_appends_word `{Host} (u : Z) (a : Assembler.t) :
  appends_word a (Assembler.Emit u a) (Assembler.Emit u Assembler.empty).
Proof. repeat split. Qed.

Lemma Transcode_appends_word `{Host} (a : Assembler.t) (code : Z) :
  appends_word a (Transcode a code) (Transcode Assembler.empty code).
Proof.
  unfold Transcode. cbv zeta.
  repeat
    (match goal with
     | |- appends_word a (switch ?v ?cs ?d) (switch _ ?cs' ?d') =>
         refine (switch_related (appends_word a) v cs cs' d d' _ _);
         [repeat (constructor;
                  [cbv beta; cbn [fst snd]; split; [reflexivity|];
                   intros _; autounfold with asm_methods;
                   unfold Assembler.Lui, Assembler.Auipc;
                   apply Emit_appends_word|]);
          constructor
         |]
     end).
  unfold Assembler.Illegal. apply Emit_appends_word.
Qed.

Lemma fold_Transcode `{Host} (image : list Z) (a : Assembler.t) :
  let a' := fold_left (fun a code => Transcode a code) image a in
  Assembler.code_ a' =
    Assembler.code_ a
    ++ map (fun code => default 0 (last (Assembler.code_ (Transcode Assembler.empty code))))
         image /\
  Assembler.fixups_ a' = Assembler.fixups_ a.
Proof.
  cbv zeta. revert a. induction image as [|code image IH]; intros a.
  - cbn. rewrite app_nil_r. split; reflexivity.
  - cbn [fold_left map]. destruct (IH (Transcode a code)) as [IHc IHf].
    destruct (Transcode_appends_word a code) as (Hc & Hl & _ & _ & Hf).
    rewrite IHc, IHf, Hc, Hf. split; [|reflexivity].
    rewrite <- app_assoc. f_equal.
    destruct (Assembler.code_ (Transcode Assembler.empty code)) as [|w [|]];
      try discriminate.
    reflexivity.
Qed.

(** Transcoding an image never fails and is word for word: [Rv32iToOwl]
    returns (it does not throw for unbound labels), its result has one
    Owl word for each RV32I word, in order, and the word at each position
    is the transcoding of the RV32I word at that position alone. *)
Theorem Rv32iToOwl_word_for_word `{Host} (image : list Z) :
  exists owl,
    Rv32iToOwl image = inr owl /\
    length owl = length image /\
    forall k code, image !! k = Some code ->
      exists w, owl !! k = Some w /\ AsLE32 w = Transcoded code.
Proof.
  destruct (fold_Transcode image Assembler.empty) as [Hc Hf]. cbv zeta in Hc, Hf.
  eexists. split; [|split].
  - unfold Rv32iToOwl, Assembler.Code. cbv zeta. rewrite Hf, Hc. reflexivity.
  - cbn [Assembler.code_ Assembler.empty app]. apply length_map.
  - intros k code Hk. cbn [Assembler.code_ Assembler.empty app].
    eexists. split.
    + rewrite list_lookup_fmap, Hk. reflexivity.
    + reflexivity.
Qed.

(** ** From the assembler to the dispatcher *)

Lemma emitted_word_any `{Host} (u : Z) (a : Assembler.t) :
  0 <= u < 2 ^ 32 -> last_word (Assembler.Emit u a) = u.
Proof.
  intros Hu. unfold last_word, Assembler.Emit. cbn [Assembler.code_].
  rewrite last_snoc. cbn [default]. apply AsLE32_involutive. exact Hu.
Qed.

Lemma encode_r1_0 : encode.r1 0 = 0.
Proof. reflexivity. Qed.

Lemma encode_r2_0 : encode.r2 0 = 0.
Proof. reflexivity. Qed.

Lemma encode_r0_0 : encode.r0 0 = 0.
Proof. reflexivity. Qed.

Lemma imm12_mask (v : Z) : Z.land (encode.imm12 v) 0xfff00000 = encode.imm12 v.
Proof. symmetry. apply encode_imm12_masked. Qed.

Lemma even_offset (v : Z) : v mod 2 = 0 -> v - v mod 2 = v.
Proof. lia. Qed.

(** The layouts of the emitted words, for operands that fit: each word
    is a 32-bit value tagged with its opcode, and the decoders give the
    operands back. *)
Section Layouts.
Variables (o : Opcode.t) (a b c : Z).
Hypotheses (Ha : fits_reg a = true) (Hb : fits_reg b = true) (Hc : fits_reg c = true).

Lemma asm_rrr :
  let u := encode.opc o .| encode.r0 a .| encode.r1 b .| encode.r2 c in
  0 <= u < 2 ^ 32 /\ Z.land u 0x7f = encode.opc o /\
  decode.r0 u = a /\ decode.r1 u = b /\ decode.r2 u = c /\ decode.shift u = c.
Proof.
  cbv zeta. pose proof (layout_rrr (encode.opc o) a b c) as L. cbv zeta in L.
  unfold fits_reg in *.
  rewrite opc_land, !reg_land in L by lia. destruct L as (L1 & L2 & L3 & L4).
  repeat split; try assumption.
  all: apply range_of_mask; rewrite <- (opc_land o); fields; bits.
Qed.

Lemma asm_rrX (X : Z) :
  let u := encode.opc o .| encode.r0 a .| encode.r1 b .| Z.land X 0xfff00000 in
  0 <= u < 2 ^ 32 /\ Z.land u 0x7f = encode.opc o /\
  decode.r0 u = a /\ decode.r1 u = b /\ Z.land u 0xfff00000 = Z.land X 0xfff00000.
Proof.
  cbv zeta. pose proof (word_rri o a b X) as W. cbv zeta in W.
  unfold fits_reg in *. rewrite !reg_land in W by lia. exact W.
Qed.

Lemma asm_rX (X : Z) :
  let u := encode.opc o .| encode.r0 a .| Z.land X 0xfffff000 in
  0 <= u < 2 ^ 32 /\ Z.land u 0x7f = encode.opc o /\
  decode.r0 u = a /\ Z.land u 0xfffff000 = Z.land X 0xfffff000.
Proof.
  cbv zeta. pose proof (layout_rj (encode.opc o) a X) as L. cbv zeta in L.
  unfold fits_reg in *.
  rewrite opc_land, !reg_land in L by lia. destruct L as (L1 & L2 & L3).
  repeat split; try assumption.
  all: apply range_of_mask; rewrite <- (opc_land o); fields; bits.
Qed.

Lemma asm_rri (imm : Z) :
  fits_imm12 imm = true ->
  let u := encode.opc o .| encode.r0 a .| encode.r1 b .| encode.imm12 imm in
  0 <= u < 2 ^ 32 /\ Z.land u 0x7f = encode.opc o /\
  decode.r0 u = a /\ decode.r1 u = b /\ i32 (decode.imm12 u) = imm.
Proof.
  intros Hi. cbv zeta. pose proof (asm_rrX (encode.imm12 imm)) as W. cbv zeta in W.
  rewrite imm12_mask in W. destruct W as (W1 & W2 & W3 & W4 & W5).
  repeat split; try assumption; try apply W1.
  unfold fits_imm12 in Hi.
  apply (decode_imm12_field _ imm ltac:(lia) W5).
Qed.

Lemma asm_rir (imm : Z) :
  fits_imm12 imm = true ->
  let u := encode.opc o .| encode.r0 a .| encode.imm12 imm .| encode.r1 b in
  0 <= u < 2 ^ 32 /\ Z.land u 0x7f = encode.opc o /\
  decode.r0 u = a /\ decode.r1 u = b /\ i32 (decode.imm12 u) = imm.
Proof. intros Hi. cbv zeta. rewrite lor_swap. exact (asm_rri imm Hi). Qed.

Lemma asm_rro (offs : Z) :
  fits_offs12 offs = true ->
  let u := encode.opc o .| encode.r0 a .| encode.r1 b .| encode.offs12 offs in
  0 <= u < 2 ^ 32 /\ Z.land u 0x7f = encode.opc o /\
  decode.r0 u = a /\ decode.r1 u = b /\ i32 (decode.offs12 u) = offs.
Proof.
  intros Ho. cbv zeta. pose proof (asm_rrX (encode.offs12 offs)) as W. cbv zeta in W.
  rewrite offs12_masked in W. destruct W as (W1 & W2 & W3 & W4 & W5).
  repeat split; try assumption; try apply W1.
  unfold fits_offs12 in Ho.
  pose proof (clear_low_bit offs) as Hl.
  destruct (decode_imm12_field _ (Z.shiftr offs 1) ltac:(lia)
              (eq_trans W5 (encode_offs12_imm12 offs))) as [_ D].
  rewrite D. lia.
Qed.

Lemma asm_orr (offs : Z) :
  fits_offs12 offs = true ->
  let u := encode.opc o .| encode.offs12 offs .| encode.r1 b .| encode.r0 a in
  0 <= u < 2 ^ 32 /\ Z.land u 0x7f = encode.opc o /\
  decode.r0 u = a /\ decode.r1 u = b /\ i32 (decode.offs12 u) = offs.
Proof. intros Ho. cbv zeta. rewrite lor_rotate. exact (asm_rro offs Ho). Qed.

Lemma asm_ro (offs : Z) :
  fits_offs20 offs = true ->
  let u := encode.opc o .| encode.r0 a .| encode.offs20 offs in
  0 <= u < 2 ^ 32 /\ Z.land u 0x7f = encode.opc o /\
  decode.r0 u = a /\ i32 (decode.offs20 u) = offs.
Proof.
  intros Ho. cbv zeta. pose proof (asm_rX (encode.offs20 offs)) as W. cbv zeta in W.
  rewrite offs20_masked in W. destruct W as (W1 & W2 & W3 & W4).
  repeat split; try assumption; try apply W1.
  unfold fits_offs20 in Ho.
  pose proof (clear_low_bit offs) as Hl.
  rewrite (decode_offs20_field _ (Z.shiftr offs 1) ltac:(lia)
             (eq_trans W4 (encode_offs20_value offs))).
  lia.
Qed.

Lemma asm_or (offs : Z) :
  fits_offs20 offs = true ->
  let u := encode.opc o .| encode.offs20 offs .| encode.r0 a in
  0 <= u < 2 ^ 32 /\ Z.land u 0x7f = encode.opc o /\
  decode.r0 u = a /\ i32 (decode.offs20 u) = offs.
Proof. intros Ho. cbv zeta. rewrite lor_swap. exact (asm_ro offs Ho). Qed.

Lemma asm_ru (v : Z) :
  fits_uimm20 v = true ->
  let u := encode.opc o .| encode.r0 a .| encode.uimm20 v in
  0 <= u < 2 ^ 32 /\ Z.land u 0x7f = encode.opc o /\
  decode.r0 u = a /\ decode.uimm20 u = v * 4096.
Proof.
  intros Hv. cbv zeta. pose proof (asm_rX (encode.uimm20 v)) as W. cbv zeta in W.
  rewrite uimm20_masked in W. destruct W as (W1 & W2 & W3 & W4).
  repeat split; try assumption; try apply W1.
  unfold fits_uimm20 in Hv.
  unfold decode.uimm20. rewrite W4, encode_uimm20_value, Z.shiftl_mul_pow2 by lia.
  apply u32_small. lia.
Qed.
End Layouts.

Lemma fits_reg_0 : fits_reg 0 = true.
Proof. reflexivity. Qed.

Lemma asm_rr (o : Opcode.t) (a b : Z) :
  fits_reg a = true -> fits_reg b = true ->
  let u := encode.opc o .| encode.r0 a .| encode.r1 b in
  0 <= u < 2 ^ 32 /\ Z.land u 0x7f = encode.opc o /\ decode.r0 u = a /\ decode.r1 u = b.
Proof.
  intros Ha Hb. cbv zeta.
  pose proof (asm_rrr o a b 0 Ha Hb fits_reg_0) as W. cbv zeta in W.
  rewrite encode_r2_0, Z.lor_0_r in W. destruct_and? W. repeat split; assumption.
Qed.

Lemma asm_ri (o : Opcode.t) (a imm : Z) :
  fits_reg a = true -> fits_imm12 imm = true ->
  let u := encode.opc o .| encode.r0 a .| encode.imm12 imm in
  0 <= u < 2 ^ 32 /\ Z.land u 0x7f = encode.opc o /\
  decode.r0 u = a /\ i32 (decode.imm12 u) = imm.
Proof.
  intros Ha Hi. cbv zeta.
  pose proof (asm_rir o a 0 Ha fits_reg_0 imm Hi) as W. cbv zeta in W.
  rewrite encode_r1_0, Z.lor_0_r in W. destruct_and? W. repeat split; assumption.
Qed.

Lemma asm_o (o : Opcode.t) (offs : Z) :
  fits_offs20 offs = true ->
  let u := encode.opc o .| encode.offs20 offs in
  0 <= u < 2 ^ 32 /\ Z.land u 0x7f = encode.opc o /\ i32 (decode.offs20 u) = offs.
Proof.
  intros Ho. cbv zeta.
  pose proof (asm_or o 0 fits_reg_0 offs Ho) as W. cbv zeta in W.
  rewrite encode_r0_0, Z.lor_0_r in W. destruct_and? W. repeat split; assumption.
Qed.

Lemma asm_rrs (o : Opcode.t) (a b s : Z) :
  fits_reg a = true -> fits_reg b = true -> fits_reg s = true ->
  let u := encode.opc o .| encode.r0 a .| encode.r1 b .| encode.shift s in
  0 <= u < 2 ^ 32 /\ Z.land u 0x7f = encode.opc o /\
  decode.r0 u = a /\ decode.r1 u = b /\ decode.r2 u = s /\ decode.shift u = s.
Proof. exact (asm_rrr o a b s). Qed.

(** One method of the assembler: it emits a word of a known layout, which
    the Owl dispatcher decodes to the corresponding call. *)
Ltac asm_arm F :=
  let W := fresh "W" in
  pose proof F as W; cbv zeta in W;
  let Wr := fresh "Wr" in
  destruct W as (Wr & W); destruct_and? W;
  split; [exact Wr|]; split; [intros; reflexivity|];
  match goal with
  | Wo : Z.land _ 0x7f = encode.opc _ |- _ =>
      rewrite (DispatchOwl_decode_call _ _ _ Wo)
  end;
  cbn [decode_call execute];
  repeat match goal with
         | E : decode.r0 _ = _ |- _ => rewrite E; clear E
         | E : decode.r1 _ = _ |- _ => rewrite E; clear E
         | E : decode.r2 _ = _ |- _ => rewrite E; clear E
         | E : decode.shift _ = _ |- _ => rewrite E; clear E
         | E : i32 (decode.imm12 _) = _ |- _ => rewrite E; clear E
         | E : i32 (decode.offs12 _) = _ |- _ => rewrite E; clear E
         | E : i32 (decode.offs20 _) = _ |- _ => rewrite E; clear E
         | E : decode.uimm20 _ = _ |- _ => rewrite E; clear E
         end;
  reflexivity.

Ltac fit := assumption.

Ltac asm_any_arm :=
  match goal with
  | |- context [encode.opc ?o .| encode.r0 ?a .| encode.r1 ?b .| encode.r2 ?c] =>
      asm_arm (asm_rrr o a b c ltac:(fit) ltac:(fit) ltac:(fit))
  | |- context [encode.opc ?o .| encode.r0 ?a .| encode.r1 ?b .| encode.shift ?c] =>
      asm_arm (asm_rrs o a b c ltac:(fit) ltac:(fit) ltac:(fit))
  | |- context [encode.opc ?o .| encode.r0 ?a .| encode.r1 ?b .| encode.imm12 ?i] =>
      asm_arm (asm_rri o a b ltac:(fit) ltac:(fit) i ltac:(fit))
  | |- context [encode.opc ?o .| encode.r0 ?a .| encode.imm12 ?i .| encode.r1 ?b] =>
      asm_arm (asm_rir o a b ltac:(fit) ltac:(fit) i ltac:(fit))
  | |- context [encode.opc ?o .| encode.r0 ?a .| encode.r1 ?b .| encode.offs12 ?i] =>
      asm_arm (asm_rro o a b ltac:(fit) ltac:(fit) i ltac:(fit))
  | |- context [encode.opc ?o .| encode.offs12 ?i .| encode.r1 ?b .| encode.r0 ?a] =>
      asm_arm (asm_orr o a b ltac:(fit) ltac:(fit) i ltac:(fit))
  | |- context [encode.opc ?o .| encode.offs20 ?i .| encode.r0 ?a] =>
      asm_arm (asm_or o a ltac:(fit) i ltac:(fit))
  | |- context [encode.opc ?o .| encode.r0 ?a .| encode.uimm20 ?v] =>
      asm_arm (asm_ru o a ltac:(fit) v ltac:(fit))
  | |- context [encode.opc ?o .| encode.r0 ?a .| encode.imm12 ?i] =>
      asm_arm (asm_ri o a i ltac:(fit) ltac:(fit))
  | |- context [encode.opc ?o .| encode.r0 ?a .| encode.r1 ?b] =>
      asm_arm (asm_rr o a b ltac:(fit) ltac:(fit))
  | |- context [encode.opc ?o .| encode.offs20 ?i] =>
      asm_arm (asm_o o i ltac:(fit))
  | |- context [encode.opc ?o] =>
      asm_arm (word_op o)
  end.

(** Each method of the assembler emits one word, the same wherever in
    the buffer; for operands that fit it is a 32-bit word that the Owl
    dispatcher decodes to the corresponding call on the executor. *)
Lemma assemble_emits `{Host} (c : Instruction.t) (cpu : OwlCpu.t) :
  operands_fit c = true ->
  exists u, 0 <= u < 2 ^ 32 /\
    (forall a, assemble c a = Assembler.Emit u a) /\
    DispatchOwl cpu u = execute (as_dispatched c) cpu.
Proof.
  intros Hf.
  destruct c; cbn [assemble as_dispatched operands_fit] in *;
    repeat match goal with
           | H : _ && _ = true |- _ => apply andb_prop in H; destruct H
           end;
    autounfold with asm_methods;
    unfold Assembler.Lui, Assembler.Auipc, Assembler.J, Assembler.Call, Assembler.Jump,
      Assembler.Ret, Assembler.Li, Assembler.Mv;
    match goal with
    | |- exists u, _ /\ (forall a, Assembler.Emit ?U a = _) /\ _ => exists U
    end;
    asm_any_arm.
Qed.

(** Assembling a call whose operands fit the encoding and running the
    emitted word through the Owl dispatcher makes that call on the
    executor, with the same operands: the opcode numbering, the field
    encoders, [AsLE] on either host and the decoders agree for all 46
    methods.  The upper immediate of [Lui] and [Auipc] is the one
    operand that changes on the way: the assembler takes the 20-bit value
    and the executor receives it shifted into bits 31:12. *)
Theorem assembled_word_dispatches `{Host} (c : Instruction.t) (a : Assembler.t)
    (cpu : OwlCpu.t) :
  operands_fit c = true ->
  DispatchOwl cpu (last_word (assemble c a)) = execute (as_dispatched c) cpu.
Proof.
  intros Hf. destruct (assemble_emits c cpu Hf) as (u & Hu & He & Hd).
  rewrite He, (emitted_word_any u a Hu). exact Hd.
Qed.

Lemma assembled_word_dispatches_witness :
  let host : Host := big in
  let cpu := OwlCpu.init (replicate 16 Byte.x00) in
  let c := Instruction.Addi 5 sp (-3) in
  operands_fit c = true /\
  last_word (assemble c Assembler.empty) = 0xffd02296 /\
  (cpu' ← DispatchOwl cpu (last_word (assemble c Assembler.empty)); OwlCpu.get_x cpu' 5)
  = Some 13.
Proof.
  cbv zeta. split; [reflexivity|]. split; [vm_compute; reflexivity|].
  rewrite (@assembled_word_dispatches big (Instruction.Addi 5 sp (-3)) Assembler.empty
             (OwlCpu.init (replicate 16 Byte.x00)) eq_refl).
  vm_compute. reflexivity.
Defined.

(** ** Operands that do not fit *)

Lemma u32_wrap_12 (v : Z) :
  u32 (v * 2 ^ 20) = u32 (((v + 2048) mod 4096 - 2048) * 2 ^ 20).
Proof.
  pose proof (Z.div_mod (v + 2048) 4096 ltac:(lia)) as D.
  replace (v * 2 ^ 20)
    with (((v + 2048) mod 4096 - 2048) * 2 ^ 20 + (v + 2048) / 4096 * 2 ^ 32) by lia.
  unfold u32. apply Z_mod_plus_full.
Qed.

Lemma u32_wrap_20 (v : Z) :
  u32 (v * 2 ^ 12) = u32 (((v + 524288) mod 1048576 - 524288) * 2 ^ 12).
Proof.
  pose proof (Z.div_mod (v + 524288) 1048576 ltac:(lia)) as D.
  replace (v * 2 ^ 12)
    with (((v + 524288) mod 1048576 - 524288) * 2 ^ 12
          + (v + 524288) / 1048576 * 2 ^ 32) by lia.
  unfold u32. apply Z_mod_plus_full.
Qed.

Lemma encode_imm12_wrap (v : Z) :
  encode.imm12 v = encode.imm12 ((v + 2048) mod 4096 - 2048).
Proof. rewrite !encode_imm12_value. apply u32_wrap_12. Qed.

(** Decoding what an immediate encoder produced, for any operand. *)
Lemma decode_encode_imm12 (v : Z) :
  i32 (decode.imm12 (encode.imm12 v)) = (v + 2048) mod 4096 - 2048.
Proof.
  pose proof (Z.mod_pos_bound (v + 2048) 4096 ltac:(lia)) as B.
  apply (decode_imm12_field _ ((v + 2048) mod 4096 - 2048) ltac:(lia)
           (eq_trans (imm12_mask v) (encode_imm12_wrap v))).
Qed.

Lemma decode_encode_offs12 (v : Z) :
  i32 (decode.offs12 (encode.offs12 v)) = 2 * ((v / 2 + 2048) mod 4096 - 2048).
Proof.
  pose proof (Z.mod_pos_bound (v / 2 + 2048) 4096 ltac:(lia)) as B.
  assert (E : Z.land (encode.offs12 v) 0xfff00000
              = encode.imm12 ((v / 2 + 2048) mod 4096 - 2048)).
  { rewrite offs12_masked, encode_offs12_imm12, shiftr1_div2.
    apply encode_imm12_wrap. }
  apply (decode_imm12_field _ ((v / 2 + 2048) mod 4096 - 2048) ltac:(lia) E).
Qed.

Lemma decode_encode_offs20 (v : Z) :
  i32 (decode.offs20 (encode.offs20 v)) = 2 * ((v / 2 + 524288) mod 1048576 - 524288).
Proof.
  pose proof (Z.mod_pos_bound (v / 2 + 524288) 1048576 ltac:(lia)) as B.
  assert (E : Z.land (encode.offs20 v) 0xfffff000
              = u32 (Z.shiftl ((v / 2 + 524288) mod 1048576 - 524288) 12)).
  { rewrite offs20_masked, encode_offs20_value, shiftr1_div2.
    rewrite !Z.shiftl_mul_pow2 by lia. apply u32_wrap_20. }
  apply (decode_offs20_field _ ((v / 2 + 524288) mod 1048576 - 524288) ltac:(lia) E).
Qed.

(** The encoders never reject an operand and never let it spill into
    another field: whatever [a], [b] and [v] are, the word keeps its
    opcode, a register operand is reduced modulo 32, an imm12 to its low
    12 bits (read back signed), an offs12 and an offs20 to bits 12:1 and
    20:1 (the low bit is dropped), and a uimm20 to its low 20 bits. *)
Theorem operands_that_do_not_fit_are_truncated (o : Opcode.t) (a b v : Z) :
  let w := encode.opc o .| encode.r0 a .| encode.r1 b .| encode.imm12 v in
  Z.land w 0x7f = encode.opc o /\
  decode.r0 w = a mod 32 /\ decode.r1 w = b mod 32 /\
  i32 (decode.imm12 w) = (v + 2048) mod 4096 - 2048 /\
  i32 (decode.offs12 (encode.offs12 v)) = 2 * ((v / 2 + 2048) mod 4096 - 2048) /\
  i32 (decode.offs20 (encode.offs20 v)) = 2 * ((v / 2 + 524288) mod 1048576 - 524288) /\
  decode.uimm20 (encode.uimm20 v) = v mod 1048576 * 4096.
Proof.
  cbv zeta.
  pose proof (layout_rri (encode.opc o) a b (encode.imm12 v)) as L. cbv zeta in L.
  rewrite opc_land, imm12_mask in L. destruct L as (L1 & L2 & L3 & L4).
  change 0x1f with (Z.ones 5) in L2, L3. rewrite Z.land_ones in L2, L3 by lia.
  change (2 ^ 5) with 32 in L2, L3.
  pose proof (Z.mod_pos_bound (v + 2048) 4096 ltac:(lia)) as B12.
  repeat split; try assumption.
  - apply (decode_imm12_field _ ((v + 2048) mod 4096 - 2048) ltac:(lia)
             (eq_trans L4 (encode_imm12_wrap v))).
  - apply decode_encode_offs12.
  - apply decode_encode_offs20.
  - unfold decode.uimm20. rewrite uimm20_masked, encode_uimm20_value.
    rewrite Z.shiftl_mul_pow2 by lia. unfold u32.
    change (2 ^ 32) with (1048576 * 2 ^ 12). change 4096 with (2 ^ 12).
    apply Z.mul_mod_distr_r; lia.
Qed.

(** ** Labels and fixups *)

Lemma equal_range_emplace {V : Type} (k : nat) (v : V) (m : list (nat * V)) :
  multimap_equal_range k m = [] ->
  multimap_equal_range k (multimap_emplace k v m) = [(k, v)].
Proof.
  unfold multimap_equal_range. induction m as [|[k' v'] m IH]; intros Hm.
  - cbn [multimap_emplace]. rewrite filter_cons_True by reflexivity. reflexivity.
  - cbn [multimap_emplace].
    destruct (decide (k' = k)) as [-> | Hne].
    + rewrite filter_cons_True in Hm by reflexivity. discriminate.
    + rewrite filter_cons_False in Hm by exact Hne.
      destruct (k' <=? k)%nat.
      * rewrite filter_cons_False by exact Hne. apply IH. exact Hm.
      * rewrite filter_cons_True by reflexivity.
        rewrite filter_cons_False by exact Hne. rewrite Hm. reflexivity.
Qed.

Lemma erase_emplace {V : Type} (k : nat) (v : V) (m : list (nat * V)) :
  multimap_equal_range k m = [] ->
  multimap_erase k (multimap_emplace k v m) = m.
Proof.
  unfold multimap_equal_range, multimap_erase. induction m as [|[k' v'] m IH]; intros Hm.
  - cbn [multimap_emplace]. rewrite filter_cons_False by (cbn; congruence). reflexivity.
  - cbn [multimap_emplace].
    destruct (decide (k' = k)) as [-> | Hne].
    + rewrite filter_cons_True in Hm by reflexivity. discriminate.
    + rewrite filter_cons_False in Hm by exact Hne.
      destruct (k' <=? k)%nat.
      * rewrite filter_cons_True by exact Hne. f_equal. apply IH. exact Hm.
      * rewrite filter_cons_False by (cbn; congruence).
        rewrite filter_cons_True by exact Hne. f_equal.
        clear IH. induction m as [|[k2 v2] m IH2]; [reflexivity|].
        destruct (decide (k2 = k)) as [-> | Hne2].
        -- rewrite filter_cons_True in Hm by reflexivity. discriminate.
        -- rewrite filter_cons_False in Hm by exact Hne2.
           rewrite filter_cons_True by exact Hne2. f_equal. apply IH2. exact Hm.
Qed.

Lemma lower_bound_emplace {V : Type} (k : nat) (v : V) (m : list (nat * V)) :
  existsb (fun p => (k <=? fst p)%nat) (multimap_emplace k v m) = true.
Proof.
  induction m as [|[k' v'] m IH]; cbn [multimap_emplace].
  - cbn. rewrite Nat.leb_refl. reflexivity.
  - destruct (k' <=? k)%nat.
    + cbn [existsb]. rewrite IH. apply orb_true_r.
    + cbn. rewrite Nat.leb_refl. reflexivity.
Qed.

(** No entry at or after the key: erasing the key removes nothing. *)
Lemma erase_below {V : Type} (k : nat) (m : list (nat * V)) :
  existsb (fun p => (k <=? fst p)%nat) m = false -> multimap_erase k m = m.
Proof.
  unfold multimap_erase. induction m as [|[k' v'] m IH]; intros Hm; [reflexivity|].
  cbn [existsb fst] in Hm. apply orb_false_elim in Hm. destruct Hm as [Hk Hm].
  apply Nat.leb_gt in Hk.
  rewrite filter_cons_True by (cbn; lia). f_equal. apply IH. exact Hm.
Qed.

Lemma erase_equal_range {V : Type} (k : nat) (m : list (nat * V)) :
  multimap_equal_range k (multimap_erase k m) = [].
Proof.
  unfold multimap_equal_range, multimap_erase. induction m as [|[k' v'] m IH]; [reflexivity|].
  destruct (decide (k' = k)) as [-> | Hne].
  - rewrite filter_cons_False by (cbn; congruence). exact IH.
  - rewrite filter_cons_True by exact Hne. rewrite filter_cons_False by exact Hne. exact IH.
Qed.

(** Resolving fixups rewrites words of the buffer in place and touches
    nothing else. *)
Lemma ResolveFixup_frame (ty : FixupType.t) (addr offset : Z) (a a' : Assembler.t) :
  Assembler.ResolveFixup ty addr offset a = Some a' ->
  length (Assembler.code_ a') = length (Assembler.code_ a) /\
  Assembler.current_ a' = Assembler.current_ a /\
  Assembler.labels_ a' = Assembler.labels_ a /\
  Assembler.fixups_ a' = Assembler.fixups_ a.
Proof.
  unfold Assembler.ResolveFixup. cbv zeta.
  destruct (Assembler.code_ a !! _); [|discriminate].
  intros [= <-]. cbn. rewrite length_insert. repeat split.
Qed.

Lemma resolve_frame (address : Z) (a a' : Assembler.t) (entry : nat * Assembler.Fixup) :
  Assembler.resolve address (Some a) entry = Some a' ->
  length (Assembler.code_ a') = length (Assembler.code_ a) /\
  Assembler.current_ a' = Assembler.current_ a /\
  Assembler.labels_ a' = Assembler.labels_ a /\
  Assembler.fixups_ a' = Assembler.fixups_ a.
Proof.
  unfold Assembler.resolve. cbn [mbind option_bind]. cbv zeta.
  destruct (Assembler.type entry.2); apply ResolveFixup_frame.
Qed.

Lemma resolve_None (address : Z) (l : list (nat * Assembler.Fixup)) :
  fold_left (Assembler.resolve address) l None = None.
Proof. induction l; [reflexivity | exact IHl]. Qed.

Lemma fold_resolve_frame (address : Z) (l : list (nat * Assembler.Fixup))
    (a a' : Assembler.t) :
  fold_left (Assembler.resolve address) l (Some a) = Some a' ->
  length (Assembler.code_ a') = length (Assembler.code_ a) /\
  Assembler.current_ a' = Assembler.current_ a /\
  Assembler.labels_ a' = Assembler.labels_ a /\
  Assembler.fixups_ a' = Assembler.fixups_ a.
Proof.
  revert a. induction l as [|e l IH]; intros a Hf.
  - injection Hf as <-. repeat split.
  - cbn [fold_left] in Hf.
    destruct (Assembler.resolve address (Some a) e) as [a1|] eqn:E.
    + destruct (resolve_frame _ _ _ _ E) as (R1 & R2 & R3 & R4).
      destruct (IH _ Hf) as (I1 & I2 & I3 & I4).
      repeat split; congruence.
    + rewrite resolve_None in Hf. discriminate.
Qed.

Lemma BindLabel_labels (label : Label) (a a' : Assembler.t) :
  Assembler.BindLabel label a = Some a' ->
  (GetId label < length (Assembler.labels_ a))%nat /\
  Assembler.labels_ a' = <[GetId label := Assembler.current_ a]> (Assembler.labels_ a).
Proof.
  unfold Assembler.BindLabel. cbv zeta.
  destruct (GetId label <? length (Assembler.labels_ a))%nat eqn:Hlt; [|discriminate].
  apply Nat.ltb_lt in Hlt.
  cbn [Assembler.fixups_ Assembler.code_ Assembler.current_ Assembler.labels_].
  destruct (existsb _ (Assembler.fixups_ a)).
  - destruct (fold_left (Assembler.resolve _) _ _) as [a1|] eqn:Hf; [|discriminate].
    cbn [mbind option_bind]. intros [= <-].
    destruct (fold_resolve_frame _ _ _ _ Hf) as (_ & _ & F3 & _).
    split; [exact Hlt | exact F3].
  - intros [= <-]. split; [exact Hlt | reflexivity].
Qed.

(** Binding a label: the label now has the current address, every fixup
    that waited for it is gone and the fixups of other labels stay, in
    their order; the buffer keeps its length and the position does not
    move.  If no other label was waited for, [Code()] returns. *)
Theorem BindLabel_discharges_fixups (label : Label) (a a' : Assembler.t) :
  Assembler.BindLabel label a = Some a' ->
  Assembler.labels_ a' = <[GetId label := Assembler.current_ a]> (Assembler.labels_ a) /\
  Assembler.fixups_ a' = multimap_erase (GetId label) (Assembler.fixups_ a) /\
  multimap_equal_range (GetId label) (Assembler.fixups_ a') = [] /\
  length (Assembler.code_ a') = length (Assembler.code_ a) /\
  Assembler.current_ a' = Assembler.current_ a /\
  (Forall (fun p => fst p = GetId label) (Assembler.fixups_ a) ->
   Assembler.Code a' = inr (Assembler.code_ a')).
Proof.
  unfold Assembler.BindLabel. cbv zeta.
  destruct (GetId label <? length (Assembler.labels_ a))%nat; [|discriminate].
  cbn [Assembler.fixups_ Assembler.code_ Assembler.current_ Assembler.labels_].
  assert (Hcode : forall m : list (nat * Assembler.Fixup),
            Forall (fun p => fst p = GetId label) m ->
            multimap_erase (GetId label) m = []).
  { intros m Hm. unfold multimap_erase. induction Hm as [|p m Hp _ IH]; [reflexivity|].
    rewrite filter_cons_False by (cbn; congruence). exact IH. }
  destruct (existsb _ (Assembler.fixups_ a)) eqn:Hlb.
  - destruct (fold_left _ _ _) as [a1|] eqn:Hf; [|discriminate].
    cbn [mbind option_bind]. intros [= <-].
    destruct (fold_resolve_frame _ _ _ _ Hf) as (F1 & F2 & F3 & F4).
    cbn in F1, F2, F3, F4. cbn.
    rewrite F4. repeat split; try assumption.
    + apply erase_equal_range.
    + intros Hall. unfold Assembler.Code. cbn. rewrite (Hcode _ Hall). reflexivity.
  - intros [= <-]. cbn. rewrite (erase_below _ _ Hlb).
    repeat split.
    + rewrite <- (erase_below _ _ Hlb). apply erase_equal_range.
    + intros Hall. unfold Assembler.Code. cbn.
      rewrite <- (erase_below _ _ Hlb), (Hcode _ Hall). reflexivity.
Qed.

Lemma BindLabel_discharges_fixups_witness :
  let a := Assembler.mk [0x29] 4 [Assembler.badAddress]
             [(0%nat, {| Assembler.target := 0; Assembler.type := FixupType.offs20 |})] in
  let l := {| GetId := 0 |} in
  exists a', Assembler.BindLabel l a = Some a' /\
             Assembler.Code a' = inr [0x2029] /\ Assembler.fixups_ a' = [].
Proof.
  cbv zeta.
  set (a := Assembler.mk [0x29] 4 _ _). set (l := {| GetId := 0 |}).
  destruct (Assembler.BindLabel l a) as [a'|] eqn:E; [|vm_compute in E; discriminate].
  exists a'. split; [reflexivity|].
  destruct (BindLabel_discharges_fixups l a a' E) as (_ & Hf & _ & _ & _ & Hc).
  split.
  - rewrite Hc by (repeat constructor). vm_compute in E. injection E as <-. reflexivity.
  - rewrite Hf. vm_compute. reflexivity.
Defined.

(** *** Forward references *)

Lemma u32_idem_add (c k : Z) : u32 (u32 c + k) = u32 (c + k).
Proof. unfold u32. apply Zplus_mod_idemp_l. Qed.

Lemma fold_Emit `{Host} (ws : list Z) (a : Assembler.t) (c : Z) :
  Assembler.current_ a = u32 c ->
  let a' := fold_left (fun a w => Assembler.Emit w a) ws a in
  Assembler.code_ a' = Assembler.code_ a ++ map AsLE32 ws /\
  Assembler.current_ a' = u32 (c + 4 * Z.of_nat (length ws)) /\
  Assembler.labels_ a' = Assembler.labels_ a /\
  Assembler.fixups_ a' = Assembler.fixups_ a.
Proof.
  cbv zeta. revert a c. induction ws as [|w ws IH]; intros a c Hc.
  - cbn. rewrite app_nil_r, Z.add_0_r. repeat split. exact Hc.
  - cbn [fold_left map length].
    destruct (IH (Assembler.Emit w a) (c + 4)) as (I1 & I2 & I3 & I4).
    { cbn. rewrite Hc. apply u32_idem_add. }
    rewrite I1, I2, I3, I4. cbn. rewrite <- app_assoc. repeat split.
    f_equal. lia.
Qed.

Lemma AddressOf_unbound (a : Assembler.t) (label : Label) :
  Assembler.AddressOf a label = Some None ->
  (GetId label < length (Assembler.labels_ a))%nat.
Proof.
  unfold Assembler.AddressOf.
  destruct (Assembler.labels_ a !! GetId label) as [r|] eqn:E; [|discriminate].
  intros _. eapply lookup_lt_Some. exact E.
Qed.

(** Binding a label that one earlier instruction referred to while it
    was unbound, other words having been emitted in between: the single
    fixup is resolved against the word of that instruction, and the
    fixup map is what it was before the reference. *)
Lemma BindLabel_after_reference `{Host} (ty : FixupType.t) (label : Label)
    (a0 : Assembler.t) (w0 : Z) (ws : list Z) :
  Assembler.AddressOf a0 label = Some None ->
  multimap_equal_range (GetId label) (Assembler.fixups_ a0) = [] ->
  let a2 := fold_left (fun a w => Assembler.Emit w a) ws
              (Assembler.Emit w0 (Assembler.AddFixup ty label a0)) in
  let address := u32 (Assembler.current_ a0 + 4 * Z.of_nat (S (length ws))) in
  let fixup := {| Assembler.target := Assembler.current_ a0; Assembler.type := ty |} in
  Assembler.current_ a2 = address /\
  Assembler.BindLabel label a2 =
    (a ← Assembler.resolve address
           (Some (Assembler.mk (Assembler.code_ a0 ++ AsLE32 w0 :: map AsLE32 ws) address
                    (<[GetId label := address]> (Assembler.labels_ a0))
                    (multimap_emplace (GetId label) fixup (Assembler.fixups_ a0))))
           (GetId label, fixup);
     Some (Assembler.mk (Assembler.code_ a) (Assembler.current_ a) (Assembler.labels_ a)
             (Assembler.fixups_ a0))).
Proof.
  intros Hu Hf. cbv zeta.
  pose proof (AddressOf_unbound _ _ Hu) as Hid.
  destruct (fold_Emit ws (Assembler.Emit w0 (Assembler.AddFixup ty label a0))
              (Assembler.current_ a0 + 4)) as (F1 & F2 & F3 & F4).
  { reflexivity. }
  cbv zeta in F1, F2, F3, F4. cbn in F1, F3, F4.
  assert (Ha : u32 (Assembler.current_ a0 + 4 + 4 * Z.of_nat (length ws))
               = u32 (Assembler.current_ a0 + 4 * Z.of_nat (S (length ws)))).
  { f_equal. lia. }
  rewrite Ha in F2. split; [exact F2|].
  unfold Assembler.BindLabel. cbv zeta. unfold Assembler.Current.
  rewrite F3, F4, F2, F1.
  replace (GetId label <? length (Assembler.labels_ a0))%nat with true
    by (symmetry; apply Nat.ltb_lt; exact Hid).
  cbn [Assembler.fixups_ Assembler.code_ Assembler.current_ Assembler.labels_].
  rewrite lower_bound_emplace, (equal_range_emplace _ _ _ Hf).
  cbn [fold_left]. rewrite <- app_assoc. cbn [app].
  destruct (Assembler.resolve _ _ _) as [a|] eqn:E; [|reflexivity].
  cbn [mbind option_bind].
  destruct (resolve_frame _ _ _ _ E) as (_ & _ & _ & R4).
  rewrite R4. cbn [Assembler.fixups_]. rewrite (erase_emplace _ _ _ Hf). reflexivity.
Qed.

Lemma low20_rr (o : Opcode.t) (r0 r1 : Z) :
  Z.land (encode.opc o .| encode.r0 r0 .| encode.r1 r1 .| encode.offs12 0) 0x000fffff
  = encode.opc o .| encode.r0 r0 .| encode.r1 r1.
Proof.
  change (encode.offs12 0) with 0. rewrite Z.lor_0_r.
  rewrite <- (opc_land o). fields. change 0x000fffff with (Z.ones 20). bits.
Qed.

Lemma low12_op (o : Opcode.t) :
  Z.land (encode.opc o .| encode.offs20 0) 0x00000fff = encode.opc o.
Proof.
  change (encode.offs20 0) with 0. rewrite Z.lor_0_r.
  rewrite <- (opc_land o). change 0x00000fff with (Z.ones 12). masks. bits.
Qed.

(** The offset encoders see the distance from the reference to the
    label, computed in 32 bits. *)
Lemma offs12_distance (c n : Z) :
  encode.offs12 (i32 (u32 (u32 (c + n) - c))) = encode.offs12 n.
Proof.
  rewrite <- (encode_offs12_wrap n). f_equal. f_equal.
  unfold u32. rewrite Zminus_mod_idemp_l. f_equal. lia.
Qed.

Lemma offs20_distance (c n : Z) :
  encode.offs20 (i32 (u32 (u32 (c + n) - c))) = encode.offs20 n.
Proof.
  rewrite <- (encode_offs20_wrap n). f_equal. f_equal.
  unfold u32. rewrite Zminus_mod_idemp_l. f_equal. lia.
Qed.

Lemma AsLE32_little `{Host} (w : Z) : native = little -> AsLE32 w = w.
Proof. intros Hn. unfold AsLE32. rewrite Hn. reflexivity. Qed.

Lemma map_AsLE32_little `{Host} (ws : list Z) : native = little -> map AsLE32 ws = ws.
Proof.
  intros Hn. induction ws as [|w ws IH]; [reflexivity|].
  cbn [map]. rewrite IH, (AsLE32_little w Hn). reflexivity.
Qed.

(** The buffer after a reference to an unbound label, more words, and
    the binding of the label, on a little-endian host: the word of the
    reference with [patch] applied, among the other words unchanged. *)
Lemma patched_code `{Host} (ty : FixupType.t) (label : Label) (a0 : Assembler.t)
    (w0 w : Z) (ws : list Z) :
  native = little ->
  Assembler.current_ a0 = 4 * Z.of_nat (length (Assembler.code_ a0)) ->
  Assembler.AddressOf a0 label = Some None ->
  multimap_equal_range (GetId label) (Assembler.fixups_ a0) = [] ->
  let address := u32 (Assembler.current_ a0 + 4 * Z.of_nat (S (length ws))) in
  let offset := i32 (u32 (address - Assembler.current_ a0)) in
  match ty with
  | FixupType.offs12 => Z.land w0 0x000fffff .| encode.offs12 offset
  | FixupType.offs20 => Z.land w0 0x00000fff .| encode.offs20 offset
  | FixupType.hi20 => Z.land w0 0x00000fff .| u32 (i32 (Z.land address 0xfffff000))
  | FixupType.lo12 => Z.land w0 0x000fffff .| encode.imm12 (i32 (Z.land address 0x00000fff))
  end = w ->
  exists a3,
    Assembler.BindLabel label
      (fold_left (fun a w => Assembler.Emit w a) ws
         (Assembler.Emit w0 (Assembler.AddFixup ty label a0))) = Some a3 /\
    Assembler.code_ a3 = Assembler.code_ a0 ++ w :: ws /\
    Assembler.fixups_ a3 = Assembler.fixups_ a0.
Proof.
  intros Hn Hc Hu Hf. cbv zeta. intros Hw.
  destruct (BindLabel_after_reference ty label a0 w0 ws Hu Hf) as [_ HB].
  cbv zeta in HB. rewrite HB. clear HB.
  rewrite (map_AsLE32_little ws Hn), (AsLE32_little w0 Hn).
  unfold Assembler.resolve. cbn [mbind option_bind snd Assembler.type Assembler.target].
  assert (Hi : Z.to_nat (Assembler.current_ a0 / 4) = length (Assembler.code_ a0)).
  { rewrite Hc, Z.mul_comm, Z.div_mul by lia. apply Nat2Z.id. }
  assert (Hl : (Assembler.code_ a0 ++ w0 :: ws) !! length (Assembler.code_ a0) = Some w0).
  { apply list_lookup_middle. reflexivity. }
  assert (Hins : forall v,
            <[length (Assembler.code_ a0) := v]> (Assembler.code_ a0 ++ w0 :: ws)
            = Assembler.code_ a0 ++ v :: ws).
  { intros v. rewrite insert_app_r_alt by lia. rewrite Nat.sub_diag. reflexivity. }
  destruct ty; unfold Assembler.ResolveFixup; cbv zeta;
    cbn [Assembler.code_ Assembler.current_ Assembler.labels_ Assembler.fixups_];
    rewrite Hi, Hl; cbn [mbind option_bind];
    eexists; (split; [reflexivity|]);
    cbn [Assembler.code_ Assembler.fixups_]; rewrite Hins, Hw; split; reflexivity.
Qed.

(** A branch or a jump to a label that is bound only later: once the
    label is bound, the buffer is the one the same program gives when the
    distance to the label is written as an explicit offset, and the fixup
    is gone.  (On a little-endian host: the fixup patches the stored
    word without undoing [AsLE].) *)
Theorem forward_reference_same_as_offset `{Host} (opcode : Opcode.t) (r0 r1 : Z)
    (label : Label) (a0 : Assembler.t) (ws : list Z) :
  native = little ->
  Assembler.current_ a0 = 4 * Z.of_nat (length (Assembler.code_ a0)) ->
  Assembler.AddressOf a0 label = Some None ->
  multimap_equal_range (GetId label) (Assembler.fixups_ a0) = [] ->
  let emit_all := fold_left (fun a w => Assembler.Emit w a) ws in
  let distance := 4 * Z.of_nat (S (length ws)) in
  (exists a1 a3,
     Assembler.Branch_label opcode r0 r1 label a0 = Some a1 /\
     Assembler.BindLabel label (emit_all a1) = Some a3 /\
     Assembler.code_ a3
       = Assembler.code_ (emit_all (Assembler.Branch opcode r0 r1 distance a0)) /\
     Assembler.fixups_ a3 = Assembler.fixups_ a0) /\
  (exists a1 a3,
     Assembler.Jump_label opcode label a0 = Some a1 /\
     Assembler.BindLabel label (emit_all a1) = Some a3 /\
     Assembler.code_ a3 = Assembler.code_ (emit_all (Assembler.Jump opcode distance a0)) /\
     Assembler.fixups_ a3 = Assembler.fixups_ a0).
Proof.
  intros Hn Hc Hu Hf. cbv zeta.
  assert (Hrhs : forall u,
            Assembler.code_ (fold_left (fun a w => Assembler.Emit w a) ws
                               (Assembler.Emit u a0))
            = Assembler.code_ a0 ++ u :: ws).
  { intros u.
    destruct (fold_Emit ws (Assembler.Emit u a0) (Assembler.current_ a0 + 4) eq_refl)
      as (F1 & _).
    cbv zeta in F1. rewrite F1. cbn [Assembler.code_ Assembler.Emit].
    rewrite (map_AsLE32_little ws Hn), (AsLE32_little u Hn), <- app_assoc. reflexivity. }
  split.
  - unfold Assembler.Branch_label. rewrite Hu. cbn [mbind option_bind].
    unfold Assembler.Branch.
    destruct (patched_code FixupType.offs12 label a0
                (encode.opc opcode .| encode.r0 r0 .| encode.r1 r1 .| encode.offs12 0)
                (encode.opc opcode .| encode.r0 r0 .| encode.r1 r1
                 .| encode.offs12 (4 * Z.of_nat (S (length ws))))
                ws Hn Hc Hu Hf) as (a3 & B1 & B2 & B3).
    { cbv zeta. rewrite low20_rr, offs12_distance. reflexivity. }
    eexists. exists a3. split; [reflexivity|]. split; [exact B1|].
    split; [|exact B3]. rewrite B2, Hrhs. reflexivity.
  - unfold Assembler.Jump_label. rewrite Hu. cbn [mbind option_bind].
    unfold Assembler.Jump.
    destruct (patched_code FixupType.offs20 label a0
                (encode.opc opcode .| encode.offs20 0)
                (encode.opc opcode .| encode.offs20 (4 * Z.of_nat (S (length ws))))
                ws Hn Hc Hu Hf) as (a3 & B1 & B2 & B3).
    { cbv zeta. rewrite low12_op, offs20_distance. reflexivity. }
    eexists. exists a3. split; [reflexivity|]. split; [exact B1|].
    split; [|exact B3]. rewrite B2, Hrhs. reflexivity.
Qed.

Lemma forward_reference_same_as_offset_witness :
  let host : Host := little in
  let a0 := Assembler.mk [] 0 [Assembler.badAddress] [] in
  let label := {| GetId := 0 |} in
  (native = little /\ Assembler.AddressOf a0 label = Some None) /\
  exists a1 a3,
    Assembler.J_label label a0 = Some a1 /\
    Assembler.BindLabel label (Assembler.Ebreak a1) = Some a3 /\
    Assembler.code_ a3 = [0x4029; 0x2].
Proof.
  cbv zeta. split; [split; reflexivity|].
  destruct (@forward_reference_same_as_offset little Opcode.J 0 0 {| GetId := 0 |}
              (Assembler.mk [] 0 [Assembler.badAddress] []) [encode.opc Opcode.Ebreak]
              eq_refl eq_refl eq_refl eq_refl) as (_ & (a1 & a3 & J1 & J2 & J3 & _)).
  exists a1, a3. split; [exact J1|]. split; [exact J2|].
  rewrite J3. reflexivity.
Defined.

(** ** Loading the address of a label *)

Lemma asm_rri_any (o : Opcode.t) (a b v : Z) :
  fits_reg a = true -> fits_reg b = true ->
  let u := encode.opc o .| encode.r0 a .| encode.r1 b .| encode.imm12 v in
  0 <= u < 2 ^ 32 /\ Z.land u 0x7f = encode.opc o /\
  decode.r0 u = a /\ decode.r1 u = b /\
  i32 (decode.imm12 u) = (v + 2048) mod 4096 - 2048.
Proof.
  intros Ha Hb. cbv zeta.
  pose proof (asm_rrX o a b Ha Hb (encode.imm12 v)) as W. cbv zeta in W.
  rewrite imm12_mask in W. destruct W as (W1 & W2 & W3 & W4 & W5).
  repeat split; try assumption; try apply W1.
  pose proof (Z.mod_pos_bound (v + 2048) 4096 ltac:(lia)) as B.
  apply (decode_imm12_field _ ((v + 2048) mod 4096 - 2048) ltac:(lia)
           (eq_trans W5 (encode_imm12_wrap v))).
Qed.

(** A method that writes [v] to a register other than 0 and ends with
    [x[0] = 0], on a full register file. *)
Lemma write_result (cpu : OwlCpu.t) (r v : Z) :
  length (OwlCpu.x cpu) = 32%nat -> 0 < r < 32 ->
  exists cpu', (c ← OwlCpu.set_x cpu r v; OwlCpu.set_x c 0 0) = Some cpu' /\
               OwlCpu.get_x cpu' r = Some v /\ length (OwlCpu.x cpu') = 32%nat.
Proof.
  intros Hl Hr.
  destruct (OwlCpu.set_x cpu r v) as [c|] eqn:E1;
    [|rewrite set_x_defined in E1 by lia; discriminate].
  cbn [mbind option_bind].
  pose proof (set_x_frame _ _ _ _ E1) as (_ & _ & _ & _ & _ & Ex).
  destruct (OwlCpu.set_x c 0 0) as [cpu'|] eqn:E2;
    [|rewrite set_x_defined in E2 by (rewrite ?Ex, ?length_insert; lia); discriminate].
  pose proof (set_x_frame _ _ _ _ E2) as (_ & _ & _ & _ & _ & Ex').
  exists cpu'. split; [reflexivity|]. split.
  - eapply get_after_write; [|exact E1|exact E2]. lia.
  - rewrite Ex', Ex, !length_insert. exact Hl.
Qed.

(** The pair [Lui r, Hi(label); Addi r, r, Lo(label)] for a label bound
    at address [A], assembled and run.  [Hi] gives the upper 20 bits and
    [Lo] the lower 12 bits as they are, and [Addi] sign-extends its 12-bit
    immediate: the register receives [A] when bit 11 of [A] is clear, and
    [A - 4096] (modulo 2^32) when it is set. *)
Theorem load_address_with_Hi_Lo `{Host} (label : Label) (a : Assembler.t) (A r : Z)
    (cpu : OwlCpu.t) :
  Assembler.AddressOf a label = Some (Some A) -> 0 <= A < 2 ^ 32 ->
  0 < r < 32 -> length (OwlCpu.x cpu) = 32%nat ->
  exists hi lo,
    Assembler.Hi label a = Some (hi, a) /\ Assembler.Lo label a = Some (lo, a) /\
    (cpu1 ← DispatchOwl cpu (last_word (Assembler.Lui r hi a));
     cpu2 ← DispatchOwl cpu1 (last_word (Assembler.Addi r r lo a));
     OwlCpu.get_x cpu2 r)
    = Some (if A mod 4096 <? 2048 then A else u32 (A - 4096)).
Proof.
  intros Hu HA Hr Hl.
  exists (Z.shiftr A 12), (Z.land A 0xfff).
  unfold Assembler.Hi, Assembler.Lo. rewrite Hu. cbn [mbind option_bind].
  split; [reflexivity|]. split; [reflexivity|].
  assert (Hreg : fits_reg r = true) by (unfold fits_reg; lia).
  assert (Hhi : Z.shiftr A 12 = A / 4096) by (rewrite Z.shiftr_div_pow2 by lia; reflexivity).
  assert (Hlo : Z.land A 0xfff = A mod 4096).
  { change 0xfff with (Z.ones 12). rewrite Z.land_ones by lia. reflexivity. }
  pose proof (Z.div_mod A 4096 ltac:(lia)) as HD.
  pose proof (Z.mod_pos_bound A 4096 ltac:(lia)) as HM.
  assert (Hq : 0 <= A / 4096 < 2 ^ 20).
  { split; [apply Z.div_pos; lia | apply Z.div_lt_upper_bound; lia]. }
  rewrite Hhi, Hlo.
  unfold Assembler.Lui, Assembler.Addi.
  destruct (asm_ru Opcode.Lui r Hreg (A / 4096)) as (Wr & Wo & W0 & Wu).
  { unfold fits_uimm20. lia. }
  rewrite (emitted_word_any _ _ Wr), (DispatchOwl_decode_call _ _ _ Wo).
  cbn [decode_call execute]. rewrite W0, Wu. clear Wr Wo W0 Wu.
  unfold OwlCpu.Lui.
  destruct (write_result cpu r (A / 4096 * 4096) Hl Hr) as (cpu1 & E1 & G1 & L1).
  rewrite E1. cbn [mbind option_bind].
  destruct (asm_rri_any Opcode.Addi r r (A mod 4096) Hreg Hreg)
    as (Wr & Wo & W0 & W1 & Wi).
  rewrite (emitted_word_any _ _ Wr), (DispatchOwl_decode_call _ _ _ Wo).
  cbn [decode_call execute]. rewrite W0, W1, Wi. clear Wr Wo W0 W1 Wi.
  unfold OwlCpu.Addi. rewrite G1. cbn [mbind option_bind].
  destruct (write_result cpu1 r
              (u32 (A / 4096 * 4096 + ((A mod 4096 + 2048) mod 4096 - 2048))) L1 Hr)
    as (cpu2 & E2 & G2 & _).
  rewrite E2. cbn [mbind option_bind]. rewrite G2. f_equal.
  destruct (Z.ltb_spec (A mod 4096) 2048) as [Hlow | Hhigh].
  - rewrite (Z.mod_small (A mod 4096 + 2048)) by lia.
    replace (A / 4096 * 4096 + (A mod 4096 + 2048 - 2048)) with A by lia.
    apply u32_small. exact HA.
  - replace ((A mod 4096 + 2048) mod 4096) with (A mod 4096 - 2048).
    + f_equal. lia.
    + symmetry. rewrite <- (Z_mod_plus_full _ (-1)).
      rewrite Z.mod_small; lia.
Qed.

Lemma load_address_with_Hi_Lo_witness :
  let host : Host := little in
  let a := Assembler.mk [] 0 [0x1804] [] in
  let label := {| GetId := 0 |} in
  let cpu := OwlCpu.init [] in
  Assembler.AddressOf a label = Some (Some 0x1804) /\
  (cpu1 ← DispatchOwl cpu (last_word (Assembler.Lui 9 1 a));
   cpu2 ← DispatchOwl cpu1 (last_word (Assembler.Addi 9 9 0x804 a));
   OwlCpu.get_x cpu2 9) = Some 0x804.
Proof.
  cbv zeta. split; [reflexivity|].
  destruct (@load_address_with_Hi_Lo little {| GetId := 0 |}
              (Assembler.mk [] 0 [0x1804] []) 0x1804 9 (OwlCpu.init [])
              eq_refl ltac:(lia) ltac:(lia) eq_refl) as (hi & lo & Hh & Ho & Hx).
  injection Hh as <-. injection Ho as <-. exact Hx.
Defined.

(** ** One turn of the run loop on an assembled program *)

Lemma copy_from_app_r (l1 l2 : Memory) (a : Z) (n : nat) :
  0 <= a ->
  copy_from (l1 ++ l2) (Z.of_nat (length l1) + a) n = copy_from l2 a n.
Proof.
  intros Ha. unfold copy_from.
  assert (Hb : in_bounds (l1 ++ l2) (Z.of_nat (length l1) + a) n = in_bounds l2 a n).
  { apply eq_true_iff_eq. rewrite !in_bounds_spec, length_app. lia. }
  rewrite Hb. destruct (in_bounds l2 a n); [|reflexivity].
  f_equal. f_equal.
  replace (Z.to_nat (Z.of_nat (length l1) + a)) with (length l1 + Z.to_nat a)%nat by lia.
  apply drop_app_add.
Qed.

(** The image of a word buffer holds the object representation of word
    [k] at byte offset [4 k]. *)
Lemma image_bytes_word `{Host} (ws : list Z) (size k : nat) (w : Z) :
  ws !! k = Some w ->
  copy_from (image_bytes ws size) (4 * Z.of_nat k) 4 = Some (object_bytes 4 w).
Proof.
  unfold image_bytes. cbv zeta.
  generalize (replicate (size - length (flat_map (object_bytes 4) ws)) Byte.x00) as pad.
  intros pad. revert k. induction ws as [|w0 ws IH]; intros k Hk; [discriminate|].
  cbn [flat_map]. rewrite <- app_assoc.
  destruct k as [|k].
  - injection Hk as ->. unfold copy_from.
    rewrite (proj2 (in_bounds_spec _ _ _))
      by (rewrite length_app, object_bytes_length; lia).
    change (Z.to_nat (4 * Z.of_nat 0)) with 0%nat. rewrite drop_0.
    rewrite take_app_length' by (symmetry; apply object_bytes_length). reflexivity.
  - cbn [lookup list_lookup] in Hk.
    replace (4 * Z.of_nat (S k))
      with (Z.of_nat (length (object_bytes 4 w0)) + 4 * Z.of_nat k)
      by (rewrite object_bytes_length; lia).
    rewrite copy_from_app_r by lia. apply IH. exact Hk.
Qed.

Lemma fetched_word `{Host} (u : Z) :
  0 <= u < 2 ^ 32 -> AsLE32 (object_value (object_bytes 4 (AsLE32 u))) = u.
Proof.
  intros Hu. rewrite object_bytes_AsLE32 by exact Hu.
  rewrite object_value_AsLE32 by apply length_le_split.
  rewrite le_combine_split. apply Z.mod_small.
  change (2 ^ (Z.of_nat 4 * 8)) with (2 ^ 32). exact Hu.
Qed.

Lemma fold_assemble `{Host} (cs : list Instruction.t) (a : Assembler.t) :
  Forall (fun c => operands_fit c = true) cs ->
  forall k c, cs !! k = Some c ->
    exists u, 0 <= u < 2 ^ 32 /\
      (forall a', assemble c a' = Assembler.Emit u a') /\
      Assembler.code_ (fold_left (fun a c => assemble c a) cs a)
        !! (length (Assembler.code_ a) + k)%nat = Some (AsLE32 u).
Proof.
  intros Hfit. revert a. induction Hfit as [|c0 cs Hc0 _ IH]; intros a k c Hk;
    [discriminate|].
  cbn [fold_left].
  destruct (assemble_emits c0 (OwlCpu.init []) Hc0) as (u0 & Hu0 & He0 & _).
  destruct k as [|k].
  - injection Hk as <-. exists u0. split; [exact Hu0|]. split; [exact He0|].
    rewrite He0. clear IH.
    assert (Hkeep : forall (l : list Instruction.t) (b : Assembler.t) (i : nat) (x : Z),
              Assembler.code_ b !! i = Some x ->
              Assembler.code_ (fold_left (fun a c => assemble c a) l b) !! i = Some x).
    { induction l as [|c1 l IHl]; intros b i x Hb; [exact Hb|].
      cbn [fold_left]. apply IHl.
      destruct c1; cbn [assemble]; autounfold with asm_methods;
        unfold Assembler.Lui, Assembler.Auipc, Assembler.J, Assembler.Call,
          Assembler.Jump, Assembler.Ret, Assembler.Li, Assembler.Mv, Assembler.Emit;
        cbn [Assembler.code_]; apply lookup_app_l_Some; exact Hb. }
    apply Hkeep. cbn [Assembler.Emit Assembler.code_].
    rewrite Nat.add_0_r. apply list_lookup_middle. reflexivity.
  - cbn [lookup list_lookup] in Hk.
    destruct (IH (assemble c0 a) k c Hk) as (u & Hu & He & Hl).
    exists u. split; [exact Hu|]. split; [exact He|].
    rewrite He0 in Hl |- *. cbn [Assembler.Emit Assembler.code_] in Hl.
    rewrite length_app in Hl. cbn [length] in Hl.
    replace (length (Assembler.code_ a) + S k)%nat
      with (length (Assembler.code_ a) + 1 + k)%nat by lia.
    exact Hl.
Qed.

(** One turn of [Run]'s loop on a program built with the assembler.  The
    memory holds the assembled buffer (padded to any size) and [nextPc]
    points at instruction [k]: [Fetch] moves to it and yields the very
    word that instruction's method emitted, on either host, and
    [DispatchOwl] then makes that instruction's call on the executor. *)
Theorem run_step_on_assembled_program `{Host} (cs : list Instruction.t) (size k : nat)
    (c : Instruction.t) (cpu : OwlCpu.t) :
  Forall (fun c => operands_fit c = true) cs ->
  cs !! k = Some c ->
  OwlCpu.memory cpu
    = image_bytes
        (Assembler.code_ (fold_left (fun a c => assemble c a) cs Assembler.empty)) size ->
  OwlCpu.nextPc cpu = 4 * Z.of_nat k ->
  let fetched := OwlCpu.with_nextPc (OwlCpu.with_pc cpu (4 * Z.of_nat k))
                   (u32 (4 * Z.of_nat k + 4)) in
  OwlCpu.Fetch cpu = Some (fetched, last_word (assemble c Assembler.empty)) /\
  (f ← OwlCpu.Fetch cpu; DispatchOwl f.1 f.2) = execute (as_dispatched c) fetched.
Proof.
  intros Hfit Hk Hm Hn. cbv zeta.
  destruct (fold_assemble cs Assembler.empty Hfit k c Hk) as (u & Hu & He & Hl).
  cbn [Assembler.empty Assembler.code_ length Nat.add] in Hl.
  destruct (assemble_emits c
              (OwlCpu.with_nextPc (OwlCpu.with_pc cpu (4 * Z.of_nat k))
                 (u32 (4 * Z.of_nat k + 4))) (Forall_lookup_1 _ _ _ _ Hfit Hk))
    as (u' & Hu' & He' & Hd).
  assert (Huu : u' = u).
  { pose proof (He Assembler.empty) as E1. rewrite He' in E1.
    apply (f_equal last_word) in E1.
    rewrite !emitted_word_any in E1 by assumption. exact E1. }
  subst u'.
  assert (HF : OwlCpu.Fetch cpu
               = Some (OwlCpu.with_nextPc (OwlCpu.with_pc cpu (4 * Z.of_nat k))
                         (u32 (4 * Z.of_nat k + 4)), u)).
  { unfold OwlCpu.Fetch. cbv zeta.
    cbn [OwlCpu.memory OwlCpu.pc OwlCpu.nextPc OwlCpu.with_pc OwlCpu.with_nextPc].
    rewrite Hn, Hm.
    rewrite (Z.mul_comm 4 (Z.of_nat k)), Z.div_mul by lia.
    rewrite (Z.mul_comm (Z.of_nat k) 4).
    rewrite (image_bytes_word _ size k _ Hl). cbn [mbind option_bind].
    rewrite (fetched_word u Hu). reflexivity. }
  split.
  - rewrite HF, He, (emitted_word_any u _ Hu). reflexivity.
  - rewrite HF. cbn [mbind option_bind fst snd]. exact Hd.
Qed.

Lemma run_step_on_assembled_program_witness :
  let host : Host := big in
  let cs := [Instruction.Li 10 3; Instruction.Ebreak] in
  let image :=
    image_bytes
      (Assembler.code_ (fold_left (fun a c => assemble c a) cs Assembler.empty)) 16 in
  let cpu := OwlCpu.init image in
  Forall (fun c => operands_fit c = true) cs /\
  (f ← OwlCpu.Fetch cpu; DispatchOwl f.1 f.2) = OwlCpu.Li 10 3 (OwlCpu.with_nextPc cpu 4) /\
  (f ← OwlCpu.Fetch cpu; cpu' ← DispatchOwl f.1 f.2; OwlCpu.get_x cpu' 10) = Some 3.
Proof.
  intros host cs image cpu.
  assert (Hfit : Forall (fun c => operands_fit c = true) cs) by (repeat constructor).
  split; [exact Hfit|].
  destruct (@run_step_on_assembled_program host cs 16 0 (Instruction.Li 10 3) cpu
              Hfit eq_refl eq_refl eq_refl) as [_ HD].
  split; [exact HD | vm_compute; reflexivity].
Defined.

(** ** Whole runs *)

Lemma switch_all {A : Type} (P : A -> Prop) (v : Z) (cases : list (Z * A)) (d : A) :
  Forall (fun p => P (snd p)) cases -> P d -> P (switch v cases d).
Proof.
  induction 1 as [|[c a] cs Hc _ IH]; intros Hd; [exact Hd|].
  cbn [switch]. destruct (v =? c); [exact Hc | apply IH; exact Hd].
Qed.

(** The call on the handler that a method application stands for. *)
Ltac reify_call :=
  lazymatch goal with
  | |- exists c, OwlCpu.Ecall _ = _ => exists Instruction.Ecall; reflexivity
  | |- exists c, OwlCpu.Ebreak _ = _ => exists Instruction.Ebreak; reflexivity
  | |- exists c, OwlCpu.Fence _ = _ => exists Instruction.Fence; reflexivity
  | |- exists c, OwlCpu.Ret _ = _ => exists Instruction.Ret; reflexivity
  | |- exists c, OwlCpu.Add ?a0 ?a1 ?a2 _ = _ => exists (Instruction.Add a0 a1 a2); reflexivity
  | |- exists c, OwlCpu.Sub ?a0 ?a1 ?a2 _ = _ => exists (Instruction.Sub a0 a1 a2); reflexivity
  | |- exists c, OwlCpu.Sll ?a0 ?a1 ?a2 _ = _ => exists (Instruction.Sll a0 a1 a2); reflexivity
  | |- exists c, OwlCpu.Slt ?a0 ?a1 ?a2 _ = _ => exists (Instruction.Slt a0 a1 a2); reflexivity
  | |- exists c, OwlCpu.Sltu ?a0 ?a1 ?a2 _ = _ => exists (Instruction.Sltu a0 a1 a2); reflexivity
  | |- exists c, OwlCpu.Xor ?a0 ?a1 ?a2 _ = _ => exists (Instruction.Xor a0 a1 a2); reflexivity
  | |- exists c, OwlCpu.Srl ?a0 ?a1 ?a2 _ = _ => exists (Instruction.Srl a0 a1 a2); reflexivity
  | |- exists c, OwlCpu.Sra ?a0 ?a1 ?a2 _ = _ => exists (Instruction.Sra a0 a1 a2); reflexivity
  | |- exists c, OwlCpu.Or ?a0 ?a1 ?a2 _ = _ => exists (Instruction.Or a0 a1 a2); reflexivity
  | |- exists c, OwlCpu.And ?a0 ?a1 ?a2 _ = _ => exists (Instruction.And a0 a1 a2); reflexivity
  | |- exists c, OwlCpu.Slli ?a0 ?a1 ?a2 _ = _ => exists (Instruction.Slli a0 a1 a2); reflexivity
  | |- exists c, OwlCpu.Srli ?a0 ?a1 ?a2 _ = _ => exists (Instruction.Srli a0 a1 a2); reflexivity
  | |- exists c, OwlCpu.Srai ?a0 ?a1 ?a2 _ = _ => exists (Instruction.Srai a0 a1 a2); reflexivity
  | |- exists c, OwlCpu.Beq ?a0 ?a1 ?a2 _ = _ => exists (Instruction.Beq a0 a1 a2); reflexivity
  | |- exists c, OwlCpu.Bne ?a0 ?a1 ?a2 _ = _ => exists (Instruction.Bne a0 a1 a2); reflexivity
  | |- exists c, OwlCpu.Blt ?a0 ?a1 ?a2 _ = _ => exists (Instruction.Blt a0 a1 a2); reflexivity
  | |- exists c, OwlCpu.Bge ?a0 ?a1 ?a2 _ = _ => exists (Instruction.Bge a0 a1 a2); reflexivity
  | |- exists c, OwlCpu.Bltu ?a0 ?a1 ?a2 _ = _ => exists (Instruction.Bltu a0 a1 a2); reflexivity
  | |- exists c, OwlCpu.Bgeu ?a0 ?a1 ?a2 _ = _ => exists (Instruction.Bgeu a0 a1 a2); reflexivity
  | |- exists c, OwlCpu.Addi ?a0 ?a1 ?a2 _ = _ => exists (Instruction.Addi a0 a1 a2); reflexivity
  | |- exists c, OwlCpu.Slti ?a0 ?a1 ?a2 _ = _ => exists (Instruction.Slti a0 a1 a2); reflexivity
  | |- exists c, OwlCpu.Sltiu ?a0 ?a1 ?a2 _ = _ => exists (Instruction.Sltiu a0 a1 a2); reflexivity
  | |- exists c, OwlCpu.Xori ?a0 ?a1 ?a2 _ = _ => exists (Instruction.Xori a0 a1 a2); reflexivity
  | |- exists c, OwlCpu.Ori ?a0 ?a1 ?a2 _ = _ => exists (Instruction.Ori a0 a1 a2); reflexivity
  | |- exists c, OwlCpu.Andi ?a0 ?a1 ?a2 _ = _ => exists (Instruction.Andi a0 a1 a2); reflexivity
  | |- exists c, OwlCpu.Lb ?a0 ?a1 ?a2 _ = _ => exists (Instruction.Lb a0 a1 a2); reflexivity
  | |- exists c, OwlCpu.Lbu ?a0 ?a1 ?a2 _ = _ => exists (Instruction.Lbu a0 a1 a2); reflexivity
  | |- exists c, OwlCpu.Lh ?a0 ?a1 ?a2 _ = _ => exists (Instruction.Lh a0 a1 a2); reflexivity
  | |- exists c, OwlCpu.Lhu ?a0 ?a1 ?a2 _ = _ => exists (Instruction.Lhu a0 a1 a2); reflexivity
  | |- exists c, OwlCpu.Lw ?a0 ?a1 ?a2 _ = _ => exists (Instruction.Lw a0 a1 a2); reflexivity
  | |- exists c, OwlCpu.Sb ?a0 ?a1 ?a2 _ = _ => exists (Instruction.Sb a0 a1 a2); reflexivity
  | |- exists c, OwlCpu.Sh ?a0 ?a1 ?a2 _ = _ => exists (Instruction.Sh a0 a1 a2); reflexivity
  | |- exists c, OwlCpu.Sw ?a0 ?a1 ?a2 _ = _ => exists (Instruction.Sw a0 a1 a2); reflexivity
  | |- exists c, OwlCpu.Jalr ?a0 ?a1 ?a2 _ = _ => exists (Instruction.Jalr a0 a1 a2); reflexivity
  | |- exists c, OwlCpu.Jal ?a0 ?a1 _ = _ => exists (Instruction.Jal a0 a1); reflexivity
  | |- exists c, OwlCpu.Lui ?a0 ?a1 _ = _ => exists (Instruction.Lui a0 a1); reflexivity
  | |- exists c, OwlCpu.Auipc ?a0 ?a1 _ = _ => exists (Instruction.Auipc a0 a1); reflexivity
  | |- exists c, OwlCpu.Li ?a0 ?a1 _ = _ => exists (Instruction.Li a0 a1); reflexivity
  | |- exists c, OwlCpu.Mv ?a0 ?a1 _ = _ => exists (Instruction.Mv a0 a1); reflexivity
  | |- exists c, OwlCpu.J ?a0 _ = _ => exists (Instruction.J a0); reflexivity
  | |- exists c, OwlCpu.Call ?a0 _ = _ => exists (Instruction.Call a0); reflexivity
  | |- exists c, OwlCpu.Illegal ?a0 _ = _ => exists (Instruction.Illegal a0); reflexivity
  end.

(** Both dispatchers do nothing but call one method of the executor. *)
Lemma DispatchOwl_calls `{Host} (cpu : OwlCpu.t) (ins : Z) :
  exists c, DispatchOwl cpu ins = execute c cpu.
Proof.
  unfold DispatchOwl. cbv zeta.
  apply (switch_all (fun r => exists c, r = execute c cpu)).
  - repeat (constructor; [cbn [snd]; reify_call|]). constructor.
  - reify_call.
Qed.

Lemma DispatchRv32i_calls `{Host} (cpu : OwlCpu.t) (code : Z) :
  exists c, DispatchRv32i cpu code = execute c cpu.
Proof.
  unfold DispatchRv32i. cbv zeta.
  repeat (apply (switch_all (fun r => exists c, r = execute c cpu));
          [repeat (constructor; [cbn [snd]; reify_call|]); constructor|]).
  reify_call.
Qed.

Lemma Fetch_keeps `{Host} (cpu cpu' : OwlCpu.t) (w : Z) :
  OwlCpu.Fetch cpu = Some (cpu', w) ->
  OwlCpu.x cpu' = OwlCpu.x cpu /\ OwlCpu.memory cpu' = OwlCpu.memory cpu /\
  OwlCpu.done cpu' = OwlCpu.done cpu /\ OwlCpu.out cpu' = OwlCpu.out cpu.
Proof.
  unfold OwlCpu.Fetch. cbv zeta. destruct (copy_from _ _ _); [|discriminate].
  intros [= <- _]. repeat split.
Qed.

(** What holds of every state on the way, for a dispatcher that only
    calls methods of the executor. *)
Lemma run_loop_invariant `{Host} (dispatch : OwlCpu.t -> Z -> option OwlCpu.t)
    (fuel : nat) (cpu cpu' : OwlCpu.t) :
  (forall cpu ins, exists c, dispatch cpu ins = execute c cpu) ->
  run_loop fuel dispatch cpu = Some cpu' ->
  x0_zero cpu ->
  OwlCpu.done cpu' = true /\ x0_zero cpu' /\
  length (OwlCpu.x cpu') = length (OwlCpu.x cpu) /\
  length (OwlCpu.memory cpu') = length (OwlCpu.memory cpu).
Proof.
  intros Hd. revert cpu. induction fuel as [|fuel IH]; intros cpu Hr Hx; [discriminate|].
  cbn [run_loop] in Hr. unfold OwlCpu.Done in Hr.
  destruct (OwlCpu.done cpu) eqn:Hdone.
  - injection Hr as <-. repeat split; assumption.
  - destruct (OwlCpu.Fetch cpu) as [[cpu1 w]|] eqn:Ef; [|discriminate].
    cbn [mbind option_bind fst snd] in Hr.
    destruct (dispatch cpu1 w) as [cpu2|] eqn:Ed; [|discriminate].
    cbn [mbind option_bind] in Hr.
    destruct (Fetch_keeps _ _ _ Ef) as (Fx & Fm & _ & _).
    destruct (Hd cpu1 w) as [c Hc]. rewrite Hc in Ed.
    assert (Hx1 : x0_zero cpu1).
    { unfold x0_zero, OwlCpu.get_x in *. rewrite Fx. exact Hx. }
    pose proof (execute_x0 c cpu1 cpu2 Hx1 Ed) as Hx2.
    destruct (execute_sizes c cpu1 cpu2 Ed) as (Sx & Sm & _).
    destruct (IH cpu2 Hr Hx2) as (I1 & I2 & I3 & I4).
    repeat split; [exact I1 | exact I2 | congruence | congruence].
Qed.

(** A run that returns, of an Owl image or of an RV32I image: the machine
    is halted, register 0 holds zero, and the memory and the register
    file have the sizes they started with. *)
Theorem run_returns_halted `{Host} (fuel : nat) (image : Memory) (cpu' : OwlCpu.t) :
  Run fuel image = Some cpu' \/ RunRv32i fuel image = Some cpu' ->
  OwlCpu.done cpu' = true /\ x0_zero cpu' /\
  length (OwlCpu.x cpu') = 32%nat /\
  length (OwlCpu.memory cpu') = length image.
Proof.
  assert (Hx : x0_zero (OwlCpu.init image)) by reflexivity.
  assert (Hl : length (OwlCpu.x (OwlCpu.init image)) = 32%nat).
  { unfold OwlCpu.init. cbn [OwlCpu.x]. rewrite length_insert. reflexivity. }
  intros [Hr | Hr]; unfold Run, RunRv32i in Hr.
  - destruct (run_loop_invariant _ _ _ _ DispatchOwl_calls Hr Hx) as (I1 & I2 & I3 & I4).
    rewrite I3, I4, Hl. repeat split; assumption.
  - destruct (run_loop_invariant _ _ _ _ DispatchRv32i_calls Hr Hx) as (I1 & I2 & I3 & I4).
    rewrite I3, I4, Hl. repeat split; assumption.
Qed.

Lemma run_returns_halted_witness :
  let host : Host := little in
  let image := image_bytes [0x00a00513; 0x00100073] 16 in
  exists cpu', RunRv32i 5 image = Some cpu' /\
    OwlCpu.done cpu' = true /\ OwlCpu.get_x cpu' 10 = Some 10 /\
    length (OwlCpu.memory cpu') = 16%nat.
Proof.
  intros host image.
  destruct (RunRv32i 5 image) as [cpu'|] eqn:E; [|vm_compute in E; discriminate].
  exists cpu'. split; [reflexivity|].
  destruct (@run_returns_halted host 5 image cpu' (or_intror E)) as (Hd & _ & _ & Hm).
  split; [exact Hd|]. split; [|exact Hm].
  vm_compute in E. injection E as <-. reflexivity.
Defined.

(** ** The RV32I decoder *)

Lemma decode_imm12_encode (v : Z) :
  decode.imm12 (encode.imm12 v) = u32 (Z.shiftr (i32 (encode.imm12 v)) 20).
Proof. unfold decode.imm12. rewrite imm12_mask. reflexivity. Qed.

Lemma decode_offs12_encode (v : Z) :
  decode.offs12 (encode.offs12 v) = u32 (Z.shiftr (i32 (encode.offs12 v)) 19).
Proof. unfold decode.offs12. rewrite offs12_masked. reflexivity. Qed.

Lemma decode_offs20_encode (v : Z) :
  decode.offs20 (encode.offs20 v) = u32 (Z.shiftr (i32 (encode.offs20 v)) 11).
Proof. unfold decode.offs20. rewrite offs20_masked. reflexivity. Qed.

Lemma upper_bits (code : Z) :
  0 <= code < 2 ^ 32 -> Z.land code 0xfffff000 = code / 4096 * 4096.
Proof.
  intros Hc.
  transitivity (Z.shiftl (Z.shiftr (Z.land code (Z.ones 32)) 12) 12).
  - rewrite <- (land_ones_small code 32) at 1 by lia. masks. bits.
  - rewrite land_ones_small by lia.
    rewrite Z.shiftl_mul_pow2, Z.shiftr_div_pow2 by lia. reflexivity.
Qed.

(** The operands [DecodeRv32] extracts always fit the fields of the Owl
    encoding: registers and shift amounts are below 32, I- and
    S-immediates are sign-extended 12-bit values, B- and J-immediates are
    even, sign-extended 13- and 21-bit values, and the U-immediate is a
    32-bit multiple of 4096. *)
Theorem RV32I_operands_fit (code : Z) :
  0 <= code < 2 ^ 32 ->
  fits_reg (DecodeRv32.Rd code) = true /\
  fits_reg (DecodeRv32.Rs1 code) = true /\
  fits_reg (DecodeRv32.Rs2 code) = true /\
  fits_reg (DecodeRv32.Shamtw code) = true /\
  fits_imm12 (i32 (DecodeRv32.Iimmediate code)) = true /\
  fits_imm12 (i32 (DecodeRv32.Simmediate code)) = true /\
  fits_offs12 (i32 (DecodeRv32.Bimmediate code)) = true /\
  fits_offs20 (i32 (DecodeRv32.Jimmediate code)) = true /\
  (0 <= DecodeRv32.Uimmediate code < 2 ^ 32 /\ DecodeRv32.Uimmediate code mod 4096 = 0).
Proof.
  intros Hc.
  assert (Hreg : forall k, fits_reg (Z.land (Z.shiftr code k) 0x1f) = true).
  { intros k. unfold fits_reg. change 0x1f with (Z.ones 5).
    rewrite Z.land_ones by lia.
    pose proof (Z.mod_pos_bound (Z.shiftr code k) (2 ^ 5) ltac:(lia)). lia. }
  assert (HI : forall v, u32 (Z.shiftr (i32 (encode.imm12 (i32 v))) 20) = v ->
             fits_imm12 (i32 v) = true).
  { intros v Hv.
    pose proof (decode_encode_imm12 (i32 v)) as D.
    rewrite decode_imm12_encode, Hv in D.
    pose proof (Z.mod_pos_bound (i32 v + 2048) 4096 ltac:(lia)).
    unfold fits_imm12. lia. }
  unfold DecodeRv32.Uimmediate. split_and!; try apply Hreg.
  - apply HI, Iimmediate_as_imm12.
  - apply HI, Simmediate_as_imm12.
  - pose proof (decode_encode_offs12 (i32 (DecodeRv32.Bimmediate code))) as D.
    rewrite decode_offs12_encode, Bimmediate_as_offs12 in D.
    pose proof (Z.mod_pos_bound (i32 (DecodeRv32.Bimmediate code) / 2 + 2048) 4096
                  ltac:(lia)).
    unfold fits_offs12. rewrite D.
    rewrite Z.mul_comm, Z.mod_mul by lia. lia.
  - pose proof (decode_encode_offs20 (i32 (DecodeRv32.Jimmediate code))) as D.
    rewrite decode_offs20_encode, Jimmediate_as_offs20 in D.
    pose proof (Z.mod_pos_bound (i32 (DecodeRv32.Jimmediate code) / 2 + 524288) 1048576
                  ltac:(lia)).
    unfold fits_offs20. rewrite D.
    rewrite Z.mul_comm, Z.mod_mul by lia. lia.
  - rewrite (upper_bits code Hc). apply Z.mul_nonneg_nonneg; [apply Z.div_pos|]; lia.
  - rewrite (upper_bits code Hc). pose proof (Z.div_mod code 4096 ltac:(lia)).
    pose proof (Z.mod_pos_bound code 4096 ltac:(lia)). lia.
  - rewrite (upper_bits code Hc). apply Z.mod_mul. lia.
Qed.

Lemma RV32I_operands_fit_witness :
  let code := 0xfe000ee3 in
  0 <= code < 2 ^ 32 /\
  i32 (DecodeRv32.Bimmediate code) = - 4 /\
  fits_offs12 (i32 (DecodeRv32.Bimmediate code)) = true /\
  fits_imm12 (i32 (DecodeRv32.Iimmediate code)) = true.
Proof.
  cbv zeta.
  destruct (RV32I_operands_fit 0xfe000ee3 ltac:(lia))
    as (_ & _ & _ & _ & HI & _ & HB & _).
  split; [lia|]. split; [reflexivity|]. split; [exact HB | exact HI].
Defined.

(** ** Shifts by a register, and fetching *)

(** The shifts that take their count from a register use [x[r2]] modulo
    32: [Sll] does what [Slli] does with that count and [Srl] what [Srai]
    does; so does [Sra] with [Srli] when bit 31 of [x[r2]] is clear (the
    signed remainder the source takes is then the same number). *)
Theorem register_shifts_use_count_mod_32 (cpu : OwlCpu.t) (r0 r1 r2 b : Z) :
  OwlCpu.get_x cpu r2 = Some b -> 0 <= b < 2 ^ 32 ->
  OwlCpu.Sll r0 r1 r2 cpu = OwlCpu.Slli r0 r1 (b mod 32) cpu /\
  OwlCpu.Srl r0 r1 r2 cpu = OwlCpu.Srai r0 r1 (b mod 32) cpu /\
  (b < 2 ^ 31 -> OwlCpu.Sra r0 r1 r2 cpu = OwlCpu.Srli r0 r1 (b mod 32) cpu).
Proof.
  intros Hb Hr.
  pose proof (Z.mod_pos_bound b 32 ltac:(lia)) as Hm.
  pose proof (shift_count_defined (b mod 32) Hm) as Hs.
  unfold OwlCpu.Sll, OwlCpu.Slli, OwlCpu.Srl, OwlCpu.Srai, OwlCpu.Sra, OwlCpu.Srli.
  rewrite Hb. cbv zeta.
  split; [|split].
  - destruct (OwlCpu.get_x cpu r1); [|reflexivity].
    cbn [mbind option_bind]. rewrite Hs. reflexivity.
  - destruct (OwlCpu.get_x cpu r1); [|reflexivity].
    cbn [mbind option_bind]. rewrite Hs. reflexivity.
  - intros Hpos. destruct (OwlCpu.get_x cpu r1); [|reflexivity].
    cbn [mbind option_bind].
    rewrite (i32_small b) by lia. rewrite (i32_small (b mod 32)) by lia.
    rewrite Z.rem_mod_nonneg by lia. reflexivity.
Qed.

Lemma register_shifts_use_count_mod_32_witness :
  let cpu := OwlCpu.mk 0 4 (<[5%nat := 1]> (<[6%nat := 33]> (replicate 32 0))) false [] [] in
  (OwlCpu.get_x cpu 6 = Some 33 /\ 0 <= 33 < 2 ^ 32) /\
  OwlCpu.Sll 7 5 6 cpu = OwlCpu.Slli 7 5 1 cpu /\
  (c ← OwlCpu.Sll 7 5 6 cpu; OwlCpu.get_x c 7) = Some 2.
Proof.
  intros cpu.
  assert (Hb : OwlCpu.get_x cpu 6 = Some 33) by reflexivity.
  destruct (register_shifts_use_count_mod_32 cpu 7 5 6 33 Hb ltac:(lia)) as (Hs & _).
  split; [split; [exact Hb | lia]|]. split; [exact Hs | vm_compute; reflexivity].
Defined.

(** [Fetch] reads whole words: the two low bits of the program counter
    play no part in which word is fetched, so a misaligned [nextPc] (a
    [Jalr] can produce one) yields the word it lies in; [pc] becomes the
    unrounded [nextPc], and [nextPc] advances by 4 modulo 2^32. *)
Theorem Fetch_rounds_pc_down `{Host} (cpu : OwlCpu.t) (k j : Z) :
  0 <= j < 4 -> OwlCpu.nextPc cpu = 4 * k + j ->
  OwlCpu.Fetch cpu
  = (w ← Read32 (OwlCpu.memory cpu) (4 * k);
     Some (OwlCpu.with_nextPc (OwlCpu.with_pc cpu (4 * k + j)) (u32 (4 * k + j + 4)), w)).
Proof.
  intros Hj Hn. unfold OwlCpu.Fetch, Read32. cbv zeta.
  cbn [OwlCpu.memory OwlCpu.pc OwlCpu.nextPc OwlCpu.with_pc OwlCpu.with_nextPc].
  rewrite Hn.
  replace ((4 * k + j) / 4) with k.
  - destruct (copy_from (OwlCpu.memory cpu) (4 * k) 4); reflexivity.
  - symmetry. rewrite Z.mul_comm, Z.div_add_l by lia.
    rewrite Z.div_small by lia. lia.
Qed.

Lemma Fetch_rounds_pc_down_witness :
  let host : Host := little in
  let cpu := OwlCpu.with_nextPc
               (OwlCpu.init [Byte.x01; Byte.x02; Byte.x03; Byte.x04;
                             Byte.x05; Byte.x06; Byte.x07; Byte.x08]) 6 in
  (0 <= 2 < 4 /\ OwlCpu.nextPc cpu = 4 * 1 + 2) /\
  option_map snd (OwlCpu.Fetch cpu) = Some 0x08070605 /\
  option_map (fun f => OwlCpu.pc (fst f)) (OwlCpu.Fetch cpu) = Some 6.
Proof.
  intros host cpu. split; [split; [lia | reflexivity]|].
  rewrite (@Fetch_rounds_pc_down host cpu 1 2 ltac:(lia) eq_refl).
  split; reflexivity.
Defined.

(** *** New labels, and forward references to an address *)

(** [MakeLabel] returns a label that no earlier label shares and that is
    unbound; the labels made before keep what [AddressOf] says of them,
    and neither the buffer nor the pending fixups change. *)
Theorem MakeLabel_gives_fresh_unbound_label (a : Assembler.t) :
  let label := fst (Assembler.MakeLabel a) in
  let a' := snd (Assembler.MakeLabel a) in
  GetId label = length (Assembler.labels_ a) /\
  Assembler.AddressOf a' label = Some None /\
  (forall l r, Assembler.AddressOf a l = Some r -> Assembler.AddressOf a' l = Some r) /\
  Assembler.code_ a' = Assembler.code_ a /\
  Assembler.current_ a' = Assembler.current_ a /\
  Assembler.fixups_ a' = Assembler.fixups_ a.
Proof.
  cbv zeta. unfold Assembler.MakeLabel. cbn [fst snd GetId].
  split; [reflexivity|]. split; [|split; [|repeat split]].
  - unfold Assembler.AddressOf. cbn [Assembler.labels_ GetId].
    rewrite list_lookup_middle by reflexivity. reflexivity.
  - intros l r. unfold Assembler.AddressOf. cbn [Assembler.labels_].
    destruct (Assembler.labels_ a !! GetId l) as [v|] eqn:E; [|discriminate].
    rewrite (lookup_app_l_Some _ _ _ _ E). intros Hr. exact Hr.
Qed.

Lemma u32_i32 (x : Z) : u32 (i32 x) = u32 x.
Proof. rewrite <- (Z.add_0_r (i32 x)), u32_add_i32, Z.add_0_r. reflexivity. Qed.

Lemma low12_r (o : Opcode.t) (r0 : Z) :
  Z.land (encode.opc o .| encode.r0 r0 .| encode.uimm20 0) 0x00000fff
  = encode.opc o .| encode.r0 r0.
Proof.
  change (encode.uimm20 0) with 0. rewrite Z.lor_0_r.
  rewrite <- (opc_land o). fields. change 0x00000fff with (Z.ones 12). bits.
Qed.

Lemma low20_rr_imm (o : Opcode.t) (r0 r1 : Z) :
  Z.land (encode.opc o .| encode.r0 r0 .| encode.r1 r1 .| encode.imm12 0) 0x000fffff
  = encode.opc o .| encode.r0 r0 .| encode.r1 r1.
Proof.
  change (encode.imm12 0) with 0. rewrite Z.lor_0_r.
  rewrite <- (opc_land o). fields. change 0x000fffff with (Z.ones 20). bits.
Qed.

Lemma uimm20_of_upper (A : Z) :
  0 <= A < 2 ^ 32 -> encode.uimm20 (Z.shiftr A 12) = Z.land A 0xfffff000.
Proof.
  intros HA. rewrite encode_uimm20_value, (upper_bits A HA).
  rewrite Z.shiftl_mul_pow2, Z.shiftr_div_pow2 by lia.
  change (2 ^ 12) with 4096. apply u32_small.
  pose proof (Z.div_mod A 4096 ltac:(lia)).
  pose proof (Z.mod_pos_bound A 4096 ltac:(lia)).
  assert (0 <= A / 4096) by (apply Z.div_pos; lia). lia.
Qed.

(** [Hi] and [Lo] of a label that is bound only later, used with [Lui]
    and with [Addi]: once the label is bound, at [address], the buffer is
    the one obtained by giving [Lui] the value [address >> 12] and [Addi]
    the value [address & 0xfff], which is what [Hi] and [Lo] return for a
    label already bound there.  (On a little-endian host.) *)
Theorem forward_Hi_Lo_same_as_bound `{Host} (r0 r1 : Z) (label : Label)
    (a0 : Assembler.t) (ws : list Z) :
  native = little ->
  Assembler.current_ a0 = 4 * Z.of_nat (length (Assembler.code_ a0)) ->
  Assembler.AddressOf a0 label = Some None ->
  multimap_equal_range (GetId label) (Assembler.fixups_ a0) = [] ->
  let emit_all := fold_left (fun a w => Assembler.Emit w a) ws in
  let address := u32 (Assembler.current_ a0 + 4 * Z.of_nat (S (length ws))) in
  (exists hi a1 a3,
     Assembler.Hi label a0 = Some (hi, a1) /\
     Assembler.BindLabel label (emit_all (Assembler.Lui r0 hi a1)) = Some a3 /\
     Assembler.AddressOf a3 label
       = Some (if address =? Assembler.badAddress then None else Some address) /\
     Assembler.code_ a3
       = Assembler.code_ (emit_all (Assembler.Lui r0 (Z.shiftr address 12) a0))) /\
  (exists lo a1 a3,
     Assembler.Lo label a0 = Some (lo, a1) /\
     Assembler.BindLabel label (emit_all (Assembler.Addi r0 r1 lo a1)) = Some a3 /\
     Assembler.code_ a3
       = Assembler.code_ (emit_all (Assembler.Addi r0 r1 (Z.land address 0xfff) a0))).
Proof.
  intros Hn Hc Hu Hf. cbv zeta.
  pose proof (u32_range (Assembler.current_ a0 + 4 * Z.of_nat (S (length ws)))) as HA.
  set (address := u32 (Assembler.current_ a0 + 4 * Z.of_nat (S (length ws)))) in *.
  assert (Hrhs : forall u,
            Assembler.code_ (fold_left (fun a w => Assembler.Emit w a) ws
                               (Assembler.Emit u a0))
            = Assembler.code_ a0 ++ u :: ws).
  { intros u.
    destruct (fold_Emit ws (Assembler.Emit u a0) (Assembler.current_ a0 + 4) eq_refl)
      as (F1 & _).
    cbv zeta in F1. rewrite F1. cbn [Assembler.code_ Assembler.Emit].
    rewrite (map_AsLE32_little ws Hn), (AsLE32_little u Hn), <- app_assoc. reflexivity. }
  split.
  - unfold Assembler.Hi. rewrite Hu. cbn [mbind option_bind].
    unfold Assembler.Lui.
    destruct (patched_code FixupType.hi20 label a0
                (encode.opc Opcode.Lui .| encode.r0 r0 .| encode.uimm20 0)
                (encode.opc Opcode.Lui .| encode.r0 r0 .| encode.uimm20 (Z.shiftr address 12))
                ws Hn Hc Hu Hf) as (a3 & B1 & B2 & B3).
    { cbv zeta. fold address. rewrite low12_r, u32_i32, (uimm20_of_upper address HA).
      rewrite u32_small; [reflexivity|].
      rewrite (upper_bits address HA).
      pose proof (Z.div_mod address 4096 ltac:(lia)).
      pose proof (Z.mod_pos_bound address 4096 ltac:(lia)).
      assert (0 <= address / 4096) by (apply Z.div_pos; lia). lia. }
    eexists. eexists. exists a3. split; [reflexivity|]. split; [exact B1|].
    split; [|rewrite B2, Hrhs; reflexivity].
    destruct (BindLabel_after_reference FixupType.hi20 label a0
                (encode.opc Opcode.Lui .| encode.r0 r0 .| encode.uimm20 0) ws Hu Hf)
      as [Hcur _].
    cbv zeta in Hcur. fold address in Hcur.
    destruct (BindLabel_labels _ _ _ B1) as [Hlt Hlab].
    unfold Assembler.Current in Hlab. rewrite Hcur in Hlab.
    apply (f_equal (fun l => l !! GetId label)) in Hlab.
    rewrite list_lookup_insert_eq in Hlab by exact Hlt.
    unfold Assembler.AddressOf. rewrite Hlab. cbn [mbind option_bind].
    destruct (address =? Assembler.badAddress); reflexivity.
  - unfold Assembler.Lo. rewrite Hu. cbn [mbind option_bind].
    unfold Assembler.Addi.
    destruct (patched_code FixupType.lo12 label a0
                (encode.opc Opcode.Addi .| encode.r0 r0 .| encode.r1 r1 .| encode.imm12 0)
                (encode.opc Opcode.Addi .| encode.r0 r0 .| encode.r1 r1
                 .| encode.imm12 (Z.land address 0xfff))
                ws Hn Hc Hu Hf) as (a3 & B1 & B2 & B3).
    { cbv zeta. fold address. rewrite low20_rr_imm.
      rewrite i32_small; [reflexivity|].
      change 0x00000fff with (Z.ones 12). rewrite Z.land_ones by lia.
      pose proof (Z.mod_pos_bound address (2 ^ 12) ltac:(lia)). lia. }
    eexists. eexists. exists a3. split; [reflexivity|]. split; [exact B1|].
    rewrite B2, Hrhs. reflexivity.
Qed.

Lemma forward_Hi_Lo_same_as_bound_witness :
  let host : Host := little in
  let a0 := Assembler.mk [] 0 [Assembler.badAddress] [] in
  let label := {| GetId := 0 |} in
  (native = little /\ Assembler.AddressOf a0 label = Some None) /\
  exists lo a1 a3,
    Assembler.Lo label a0 = Some (lo, a1) /\
    Assembler.BindLabel label (Assembler.Ebreak (Assembler.Addi 9 9 lo a1)) = Some a3 /\
    Assembler.code_ a3 = [0x00809496; 0x2].
Proof.
  intros host a0 label. split; [split; reflexivity|].
  destruct (@forward_Hi_Lo_same_as_bound host 9 9 label a0 [encode.opc Opcode.Ebreak]
              eq_refl eq_refl eq_refl eq_refl)
    as (_ & (lo & a1 & a3 & L1 & L2 & L3)).
  exists lo, a1, a3. split; [exact L1|]. split; [exact L2|].
  rewrite L3. reflexivity.
Defined.

(** ** The two RV32I decision lists *)

Lemma switch_related3 {A B C : Type} (R : A -> B -> C -> Prop) (v : Z)
    (cs1 : list (Z * A)) (cs2 : list (Z * B)) (cs3 : list (Z * C)) (d1 : A) (d2 : B) (d3 : C) :
  Forall3 (fun p q r => fst p = fst q /\ fst q = fst r /\ R (snd p) (snd q) (snd r))
    cs1 cs2 cs3 ->
  R d1 d2 d3 ->
  R (switch v cs1 d1) (switch v cs2 d2) (switch v cs3 d3).
Proof.
  intros Hc Hd. induction Hc as [|[c1 x] [c2 y] [c3 z] l1 l2 l3 (H1 & H2 & Hr) _ IH];
    [exact Hd|].
  cbn in H1, H2, Hr. subst c2 c3. cbn [switch].
  destruct (v =? c1); [exact Hr | exact IH].
Qed.

(** [DispatchRv32i] and [Transcode] are two copies of one decision list.
    They agree arm by arm: for every word, the dispatcher makes on the
    executor the call that the transcoder makes on the assembler, with
    the same operands. *)
Theorem Transcode_and_DispatchRv32i_make_the_same_call `{Host} (code : Z)
    (cpu : OwlCpu.t) (a : Assembler.t) :
  DispatchRv32i cpu code = execute (rv_call code) cpu /\
  Transcode a code = assemble (rv_call code) a.
Proof.
  unfold DispatchRv32i, Transcode, rv_call. cbv zeta.
  repeat
    (match goal with
     | |- switch ?v ?cs ?d = execute (switch _ ?cs' ?d') _ /\ _ =>
         refine (switch_related3 
                   (fun r t c => r = execute c cpu /\ t = assemble c a)
                   v cs _ cs' d _ d' _ _);
         [repeat (constructor; [cbv beta; cbn [fst snd]; repeat split|]); constructor|]
     end).
  split; reflexivity.
Qed.
